(** * Gossip example: last-writer-wins state convergence over memberlist

    A shallow embedding of [main.go]: the [state] record, the [server]
    delegate methods ([NotifyMsg], [LocalState], [MergeRemoteState],
    [GetBroadcasts]), [processStateChange], the [StateChange] broadcast, the
    loops of [main] that create the servers and report, and the mutator,
    together with models of the library pieces they call ([time.Time],
    [encoding/json] for the [state] struct, [memberlist.TransmitLimitedQueue],
    [float32] arithmetic and the [%.0f] verb). *)

From Stdlib Require Import ZArith Lia Bool List Ascii String DecimalString
  DecimalZ DecimalPos Sorted.
From stdpp Require Import gmap strings list.

Local Open Scope Z_scope.

(** ** Bytes

    A Go [string] and a Go [[]byte] are both sequences of bytes; both are
    modelled by [string], whose characters are the 256 byte values. *)

Definition code (c : ascii) : Z := Z.of_N (N_of_ascii c).
Definition chr (n : Z) : ascii := ascii_of_N (Z.to_N n).

Definition isDigit (c : ascii) : bool := (48 <=? code c) && (code c <=? 57).
Definition digit (n : Z) : ascii := chr (48 + n).
Definition digitVal (c : ascii) : Z := code c - 48.

Definition len (s : string) : Z := Z.of_nat (String.length s).

(** ** Package [time]

    A [Time] is modelled by the instant it denotes, in nanoseconds since
    January 1, year 1, 00:00:00 UTC (the zero [Time]), and by the offset of
    its location in seconds east of UTC.  [Before] and [After] compare
    instants; the monotonic clock reading that [time.Now] attaches, and
    that the codec drops, is not modelled.  Integers are unbounded: the
    quantities of the program stay far from the ends of [int64]. *)

Module time.

Record Time := mkTime { abs_ns : Z; zone : Z }.

Definition zero : Time := {| abs_ns := 0; zone := 0 |}.

Definition Before (t u : Time) : bool := abs_ns t <? abs_ns u.
Definition After (t u : Time) : bool := abs_ns u <? abs_ns t.
Definition Equal (t u : Time) : bool := abs_ns t =? abs_ns u.

Definition isLeap (year : Z) : bool :=
  (year mod 4 =? 0) && (negb (year mod 100 =? 0) || (year mod 400 =? 0)).

Definition daysIn (month year : Z) : Z :=
  if month =? 2 then (if isLeap year then 29 else 28)
  else if (month =? 4) || (month =? 6) || (month =? 9) || (month =? 11) then 30
  else 31.

(** Days since January 1, year 1 of a proleptic Gregorian date, counted in
    400-year cycles of 146097 days that start on March 1. *)
Definition daysSinceEpoch (year month day : Z) : Z :=
  let y := if month <=? 2 then year - 1 else year in
  let cycle := y / 400 in
  let yoc := y mod 400 in
  let mp := if 2 <? month then month - 3 else month + 9 in
  let doy := (153 * mp + 2) / 5 + day - 1 in
  let doc := yoc * 365 + yoc / 4 - yoc / 100 + doy in
  cycle * 146097 + doc - 306.

(** The date of a day number: the inverse of [daysSinceEpoch]. *)
Definition absDate (days : Z) : Z * Z * Z :=
  let z := days + 306 in
  let cycle := z / 146097 in
  let doc := z mod 146097 in
  let yoc := (doc - doc / 1460 + doc / 36524 - doc / 146096) / 365 in
  let doy := doc - (365 * yoc + yoc / 4 - yoc / 100) in
  let mp := (5 * doy + 2) / 153 in
  let day := doy - (153 * mp + 2) / 5 + 1 in
  let month := if mp <? 10 then mp + 3 else mp - 9 in
  let year := yoc + cycle * 400 + (if month <=? 2 then 1 else 0) in
  (year, month, day).

Definition nsPerSec : Z := 1000000000.
Definition secPerDay : Z := 86400.

(** [Date(year, month, day, hour, min, sec, nsec, UTC)] on fields that are
    in range. *)
Definition Date (year month day hour min sec nsec : Z) : Z :=
  ((daysSinceEpoch year month day * secPerDay)
   + hour * 3600 + min * 60 + sec) * nsPerSec + nsec.

Definition pad2 (x : Z) : string :=
  String (digit (x / 10)) (String (digit (x mod 10)) "").

Definition pad4 (x : Z) : string :=
  String (digit (x / 1000)) (String (digit (x / 100 mod 10))
    (String (digit (x / 10 mod 10)) (String (digit (x mod 10)) ""))).

Definition pad9 (x : Z) : string :=
  pad4 (x / 100000) +:+ pad4 (x / 10 mod 10000) +:+ String (digit (x mod 10)) "".

Fixpoint trimZeros (s : string) : string :=
  match s with
  | EmptyString => EmptyString
  | String c r =>
      match trimZeros r with
      | EmptyString => if Ascii.eqb c "0" then EmptyString else String c EmptyString
      | r' => String c r'
      end
  end.

(** [appendNano] for the layout [.999999999]: nothing for a whole second,
    else a period and nine digits without their trailing zeros. *)
Definition appendNano (nanosec : Z) : string :=
  if nanosec =? 0 then "" else String "." (trimZeros (pad9 nanosec)).

Definition appendZone (offset : Z) : string :=
  if offset =? 0 then "Z"
  else
    let z := Z.quot offset 60 in
    let sign := if z <? 0 then "-" else "+" in
    let z := Z.abs z in
    sign +:+ pad2 (z / 60) +:+ ":" +:+ pad2 (z mod 60).

(** [appendStrictRFC3339]: the RFC 3339 text of a [Time] with nanoseconds,
    or an error when the year is outside [0,9999] or the zone hour outside
    [0,23]. *)
Definition appendStrictRFC3339 (t : Time) : option string :=
  let loc := abs_ns t + zone t * nsPerSec in
  let secs := loc / nsPerSec in
  let nsec := loc mod nsPerSec in
  let days := secs / secPerDay in
  let sod := secs mod secPerDay in
  let '(year, month, day) := absDate days in
  if (year <? 0) || (9999 <? year) then None
  else if 24 <=? Z.abs (Z.quot (zone t) 60) / 60 then None
  else
    Some (pad4 year +:+ "-" +:+ pad2 month +:+ "-" +:+ pad2 day +:+ "T"
          +:+ pad2 (sod / 3600) +:+ ":" +:+ pad2 (sod / 60 mod 60) +:+ ":"
          +:+ pad2 (sod mod 60) +:+ appendNano nsec +:+ appendZone (zone t)).

(** [parseUint]: an unsigned decimal in a given range. *)
Fixpoint atoi (acc : Z) (s : string) : option Z :=
  match s with
  | EmptyString => Some acc
  | String c r => if isDigit c then atoi (acc * 10 + digitVal c) r else None
  end.

Definition parseUint (s : string) (lo hi : Z) : option Z :=
  match atoi 0 s with
  | Some x => if (x <? lo) || (hi <? x) then None else Some x
  | None => None
  end.

Fixpoint spanDigits (s : string) : string * string :=
  match s with
  | String c r =>
      if isDigit c then let '(d, r') := spanDigits r in (String c d, r')
      else (EmptyString, s)
  | EmptyString => (EmptyString, EmptyString)
  end.

Fixpoint take (n : nat) (s : string) : string :=
  match n, s with
  | S n', String c r => String c (take n' r)
  | _, _ => EmptyString
  end.

(** [parseNanoseconds]: the digits after the period, cut to nine and
    scaled to nanoseconds. *)
Definition parseNanoseconds (digits : string) : Z :=
  let d := take 9 digits in
  match atoi 0 d with
  | Some x => x * 10 ^ (9 - len d)
  | None => 0
  end.

Definition parseZone (s : string) : option Z :=
  match s with
  | String "Z" EmptyString => Some 0
  | String sg (String h1 (String h2 (String c (String m1 (String m2 EmptyString))))) =>
      match parseUint (String h1 (String h2 "")) 0 23,
            parseUint (String m1 (String m2 "")) 0 59 with
      | Some hr, Some mm =>
          if Ascii.eqb c ":" then
            if Ascii.eqb sg "+" then Some ((hr * 60 + mm) * 60)
            else if Ascii.eqb sg "-" then Some (- ((hr * 60 + mm) * 60))
            else None
          else None
      | _, _ => None
      end
  | _ => None
  end.

Definition parseFrac (s : string) : Z * string :=
  match s with
  | String "." (String d r) =>
      if isDigit d then
        let '(ds, r') := spanDigits r in (parseNanoseconds (String d ds), r')
      else (0, s)
  | _ => (0, s)
  end.

(** [parseRFC3339]: [2006-01-02T15:04:05], an optional fraction of a
    second, then [Z] or a numeric zone: the syntax of RFC 3339. *)
Definition parseRFC3339 (s : string) : option Time :=
  match s with
  | String y1 (String y2 (String y3 (String y4 (String c4
    (String o1 (String o2 (String c7
    (String d1 (String d2 (String c10
    (String h1 (String h2 (String c13
    (String i1 (String i2 (String c16
    (String s1 (String s2 rest)))))))))))))))))) =>
      match parseUint (String y1 (String y2 (String y3 (String y4 ""))))
              0 9999 with
      | Some year =>
      match parseUint (String o1 (String o2 "")) 1 12 with
      | Some month =>
      match parseUint (String d1 (String d2 "")) 1 (daysIn month year) with
      | Some day =>
      match parseUint (String h1 (String h2 "")) 0 23,
            parseUint (String i1 (String i2 "")) 0 59,
            parseUint (String s1 (String s2 "")) 0 59 with
      | Some hour, Some min, Some sec =>
          if Ascii.eqb c4 "-" && Ascii.eqb c7 "-" && Ascii.eqb c10 "T"
             && Ascii.eqb c13 ":" && Ascii.eqb c16 ":" then
            let '(nsec, rest) := parseFrac rest in
            match parseZone rest with
            | Some off =>
                Some {| abs_ns := Date year month day hour min sec nsec
                                  - off * nsPerSec;
                        zone := off |}
            | None => None
            end
          else None
      | _, _, _ => None
      end
      | None => None end
      | None => None end
      | None => None end
  | _ => None
  end.

(** [getnum]: one or two digits ([fixed] forces two), and the rest of the
    text. *)
Definition getnum (s : string) (fixed : bool) : option (Z * string) :=
  match s with
  | String c1 r1 =>
      if isDigit c1 then
        match r1 with
        | String c2 r2 =>
            if isDigit c2 then Some (digitVal c1 * 10 + digitVal c2, r2)
            else if fixed then None else Some (digitVal c1, r1)
        | EmptyString => if fixed then None else Some (digitVal c1, r1)
        end
      else None
  | EmptyString => None
  end.

(** [skip] for a prefix of one byte that is not a space. *)
Definition skip (s : string) (c : ascii) : option string :=
  match s with
  | String d r => if Ascii.eqb d c then Some r else None
  | EmptyString => None
  end.

Definition commaOrPeriod (c : ascii) : bool :=
  Ascii.eqb c "." || Ascii.eqb c ",".

(** The fraction of a second that [parse] reads after the seconds when
    the layout has none: a period or a comma, then digits. *)
Definition parseFracLayout (s : string) : Z * string :=
  match s with
  | String p (String d r) =>
      if commaOrPeriod p && isDigit d then
        let '(ds, r') := spanDigits r in (parseNanoseconds (String d ds), r')
      else (0, s)
  | _ => (0, s)
  end.

(** The element [Z07:00] of a layout: [Z], or a sign, two digits, a colon
    and two digits.  The hour may be 24 and the minute 60. *)
Definition parseZoneLayout (s : string) : option (Z * string) :=
  match s with
  | String "Z" r => Some (0, r)
  | String sg (String h1 (String h2 (String c (String m1 (String m2 r))))) =>
      if Ascii.eqb c ":" then
        match getnum (String h1 (String h2 "")) true,
              getnum (String m1 (String m2 "")) true with
        | Some (hr, _), Some (mm, _) =>
            if (24 <? hr) || (60 <? mm) then None
            else if Ascii.eqb sg "+" then Some ((hr * 60 + mm) * 60, r)
            else if Ascii.eqb sg "-" then Some (- ((hr * 60 + mm) * 60), r)
            else None
        | _, _ => None
        end
      else None
  | _ => None
  end.

(** [parse] for the layout [RFC3339], [2006-01-02T15:04:05Z07:00]: the
    elements of the layout one after the other, each with its range
    check, then the check of the day against the month. *)
Definition parseLayout (s : string) : option Time :=
  match s with
  | String y1 (String y2 (String y3 (String y4 r))) =>
      year ← atoi 0 (String y1 (String y2 (String y3 (String y4 ""))));
      r ← skip r "-";
      '(month, r) ← getnum r true;
      if (month <=? 0) || (12 <? month) then None else
      r ← skip r "-";
      '(day, r) ← getnum r true;
      r ← skip r "T";
      '(hour, r) ← getnum r false;
      if 24 <=? hour then None else
      r ← skip r ":";
      '(min, r) ← getnum r true;
      if 60 <=? min then None else
      r ← skip r ":";
      '(sec, r) ← getnum r true;
      if 60 <=? sec then None else
      let '(nsec, r) := parseFracLayout r in
      '(off, r) ← parseZoneLayout r;
      match r with
      | EmptyString =>
          if (day <? 1) || (daysIn month year <? day) then None
          else Some {| abs_ns := Date year month day hour min sec nsec
                                 - off * nsPerSec;
                       zone := off |}
      | String _ _ => None
      end
  | _ => None
  end.

(** [parseStrictRFC3339], which [Time.UnmarshalJSON] calls: the text is
    read by [parseRFC3339] and, when that fails, by [Parse] with the layout
    [RFC3339]; the checks that would make the second reading strict are
    switched off in the library. *)
Definition parseStrictRFC3339 (s : string) : option Time :=
  match parseRFC3339 s with
  | Some t => Some t
  | None => parseLayout s
  end.

End time.

(** ** The [state] struct of [main.go] *)

Record state := mkState { TS : time.Time; Value : string }.

(** The zero value of [state] ([var remoteState state], [var newest state]). *)
Definition zeroState : state := {| TS := time.zero; Value := "" |}.

(** ** Package [unicode/utf8] *)

Module utf8.

Definition between (c : ascii) (lo hi : Z) : bool :=
  (lo <=? code c) && (code c <=? hi).

(** Width of the well-formed multi-byte encoding that starts [s], or [0]
    when [s] starts with an ASCII byte or with a byte that [DecodeRune]
    reports as [RuneError] of width 1. *)
Definition runeLen (s : string) : nat :=
  match s with
  | String b0 r =>
      let c0 := code b0 in
      if c0 <? 0xC2 then 0%nat
      else if c0 <? 0xE0 then
        match r with
        | String b1 _ => if between b1 0x80 0xBF then 2%nat else 0%nat
        | _ => 0%nat
        end
      else if c0 <? 0xF0 then
        match r with
        | String b1 (String b2 _) =>
            if between b1 (if c0 =? 0xE0 then 0xA0 else 0x80)
                          (if c0 =? 0xED then 0x9F else 0xBF)
               && between b2 0x80 0xBF then 3%nat else 0%nat
        | _ => 0%nat
        end
      else if c0 <? 0xF5 then
        match r with
        | String b1 (String b2 (String b3 _)) =>
            if between b1 (if c0 =? 0xF0 then 0x90 else 0x80)
                          (if c0 =? 0xF4 then 0x8F else 0xBF)
               && between b2 0x80 0xBF && between b3 0x80 0xBF
            then 4%nat else 0%nat
        | _ => 0%nat
        end
      else 0%nat
  | EmptyString => 0%nat
  end.

(** [EncodeRune]; surrogates and values above U+10FFFF become U+FFFD. *)
Definition EncodeRune (r : Z) : string :=
  if r <? 0x80 then String (chr r) ""
  else if r <? 0x800 then
    String (chr (0xC0 + r / 64)) (String (chr (0x80 + r mod 64)) "")
  else if ((0xD800 <=? r) && (r <=? 0xDFFF)) || (0x10FFFF <? r) then
    String (chr 0xEF) (String (chr 0xBF) (String (chr 0xBD) ""))
  else if r <? 0x10000 then
    String (chr (0xE0 + r / 4096))
      (String (chr (0x80 + r / 64 mod 64)) (String (chr (0x80 + r mod 64)) ""))
  else
    String (chr (0xF0 + r / 262144))
      (String (chr (0x80 + r / 4096 mod 64))
        (String (chr (0x80 + r / 64 mod 64))
          (String (chr (0x80 + r mod 64)) ""))).

Definition RuneError : Z := 0xFFFD.

(** [ValidString], with [skip] the number of bytes of the current rune
    still to pass. *)
Fixpoint validFrom (skip : nat) (s : string) : bool :=
  match s with
  | EmptyString => match skip with O => true | S _ => false end
  | String c r =>
      match skip with
      | S k => validFrom k r
      | O =>
          if code c <? 128 then validFrom 0 r
          else
            match runeLen (String c r) with
            | O => false
            | S k => validFrom k r
            end
      end
  end.

Definition ValidString (s : string) : bool := validFrom 0 s.

End utf8.

(** ** Package [encoding/json], for the [state] struct *)

Module json.

Definition dquote : ascii := chr 34.
Definition backslash : ascii := chr 92.

Definition quoted (body : string) : string :=
  String dquote (body +:+ String dquote "").

(** *** Encoding *)

Definition hexDigit (n : Z) : ascii :=
  if n <? 10 then chr (48 + n) else chr (87 + n).

(** [htmlSafeSet]: the ASCII bytes copied as they are. *)
Definition htmlSafe (c : ascii) : bool :=
  (32 <=? code c) && (code c <? 128)
  && negb (Ascii.eqb c dquote || Ascii.eqb c backslash
           || Ascii.eqb c "&" || Ascii.eqb c "<" || Ascii.eqb c ">").

(** The escape of an ASCII byte outside [htmlSafeSet]. *)
Definition escapeByte (c : ascii) : string :=
  let n := code c in
  if Ascii.eqb c dquote || Ascii.eqb c backslash then
    String backslash (String c "")
  else if n =? 8 then String backslash "b"
  else if n =? 12 then String backslash "f"
  else if n =? 10 then String backslash "n"
  else if n =? 13 then String backslash "r"
  else if n =? 9 then String backslash "t"
  else
    String backslash
      (String "u" (String "0" (String "0"
        (String (hexDigit (n / 16)) (String (hexDigit (n mod 16)) ""))))).

(** U+2028 and U+2029 are [E2 80 A8] and [E2 80 A9]. *)
Definition lineSep (s : string) : option ascii :=
  match s with
  | String b0 (String b1 (String b2 _)) =>
      if (code b0 =? 0xE2) && (code b1 =? 0x80)
         && ((code b2 =? 0xA8) || (code b2 =? 0xA9))
      then Some (hexDigit (code b2 mod 16)) else None
  | _ => None
  end.

(** The body of [appendString] with [escapeHTML] set.  [skip] counts the
    bytes of a multi-byte rune still to be copied ([i += size]). *)
Fixpoint appendBody (skip : nat) (src : string) : string :=
  match src with
  | EmptyString => EmptyString
  | String c r =>
      match skip with
      | S k => String c (appendBody k r)
      | O =>
          if code c <? 128 then
            if htmlSafe c then String c (appendBody 0 r)
            else escapeByte c +:+ appendBody 0 r
          else
            match utf8.runeLen (String c r) with
            | O => String backslash "ufffd" +:+ appendBody 0 r
            | S k =>
                match lineSep (String c r), r with
                | Some h, String _ (String _ r') =>
                    String backslash "u202" +:+ String h (appendBody 0 r')
                | _, _ => String c (appendBody k r)
                end
            end
      end
  end.

Definition appendString (src : string) : string := quoted (appendBody 0 src).

(** [Time.MarshalJSON]. *)
Definition marshalTime (t : time.Time) : option string :=
  match time.appendStrictRFC3339 t with
  | Some s => Some (quoted s)
  | None => None
  end.

(** [json.Marshal] of a [state]: an object with the two exported fields in
    declaration order, or the error of [Time.MarshalJSON]. *)
Definition Marshal (v : state) : option string :=
  match marshalTime (TS v) with
  | Some ts =>
      Some ("{" +:+ quoted "TS" +:+ ":" +:+ ts +:+ ","
            +:+ quoted "Value" +:+ ":" +:+ appendString (Value v) +:+ "}")
  | None => None
  end.

(** *** Decoding *)

Definition isSpace (c : ascii) : bool :=
  Ascii.eqb c " " || (code c =? 9) || (code c =? 13) || (code c =? 10).

Fixpoint skipSpace (s : string) : string :=
  match s with
  | String c r => if isSpace c then skipSpace r else s
  | EmptyString => EmptyString
  end.

Definition isHex (c : ascii) : bool :=
  isDigit c || utf8.between c 97 102 || utf8.between c 65 70.

Definition hexVal (c : ascii) : Z :=
  if isDigit c then code c - 48
  else if utf8.between c 97 102 then code c - 87
  else code c - 55.

Definition isSimpleEscape (c : ascii) : bool :=
  Ascii.eqb c dquote || Ascii.eqb c backslash || Ascii.eqb c "/"
  || Ascii.eqb c "b" || Ascii.eqb c "f" || Ascii.eqb c "n"
  || Ascii.eqb c "r" || Ascii.eqb c "t".

(** The scanner inside a string literal, after its opening quote: the raw
    text up to the closing quote, and what follows it.  Control characters
    and unknown escapes are syntax errors. *)
Fixpoint scanString (s : string) : option (string * string) :=
  match s with
  | EmptyString => None
  | String c r =>
      if Ascii.eqb c dquote then Some (EmptyString, r)
      else if Ascii.eqb c backslash then
        match r with
        | String e r1 =>
            if isSimpleEscape e then
              match scanString r1 with
              | Some (raw, rest) => Some (String c (String e raw), rest)
              | None => None
              end
            else if Ascii.eqb e "u" then
              match r1 with
              | String h1 (String h2 (String h3 (String h4 r2))) =>
                  if isHex h1 && isHex h2 && isHex h3 && isHex h4 then
                    match scanString r2 with
                    | Some (raw, rest) =>
                        Some (String c (String e (String h1 (String h2
                                (String h3 (String h4 raw))))), rest)
                    | None => None
                    end
                  else None
              | _ => None
              end
            else None
        | EmptyString => None
        end
      else if code c <? 32 then None
      else
        match scanString r with
        | Some (raw, rest) => Some (String c raw, rest)
        | None => None
        end
  end.

Definition unescape (e : ascii) : ascii :=
  if Ascii.eqb e "b" then chr 8
  else if Ascii.eqb e "f" then chr 12
  else if Ascii.eqb e "n" then chr 10
  else if Ascii.eqb e "r" then chr 13
  else if Ascii.eqb e "t" then chr 9
  else e.

Definition getu4 (h1 h2 h3 h4 : ascii) : Z :=
  ((hexVal h1 * 16 + hexVal h2) * 16 + hexVal h3) * 16 + hexVal h4.

(** [utf16.DecodeRune] on a high and a low surrogate. *)
Definition decodeSurrogates (r1 r2 : Z) : option Z :=
  if (0xD800 <=? r1) && (r1 <? 0xDC00) && (0xDC00 <=? r2) && (r2 <? 0xE000)
  then Some ((r1 - 0xD800) * 1024 + (r2 - 0xDC00) + 0x10000)
  else None.

Definition isSurrogate (r : Z) : bool := (0xD800 <=? r) && (r <? 0xE000).

(** [unquote] on the raw text of a scanned string literal: escapes are
    replaced, ill-formed UTF-8 is coerced to U+FFFD.  [skip] counts the
    bytes of a well-formed multi-byte rune still to be copied. *)
Fixpoint unquote (skip : nat) (s : string) : string :=
  match s with
  | EmptyString => EmptyString
  | String c r =>
      match skip with
      | S k => String c (unquote k r)
      | O =>
          if Ascii.eqb c backslash then
            match r with
            | String e r1 =>
                if Ascii.eqb e "u" then
                  match r1 with
                  | String h1 (String h2 (String h3 (String h4 r2))) =>
                      let rr := getu4 h1 h2 h3 h4 in
                      if isSurrogate rr then
                        match r2 with
                        | String b' (String u' (String k1 (String k2
                            (String k3 (String k4 r3))))) =>
                            match (if Ascii.eqb b' backslash && Ascii.eqb u' "u"
                                   then decodeSurrogates rr (getu4 k1 k2 k3 k4)
                                   else None) with
                            | Some dec => utf8.EncodeRune dec +:+ unquote 0 r3
                            | None =>
                                utf8.EncodeRune utf8.RuneError +:+ unquote 0 r2
                            end
                        | _ => utf8.EncodeRune utf8.RuneError +:+ unquote 0 r2
                        end
                      else utf8.EncodeRune rr +:+ unquote 0 r2
                  | _ => EmptyString
                  end
                else String (unescape e) (unquote 0 r1)
            | EmptyString => EmptyString
            end
          else if code c <? 128 then String c (unquote 0 r)
          else
            match utf8.runeLen (String c r) with
            | O => utf8.EncodeRune utf8.RuneError +:+ unquote 0 r
            | S k => String c (unquote k r)
            end
      end
  end.

(** A JSON text as the scanner delimits it.  String literals and numbers
    keep their raw text: [Time.UnmarshalJSON] reads the raw bytes. *)
#[local] Unset Elimination Schemes.
Inductive value :=
| Null
| Bool (b : bool)
| Number (raw : string)
| Str (raw : string)
| Array (elems : list value)
| Object (members : list (string * value)).
#[local] Set Elimination Schemes.

Fixpoint scanDigits (s : string) : string :=
  match s with
  | String c r => if isDigit c then scanDigits r else s
  | EmptyString => EmptyString
  end.

(** The rest of the input after a number that starts it, if one does:
    an optional minus, [0] or a nonzero digit and digits, an optional
    fraction and an optional exponent. *)
Definition scanNumber (s : string) : option string :=
  let s1 := match s with String "-" r => r | _ => s end in
  match (match s1 with
         | String "0" r => Some r
         | String c r => if isDigit c then Some (scanDigits r) else None
         | EmptyString => None
         end) with
  | None => None
  | Some s2 =>
      match (match s2 with
             | String "." (String d r) =>
                 if isDigit d then Some (scanDigits r) else None
             | String "." EmptyString => None
             | _ => Some s2
             end) with
      | None => None
      | Some s3 =>
          match s3 with
          | String e r =>
              if Ascii.eqb e "e" || Ascii.eqb e "E" then
                let r1 := match r with
                          | String "+" r' => r'
                          | String "-" r' => r'
                          | _ => r
                          end in
                match r1 with
                | String d r2 => if isDigit d then Some (scanDigits r2) else None
                | EmptyString => None
                end
              else Some s3
          | EmptyString => Some s3
          end
      end
  end.

(** The input after the text [p] that starts it. *)
Fixpoint stripPrefix (p s : string) : option string :=
  match p with
  | EmptyString => Some s
  | String a p' =>
      match s with
      | String b s' => if Ascii.eqb a b then stripPrefix p' s' else None
      | EmptyString => None
      end
  end.

(** The scanner refuses a text whose arrays and objects are nested deeper
    than this. *)
Definition maxNestingDepth : Z := 10000.

(** The value that starts the input, and the rest of the input.  [fuel]
    bounds the number of values, members and elements read; [depth] is
    the number of arrays and objects that are open. *)
Fixpoint parseValue (fuel : nat) (depth : Z) (s : string)
  : option (value * string) :=
  match fuel with
  | O => None
  | S fuel =>
      match s with
      | EmptyString => None
      | String c r =>
          if Ascii.eqb c dquote then
            match scanString r with
            | Some (raw, rest) => Some (Str raw, rest)
            | None => None
            end
          else if Ascii.eqb c "{" then
            if maxNestingDepth <? depth + 1 then None
            else
              match skipSpace r with
              | String "}" rest => Some (Object [], rest)
              | r1 =>
                  match parseMembers fuel (depth + 1) r1 with
                  | Some (ms, rest) => Some (Object ms, rest)
                  | None => None
                  end
              end
          else if Ascii.eqb c "[" then
            if maxNestingDepth <? depth + 1 then None
            else
              match skipSpace r with
              | String "]" rest => Some (Array [], rest)
              | r1 =>
                  match parseElements fuel (depth + 1) r1 with
                  | Some (vs, rest) => Some (Array vs, rest)
                  | None => None
                  end
              end
          else if Ascii.eqb c "t" then
            match stripPrefix "rue" r with
            | Some rest => Some (Bool true, rest)
            | None => None
            end
          else if Ascii.eqb c "f" then
            match stripPrefix "alse" r with
            | Some rest => Some (Bool false, rest)
            | None => None
            end
          else if Ascii.eqb c "n" then
            match stripPrefix "ull" r with
            | Some rest => Some (Null, rest)
            | None => None
            end
          else
            match scanNumber s with
            | Some rest =>
                Some (Number (String.substring 0
                                (String.length s - String.length rest) s), rest)
            | None => None
            end
      end
  end
with parseMembers (fuel : nat) (depth : Z) (s : string)
  : option (list (string * value) * string) :=
  match fuel with
  | O => None
  | S fuel =>
      match s with
      | String c r =>
          if Ascii.eqb c dquote then
            match scanString r with
            | Some (key, r1) =>
                match skipSpace r1 with
                | String ":" r2 =>
                    match parseValue fuel depth (skipSpace r2) with
                    | Some (v, r3) =>
                        match skipSpace r3 with
                        | String "}" rest => Some ([(key, v)], rest)
                        | String "," r4 =>
                            match parseMembers fuel depth (skipSpace r4) with
                            | Some (ms, rest) => Some ((key, v) :: ms, rest)
                            | None => None
                            end
                        | _ => None
                        end
                    | None => None
                    end
                | _ => None
                end
            | None => None
            end
          else None
      | EmptyString => None
      end
  end
with parseElements (fuel : nat) (depth : Z) (s : string)
  : option (list value * string) :=
  match fuel with
  | O => None
  | S fuel =>
      match parseValue fuel depth s with
      | Some (v, r1) =>
          match skipSpace r1 with
          | String "]" rest => Some ([v], rest)
          | String "," r2 =>
              match parseElements fuel depth (skipSpace r2) with
              | Some (vs, rest) => Some (v :: vs, rest)
              | None => None
              end
          | _ => None
          end
      | None => None
      end
  end.

(** [checkValid] and the scanner: one value between optional white
    space.  The fuel is enough for every text ([parse_fuel_enough]). *)
Definition parse (data : string) : option value :=
  match parseValue (S (String.length data)) 0 (skipSpace data) with
  | Some (v, rest) =>
      match skipSpace rest with
      | EmptyString => Some v
      | _ => None
      end
  | None => None
  end.

(** [foldName]: ASCII letters in upper case; the two runes outside ASCII
    whose simple case folding reaches an ASCII letter are the long s
    (U+017F, [C5 BF]) and the Kelvin sign (U+212A, [E2 84 AA]). *)
Fixpoint foldName (s : string) : string :=
  match s with
  | EmptyString => EmptyString
  | String c r =>
      if utf8.between c 97 122 then String (chr (code c - 32)) (foldName r)
      else
        match r with
        | String c1 r1 =>
            if (code c =? 0xC5) && (code c1 =? 0xBF) then String "S" (foldName r1)
            else
              match r1 with
              | String c2 r2 =>
                  if (code c =? 0xE2) && (code c1 =? 0x84) && (code c2 =? 0xAA)
                  then String "K" (foldName r2)
                  else String c (foldName r)
              | EmptyString => String c (foldName r)
              end
        | EmptyString => String c EmptyString
        end
  end.

Inductive field := fieldTS | fieldValue.

(** The field of [state] a member name selects: the exact name or a name
    that folds to the same text. *)
Definition fieldByName (key : string) : option field :=
  if String.eqb (foldName key) "TS" then Some fieldTS
  else if String.eqb (foldName key) "VALUE" then Some fieldValue
  else None.

(** [Time.UnmarshalJSON] on the raw text of a member's value. *)
Definition unmarshalTime (v : value) (old : time.Time) : option time.Time :=
  match v with
  | Null => Some old
  | Str raw => time.parseStrictRFC3339 raw
  | _ => None
  end.

(** Storing into the [string] field: [null] leaves it, any other value
    that is not a string is an [UnmarshalTypeError]. *)
Definition unmarshalString (v : value) (old : string) : option string :=
  match v with
  | Null => Some old
  | Str raw => Some (unquote 0 raw)
  | _ => None
  end.

Fixpoint decodeMembers (ms : list (string * value)) (st : state) : option state :=
  match ms with
  | [] => Some st
  | (key, v) :: ms' =>
      match fieldByName (unquote 0 key) with
      | Some fieldTS =>
          match unmarshalTime v (TS st) with
          | Some t => decodeMembers ms' {| TS := t; Value := Value st |}
          | None => None
          end
      | Some fieldValue =>
          match unmarshalString v (Value st) with
          | Some x => decodeMembers ms' {| TS := TS st; Value := x |}
          | None => None
          end
      | None => decodeMembers ms' st
      end
  end.

(** [json.Unmarshal(data, &remoteState)] on a zero [remoteState]: the
    decoded [state], or [None] for the error it returns. *)
Definition Unmarshal (data : string) : option state :=
  match parse data with
  | Some Null => Some zeroState
  | Some (Object ms) => decodeMembers ms zeroState
  | _ => None
  end.

End json.

(** ** [float32] arithmetic and the [%.0f] verb

    The values that occur in the score are not negative and far from the
    ends of the exponent range: a finite [float32] is modelled by a pair
    [m * 2^e], every operation rounds its exact result to a 24-bit
    significand, to nearest and ties to even. *)

Module float32.

Inductive t := Finite (m e : Z) | Inf | NaN.

(** The [float32] nearest to [num / den], for [0 <= num] and [0 < den]. *)
Definition round (num den : Z) : t :=
  if num =? 0 then Finite 0 0
  else
    let e0 := Z.log2 num - Z.log2 den in
    let e := if num * 2 ^ Z.max 0 (- e0) <? den * 2 ^ Z.max 0 e0
             then e0 - 1 else e0 in
    let k := 23 - e in
    let n := num * 2 ^ Z.max 0 k in
    let d := den * 2 ^ Z.max 0 (- k) in
    let q := n / d in
    let r := n mod d in
    let m := if 2 * r <? d then q
             else if d <? 2 * r then q + 1
             else if Z.even q then q else q + 1 in
    Finite m (e - 23).

(** The conversion [float32(n)] of an [int] that is not negative. *)
Definition ofInt (n : Z) : t := round n 1.

Definition div (x y : t) : t :=
  match x, y with
  | Finite m1 e1, Finite m2 e2 =>
      if m2 =? 0 then (if m1 =? 0 then NaN else Inf)
      else round (m1 * 2 ^ Z.max 0 (e1 - e2)) (m2 * 2 ^ Z.max 0 (e2 - e1))
  | Finite _ _, Inf => Finite 0 0
  | Inf, Finite _ _ => Inf
  | _, _ => NaN
  end.

Definition mul (x y : t) : t :=
  match x, y with
  | Finite m1 e1, Finite m2 e2 =>
      round (m1 * m2 * 2 ^ Z.max 0 (e1 + e2)) (2 ^ Z.max 0 (- (e1 + e2)))
  | Finite m _, Inf | Inf, Finite m _ => if m =? 0 then NaN else Inf
  | Inf, Inf => Inf
  | _, _ => NaN
  end.

(** The integer nearest to [m * 2^e], ties to even: the digits [%.0f]
    prints. *)
Definition roundToInt (m e : Z) : Z :=
  if 0 <=? e then m * 2 ^ e
  else
    let d := 2 ^ (- e) in
    let q := m / d in
    let r := m mod d in
    if 2 * r <? d then q
    else if d <? 2 * r then q + 1
    else if Z.even q then q else q + 1.

(** [fmt.Sprintf("%.0f", x)]. *)
Definition format0 (x : t) : string :=
  match x with
  | Finite m e => NilZero.string_of_int (Z.to_int (roundToInt m e))
  | Inf => "+Inf"
  | NaN => "NaN"
  end.

End float32.

(** ** Package [memberlist]: [TransmitLimitedQueue]

    The queue is written over any type [B] of broadcasts with the two
    methods of the [Broadcast] interface that compute something
    ([Finished] returns nothing, and [StateChange.Finished] does nothing).
    The broadcasts are neither [NamedBroadcast] nor [UniqueBroadcast].
    The b-tree [tq] is modelled by the list of its items, in no
    particular order: the tree holds at most one item with given
    transmits, length and id, and every operation reads it through the
    order [Less].  The byte budget of [GetBroadcasts] is computed in
    [int], which has 64 bits and wraps around; the counts of transmits
    stay far from the ends of [int] and are not wrapped. *)

Module memberlist.

Class Broadcast (B : Type) := {
  Invalidates : B -> B -> bool;
  Message : B -> string
}.

Definition MaxInt64 : Z := 2 ^ 63 - 1.

(** The value of an [int] expression whose exact value is [x]. *)
Definition wrap (x : Z) : Z := (x + 2 ^ 63) mod 2 ^ 64 - 2 ^ 63.

Section TransmitLimitedQueue.

Context {B : Type} `{Broadcast B}.

Record limitedBroadcast := mkLimited {
  transmits : Z;  (* number of transmissions attempted *)
  msgLen : Z;     (* len(b.Message()) at submission *)
  id : Z;         (* unique incrementing id stamped at submission *)
  b : B
}.

(** The items of the b-tree [tq], and the id counter. *)
Record TransmitLimitedQueue := mkQueue {
  tq : list limitedBroadcast;
  idGen : Z
}.

(** The order of the b-tree: fewer transmits first, then longer messages,
    then younger items. *)
Definition Less (x o : limitedBroadcast) : bool :=
  if transmits x <? transmits o then true
  else if transmits o <? transmits x then false
  else if msgLen o <? msgLen x then true
  else if msgLen x <? msgLen o then false
  else id o <? id x.

(** Two items that the tree takes for the same: neither is [Less] than
    the other. *)
Definition same (x o : limitedBroadcast) : bool :=
  negb (Less x o) && negb (Less o x).

(** [deleteItem]: [tq.Delete] removes the item of the tree that is the
    same as [cur]; the id counter starts again when the tree is empty. *)
Definition deleteItem (cur : limitedBroadcast) (q : TransmitLimitedQueue)
  : TransmitLimitedQueue :=
  let items := filter (fun x => same cur x = false) (tq q) in
  {| tq := items;
     idGen := match items with [] => 0 | _ :: _ => idGen q end |}.

(** [addItem]: [tq.ReplaceOrInsert] puts [cur] in the place of the item
    that is the same, if there is one. *)
Definition addItem (cur : limitedBroadcast) (q : TransmitLimitedQueue)
  : TransmitLimitedQueue :=
  {| tq := filter (fun x => same cur x = false) (tq q) ++ [cur];
     idGen := idGen q |}.

(** [QueueBroadcast]: the new item takes the next id, the items that the
    new broadcast invalidates are deleted one by one, then the new item
    is added with no transmits. *)
Definition QueueBroadcast (bc : B) (q : TransmitLimitedQueue)
  : TransmitLimitedQueue :=
  let id' := if idGen q =? MaxInt64 then 1 else idGen q + 1 in
  let lb := {| transmits := 0; msgLen := len (Message bc); id := id'; b := bc |} in
  let remove := filter (fun cur => Invalidates bc (b cur) = true) (tq q) in
  addItem lb
    (fold_left (fun acc cur => deleteItem cur acc) remove
       {| tq := tq q; idGen := id' |}).

(** [getTransmitRange]: the least and the greatest number of transmits in
    the tree, [(0, 0)] for an empty tree. *)
Definition getTransmitRange (items : list limitedBroadcast) : Z * Z :=
  match items with
  | [] => (0, 0)
  | x :: r =>
      (fold_right Z.min (transmits x) (map transmits r),
       fold_right Z.max (transmits x) (map transmits r))
  end.

(** The least item of a list in the order [Less]. *)
Fixpoint least (items : list limitedBroadcast) : option limitedBroadcast :=
  match items with
  | [] => None
  | x :: r =>
      match least r with
      | Some y => if Less y x then Some y else Some x
      | None => Some x
      end
  end.

(** The item [AscendRange] stops at: the least item of the tier whose
    recorded length, and whose message, fit into [free] bytes. *)
Definition pick (tier free : Z) (items : list limitedBroadcast)
  : option limitedBroadcast :=
  least (filter (fun x => (transmits x =? tier)
                          && (msgLen x <=? free)
                          && (len (Message (b x)) <=? free)) items).

(** The loop of [GetBroadcasts] over the tiers: what is left of the queue,
    the items sent in order, and the items to reinsert.  Each round either
    removes an item or moves to the next tier, which bounds the rounds.
    The count of bytes is an [int]. *)
Fixpoint drain (rounds : nat) (overhead limit transmitLimit : Z)
    (tier maxTr : Z) (q : TransmitLimitedQueue) (bytesUsed : Z)
    (toSend reinsert : list limitedBroadcast)
  : TransmitLimitedQueue * list limitedBroadcast * list limitedBroadcast :=
  match rounds with
  | O => (q, toSend, reinsert)
  | S rounds =>
      if maxTr <? tier then (q, toSend, reinsert)
      else
        let free := wrap (limit - bytesUsed - overhead) in
        if free <=? 0 then (q, toSend, reinsert)
        else
          match pick tier free (tq q) with
          | None =>
              drain rounds overhead limit transmitLimit (tier + 1) maxTr
                q bytesUsed toSend reinsert
          | Some keep =>
              let msg := Message (b keep) in
              drain rounds overhead limit transmitLimit tier maxTr
                (deleteItem keep q) (wrap (bytesUsed + overhead + len msg))
                (toSend ++ [keep])
                (if transmitLimit <=? transmits keep + 1 then reinsert
                 else reinsert ++ [{| transmits := transmits keep + 1;
                                      msgLen := msgLen keep;
                                      id := id keep; b := b keep |}])
          end
  end.

Definition drainRounds (items : list limitedBroadcast) : nat :=
  let '(minTr, maxTr) := getTransmitRange items in
  (length items + Z.to_nat (maxTr - minTr + 1))%nat.

(** The items [GetBroadcasts] sends, and the queue it leaves: nothing
    happens to an empty queue; else the loop runs and the items to
    reinsert are added.  [transmitLimit] is the value of
    [retransmitLimit(q.RetransmitMult, q.NumNodes())] at the call. *)
Definition selectBroadcasts (overhead limit transmitLimit : Z)
    (q : TransmitLimitedQueue)
  : list limitedBroadcast * TransmitLimitedQueue :=
  match tq q with
  | [] => ([], q)
  | _ :: _ =>
      let '(minTr, maxTr) := getTransmitRange (tq q) in
      let '(q', toSend, reinsert) :=
        drain (drainRounds (tq q)) overhead limit transmitLimit minTr maxTr
          q 0 [] [] in
      (toSend, fold_left (fun acc cur => addItem cur acc) reinsert q')
  end.

Definition GetBroadcasts (overhead limit transmitLimit : Z)
    (q : TransmitLimitedQueue) : list string * TransmitLimitedQueue :=
  let '(sent, q') := selectBroadcasts overhead limit transmitLimit q in
  (map (fun x => Message (b x)) sent, q').

End TransmitLimitedQueue.

Arguments limitedBroadcast B : clear implicits.
Arguments TransmitLimitedQueue B : clear implicits.

End memberlist.

(** ** [main.go]

    The [state] struct is declared above, before the codec that reads and
    writes it. *)

Definition desiredServers : Z := 20.

Definition colors : list string :=
  ["red"; "orange"; "yellow"; "green"; "blue"; "indigo"; "violet"].

(** [func nextState() state], for the instant [now] that [time.Now]
    returns and the index [n] that [rand.Intn(len(colors))] returns. *)
Definition nextState (now : time.Time) (n : nat) : state :=
  {| TS := now; Value := nth n colors "" |}.

(** [type StateChange struct { state }] *)
Record StateChange := mkStateChange { embedded : state }.

(** The values of the interface [memberlist.Broadcast]: a [StateChange], or
    a broadcast of another type, of which only the payload is kept. *)
Inductive anyBroadcast :=
| isStateChange (s : StateChange)
| otherBroadcast (payload : string).

(** [func (s StateChange) Invalidates(b memberlist.Broadcast) bool] *)
Definition Invalidates (s : StateChange) (b : anyBroadcast) : bool :=
  match b with
  | isStateChange o => time.After (TS (embedded s)) (TS (embedded o))
  | otherBroadcast _ => false
  end.

(** [func (s StateChange) Message() []byte]; the error of [json.Marshal]
    is dropped, and the buffer is [nil] with it. *)
Definition Message (s : StateChange) : string :=
  match json.Marshal (embedded s) with
  | Some buf => buf
  | None => ""
  end.

(** [func (s StateChange) Finished()] *)
Definition Finished (s : StateChange) : unit := tt.

#[global] Instance anyBroadcast_Broadcast
  : memberlist.Broadcast anyBroadcast := {|
  memberlist.Invalidates x y :=
    match x with
    | isStateChange s => Invalidates s y
    | otherBroadcast _ => false
    end;
  memberlist.Message x :=
    match x with
    | isStateChange s => Message s
    | otherBroadcast payload => payload
    end
|}.

(** [type server struct], from the assignment of [s.queue] in [start] on:
    [queue] is set.  [updates] counts the values the server has sent on
    the channel; the logger writes to [io.Discard], and the membership
    list is read only through the transmit limit passed to
    [GetBroadcasts]. *)
Record server := mkServer {
  updates : nat;
  queue : memberlist.TransmitLimitedQueue anyBroadcast;
  srv_state : state;
  name : string;
  port : Z
}.

(** How a call on a server ends: it returns, or [logger.Fatal] exits the
    process ([os.Exit(1)]) with the server as it was then. *)
Inductive outcome :=
| Returned (s : server)
| Exited (s : server).

Definition defaultPort : Z := 7946.

(** [type server struct] as [newServer] leaves it: [list] and [queue] are
    nil, and no method that reads them can run yet. *)
Record created := mkCreated {
  created_state : state;
  created_name : string;
  created_port : Z
}.

(** [func newServer(updates chan<- struct{}) *server]: [numServers] is the
    value of the package counter at the call and [initial] the [state]
    that [nextState] returned. *)
Definition newServer (numServers : Z) (initial : state) : created :=
  {| created_state := initial;
     created_name :=
       "[ s" +:+ NilZero.string_of_int (Z.to_int numServers) +:+ " ] ";
     created_port := defaultPort + numServers |}.

(** The queue that [start] installs. *)
Definition emptyQueue : memberlist.TransmitLimitedQueue anyBroadcast :=
  {| memberlist.tq := []; memberlist.idGen := 0 |}.

(** [start], at the assignment of [s.queue], for a server on which no
    method has run: the queue is empty and nothing was sent on [updates].
    What [start] does next, the call of [Join], makes the membership list
    call [LocalState] and [MergeRemoteState] before [start] returns; these
    calls, as all later ones, are calls of a run ([run] below). *)
Definition started (c : created) : server :=
  {| updates := 0;
     queue := emptyQueue;
     srv_state := created_state c;
     name := created_name c;
     port := created_port c |}.

(** [func (s *server) processStateChange(newState state)] *)
Definition processStateChange (newState : state) (s : server) : server :=
  if time.Before (TS newState) (TS (srv_state s)) then s
  else
    {| updates := S (updates s);
       queue := memberlist.QueueBroadcast
                  (isStateChange {| embedded := newState |}) (queue s);
       srv_state := newState;
       name := name s;
       port := port s |}.

(** [func (s *server) mutate()], with the arguments of [nextState]. *)
Definition mutate (now : time.Time) (n : nat) (s : server) : server :=
  processStateChange (nextState now n) s.

(** [func (s *server) NodeMeta(limit int) []byte] *)
Definition NodeMeta (limit : Z) (s : server) : string := "".

(** [func (s *server) NotifyMsg(buf []byte)] *)
Definition NotifyMsg (buf : string) (s : server) : outcome :=
  match json.Unmarshal buf with
  | None => Exited s
  | Some remoteState => Returned (processStateChange remoteState s)
  end.

(** [func (s *server) GetBroadcasts(overhead, limit int) [][]byte] *)
Definition GetBroadcasts (overhead limit transmitLimit : Z) (s : server)
  : list string * server :=
  let '(msgs, q) :=
    memberlist.GetBroadcasts overhead limit transmitLimit (queue s) in
  (msgs, {| updates := updates s; queue := q; srv_state := srv_state s;
            name := name s; port := port s |}).

(** [func (s *server) LocalState(join bool) []byte] *)
Definition LocalState (join : bool) (s : server) : string :=
  match json.Marshal (srv_state s) with
  | Some buf => buf
  | None => ""
  end.

(** [func (s *server) MergeRemoteState(buf []byte, join bool)] *)
Definition MergeRemoteState (buf : string) (join : bool) (s : server)
  : outcome :=
  match json.Unmarshal buf with
  | None => Exited s
  | Some remoteState => Returned (processStateChange remoteState s)
  end.

(** One iteration of [for _, s := range servers] in the reporting loop of
    [main]: the newest record so far, and the count of each value. *)
Definition scanStep (acc : state * gmap string Z) (s : server)
  : state * gmap string Z :=
  let '(newest, counts) := acc in
  (if time.After (TS (srv_state s)) (TS newest) then srv_state s else newest,
   <[Value (srv_state s) := default 0 (counts !! Value (srv_state s)) + 1]>
     counts).

(** The body of the reporting loop of [main], for one value received from
    [updates]: [newest] and [counts] after the inner loop. *)
Definition scan (servers : list server) : state * gmap string Z :=
  fold_left scanStep servers (zeroState, ∅).

(** [100 * (float32(counts[newest.Value]) / float32(len(servers)))] *)
Definition scoreOf (servers : list server) : float32.t :=
  let '(newest, counts) := scan servers in
  float32.mul (float32.ofInt 100)
    (float32.div (float32.ofInt (default 0 (counts !! Value newest)))
                 (float32.ofInt (Z.of_nat (length servers)))).

(** The three values that the line of the report prints: the score under
    [%.0f], the expected value and the counts. *)
Record report := mkReport {
  score : string;
  expect : string;
  histogram : gmap string Z
}.

Definition reportOf (servers : list server) : report :=
  let '(newest, counts) := scan servers in
  {| score := float32.format0 (scoreOf servers);
     expect := Value newest;
     histogram := counts |}.

(** ** The conflict rule and runs of a server *)

(** The rule of [processStateChange] as a function of the held and the
    incoming record: the incoming record is taken unless it is strictly
    older. *)
Definition accept (current incoming : state) : bool :=
  negb (time.Before (TS incoming) (TS current)).

(** The records delivered one after the other to [processStateChange]. *)
Definition deliver (rs : list state) (s : server) : server :=
  fold_left (fun s r => processStateChange r s) rs s.

(** The calls the group communication service and the mutator make on a
    server. *)
Inductive event :=
| callNotifyMsg (buf : string)
| callMergeRemoteState (buf : string) (join : bool)
| callMutate (now : time.Time) (n : nat)
| callGetBroadcasts (overhead limit transmitLimit : Z)
| callLocalState (join : bool).

(** A run of calls: the items that each [GetBroadcasts] sent, in order,
    and how the run ends.  Nothing runs after [logger.Fatal]. *)
Fixpoint run (evs : list event) (s : server)
  : list (list (memberlist.limitedBroadcast anyBroadcast)) * outcome :=
  match evs with
  | [] => ([], Returned s)
  | ev :: evs' =>
      match ev with
      | callNotifyMsg buf =>
          match NotifyMsg buf s with
          | Returned s' => run evs' s'
          | Exited s' => ([], Exited s')
          end
      | callMergeRemoteState buf join =>
          match MergeRemoteState buf join s with
          | Returned s' => run evs' s'
          | Exited s' => ([], Exited s')
          end
      | callMutate now n => run evs' (mutate now n s)
      | callGetBroadcasts overhead limit transmitLimit =>
          let sent := fst (memberlist.selectBroadcasts overhead limit
                             transmitLimit (queue s)) in
          let '(drains, out) :=
            run evs' (snd (GetBroadcasts overhead limit transmitLimit s)) in
          (sent :: drains, out)
      | callLocalState _ => run evs' s
      end
  end.

(** The server a run ends with. *)
Definition finalServer (o : outcome) : server :=
  match o with
  | Returned s => s
  | Exited s => s
  end.

(** In a list of calls, every [MergeRemoteState] replaced by the
    [NotifyMsg] of the same buffer. *)
Definition asNotifyMsg (ev : event) : event :=
  match ev with
  | callMergeRemoteState buf _ => callNotifyMsg buf
  | _ => ev
  end.

(** The b-tree holds at most one item with given transmits, length and
    id: two items of the tree that it takes for the same are one item. *)
Definition uniqueKeys {B : Type}
    (items : list (memberlist.limitedBroadcast B)) : Prop :=
  forall x y, In x items -> In y items -> memberlist.same x y = true -> x = y.

(** A broadcast that the [StateChange] of [n] does not invalidate. *)
Definition survives (n : state) (bc : anyBroadcast) : Prop :=
  memberlist.Invalidates (isStateChange {| embedded := n |}) bc = false.

(** The held record is not older than [n], and the queue holds only
    broadcasts that the [StateChange] of [n] does not invalidate. *)
Definition settled (n : state) (s : server) : Prop :=
  time.abs_ns (TS n) <= time.abs_ns (TS (srv_state s))
  /\ Forall (fun x => survives n (memberlist.b x)) (memberlist.tq (queue s)).

(** The number of servers that hold the value [v]. *)
Definition countValue (v : string) (servers : list server) : Z :=
  Z.of_nat (length (filter (fun s => Value (srv_state s) = v) servers)).

(** A record with timestamp [t] nanoseconds after the zero [Time], in UTC. *)
Definition stateAt (t : Z) (v : string) : state :=
  {| TS := {| time.abs_ns := t; time.zone := 0 |}; Value := v |}.

(** The three servers of the score example. *)
Definition exampleServers : list server :=
  [started (newServer 0 (stateAt 5 "red")); started (newServer 1 (stateAt 5 "red"));
   started (newServer 2 (stateAt 3 "blue"))].

(** ** Well-formed records *)

(** The times that [appendStrictRFC3339] accepts, with a zone offset of
    whole minutes: the year in the zone of the time is in [0,9999] and the
    zone hour below 24. *)
Definition strictRFC3339 (t : time.Time) : bool :=
  let loc := time.abs_ns t + time.zone t * time.nsPerSec in
  (-366 * time.secPerDay * time.nsPerSec <=? loc)
  && (loc <? 3652059 * time.secPerDay * time.nsPerSec)
  && (Z.abs (Z.quot (time.zone t) 60) / 60 <? 24)
  && (time.zone t mod 60 =? 0).

(** The records that [json.Marshal] encodes without loss: such a time, and
    a value that is valid UTF-8. *)
Definition wellFormed (v : state) : bool :=
  strictRFC3339 (TS v) && utf8.ValidString (Value v).

(** The zone of every record decoded from [buf] is less than a day away
    from UTC.  [Time.UnmarshalJSON] also reads the zones [24:00] to
    [24:60] and [hh:60]; [Time.MarshalJSON] refuses the zone of 24 hours
    and more. *)
Definition zoneBelowDay (buf : string) : Prop :=
  forall r, json.Unmarshal buf = Some r -> Z.abs (time.zone (TS r)) < 86400.

(** A call that hands the server only well-formed records: a [mutate] has
    a clock that [appendStrictRFC3339] accepts, a received buffer decodes
    to a zone below a day. *)
Definition wellFormedCall (ev : event) : Prop :=
  match ev with
  | callMutate now _ => strictRFC3339 now = true
  | callNotifyMsg buf => zoneBelowDay buf
  | callMergeRemoteState buf _ => zoneBelowDay buf
  | _ => True
  end.

(** ** The wire text *)

(** The text of an object with two members whose values are strings. *)
Definition object2 (k1 raw1 k2 raw2 : string) : string :=
  "{" +:+ json.quoted k1 +:+ ":" +:+ json.quoted raw1 +:+ ","
  +:+ json.quoted k2 +:+ ":" +:+ json.quoted raw2 +:+ "}".

(** The scanner reads [raw] as the text of a string literal. *)
Definition scans (raw : string) : Prop :=
  forall rest,
    json.scanString (raw +:+ String json.dquote rest) = Some (raw, rest).

Fixpoint allDigits (s : string) : bool :=
  match s with
  | EmptyString => true
  | String c r => isDigit c && allDigits r
  end.

(** The number that a string of digits writes. *)
Fixpoint digitsVal (s : string) : Z :=
  match s with
  | EmptyString => 0
  | String c r => digitVal c * 10 ^ len r + digitsVal r
  end.

Definition startsDigit (s : string) : bool :=
  match s with
  | String c _ => isDigit c
  | EmptyString => false
  end.

(** The first [k] bytes exist and are continuation bytes. *)
Fixpoint contBytes (k : nat) (s : string) : bool :=
  match k with
  | O => true
  | S k' =>
      match s with
      | String c r => utf8.between c 0x80 0xBF && contBytes k' r
      | EmptyString => false
      end
  end.

(** What the encoder writes for an ASCII byte. *)
Definition asciiText (c : ascii) : string :=
  if json.htmlSafe c then String c "" else json.escapeByte c.

(** A byte that a string literal holds as it is. *)
Definition plainByte (c : ascii) : bool :=
  (32 <=? code c) && negb (Ascii.eqb c json.dquote)
  && negb (Ascii.eqb c json.backslash).

Fixpoint plainText (s : string) : bool :=
  match s with
  | EmptyString => true
  | String c r => plainByte c && plainText r
  end.

(** The raw text of a string literal that the scanner accepts: no quote,
    no control character, and only the escapes of JSON. *)
Fixpoint wellEscaped (s : string) : bool :=
  match s with
  | EmptyString => true
  | String c r =>
      if Ascii.eqb c json.dquote then false
      else if Ascii.eqb c json.backslash then
        match r with
        | String e r1 =>
            if json.isSimpleEscape e then wellEscaped r1
            else if Ascii.eqb e "u" then
              match r1 with
              | String h1 (String h2 (String h3 (String h4 r2))) =>
                  json.isHex h1 && json.isHex h2 && json.isHex h3
                  && json.isHex h4 && wellEscaped r2
              | _ => false
              end
            else false
        | EmptyString => false
        end
      else if code c <? 32 then false
      else wellEscaped r
  end.

(** A value that, when it is a string literal, has well-escaped text. *)
Definition strOK (v : json.value) : Prop :=
  match v with
  | json.Str raw => wellEscaped raw = true
  | _ => True
  end.

(** With [fuel] for its result, a parser returns the same result with any
    fuel that is at least the number of bytes it reads. *)
Definition enough {A : Type} (p : nat -> string -> option (A * string))
    (fuel : nat) : Prop :=
  forall s x rest, p fuel s = Some (x, rest) ->
    (String.length rest < String.length s)%nat
    /\ forall g, (String.length s - String.length rest <= g)%nat ->
         p g s = Some (x, rest).

(** ** The servers of [main] and the mutator; queues and reports *)

(** The loop of [main] that creates the servers, for the records that the
    calls of [nextState] return: each call of [newServer] reads the
    package counter, which starts at [numServers], and adds one to it. *)
Fixpoint newServers (numServers : Z) (initials : list state)
  : list created :=
  match initials with
  | [] => []
  | initial :: rest =>
      newServer numServers initial :: newServers (numServers + 1) rest
  end.

(** One tick of [func mutate(servers []*server)], once the call of
    [servers[i].mutate()] it starts has returned: [i] is the index that
    [rand.Intn(len(servers))] returned, [now] and [n] are the arguments of
    [nextState].  An index out of range panics. *)
Definition mutateServers (i : nat) (now : time.Time) (n : nat)
    (servers : list server) : option (list server) :=
  match servers !! i with
  | Some s => Some (<[i := mutate now n s]> servers)
  | None => None
  end.

(** The bytes that [GetBroadcasts] counts for a list of payloads: the
    overhead and the length of each. *)
Definition bytesOf (overhead : Z) (msgs : list string) : Z :=
  fold_right (fun m acc => overhead + len m + acc) 0 msgs.

(** What [GetBroadcasts] does with an item it has sent: the item is
    finished when it has reached the transmit limit, and goes back to the
    tree with one more transmit otherwise. *)
Definition resend {B : Type} (transmitLimit : Z)
    (x : memberlist.limitedBroadcast B)
  : option (memberlist.limitedBroadcast B) :=
  if transmitLimit <=? memberlist.transmits x + 1 then None
  else Some {| memberlist.transmits := memberlist.transmits x + 1;
               memberlist.msgLen := memberlist.msgLen x;
               memberlist.id := memberlist.id x;
               memberlist.b := memberlist.b x |}.

(** The items of [items] that the tree does not take for the same as an
    item of [gone]. *)
Definition without {B : Type} `{memberlist.Broadcast B}
    (gone items : list (memberlist.limitedBroadcast B))
  : list (memberlist.limitedBroadcast B) :=
  filter (fun x => existsb (fun y => memberlist.same y x) gone = false) items.

(** A broadcast of a record with the instant of the record the server
    holds. *)
Definition current (s : server) (bc : anyBroadcast) : Prop :=
  exists r, bc = isStateChange {| embedded := r |}
            /\ time.abs_ns (TS r) = time.abs_ns (TS (srv_state s)).

(** The queue holds only such broadcasts. *)
Definition coherent (s : server) : Prop :=
  Forall (fun x => current s (memberlist.b x)) (memberlist.tq (queue s)).

(** The sum of the counts of a histogram. *)
Definition total (counts : gmap string Z) : Z :=
  map_fold (fun _ n acc => n + acc) 0 counts.

(** The held record and every queued record are well-formed: what the
    server sends, a peer decodes. *)
Definition relayable (s : server) : Prop :=
  wellFormed (srv_state s) = true
  /\ Forall (fun x => exists r,
               memberlist.b x = isStateChange {| embedded := r |}
               /\ wellFormed r = true)
       (memberlist.tq (queue s)).

(** A payload as another encoder could write it: spaces, the members in
    the other order, names in lower case, a zone that is not UTC. *)
Definition looseExample : string :=
  " { " +:+ json.quoted "value" +:+ " : " +:+ json.quoted "a<b" +:+ " , "
  +:+ json.quoted "ts" +:+ " : "
  +:+ json.quoted "0001-01-01T01:00:01.5+01:00" +:+ " } ".

(** * Properties *)

(** ** Time *)

Lemma Before_lt (t u : time.Time) :
  time.Before t u = true <-> time.abs_ns t < time.abs_ns u.
Proof. unfold time.Before. apply Z.ltb_lt. Qed.

Lemma Before_irrefl (t : time.Time) : time.Before t t = false.
Proof. unfold time.Before. apply Z.ltb_irrefl. Qed.

Lemma After_Before (t u : time.Time) : time.After t u = time.Before u t.
Proof. reflexivity. Qed.

Lemma Before_false_ge (t u : time.Time) :
  time.Before t u = false <-> time.abs_ns u <= time.abs_ns t.
Proof. unfold time.Before. rewrite Z.ltb_ge. reflexivity. Qed.

(** ** [processStateChange] *)

Lemma processStateChange_accept (n : state) (s : server) :
  processStateChange n s =
  if accept (srv_state s) n then
    {| updates := S (updates s);
       queue := memberlist.QueueBroadcast (isStateChange {| embedded := n |})
                  (queue s);
       srv_state := n; name := name s; port := port s |}
  else s.
Proof.
  unfold processStateChange, accept.
  destruct (time.Before (TS n) (TS (srv_state s))); reflexivity.
Qed.

Lemma processStateChange_updates (n : state) (s : server) :
  updates (processStateChange n s) =
  if time.Before (TS n) (TS (srv_state s)) then updates s else S (updates s).
Proof.
  unfold processStateChange.
  destruct (time.Before (TS n) (TS (srv_state s))); reflexivity.
Qed.

(** C1.  [processStateChange] returns the server as it was exactly when
    the incoming timestamp is strictly before the held one; an incoming
    record that is not older replaces the held record, sends one value on
    [updates] and queues one [StateChange] of the new record. *)
Theorem processStateChange_rejects_exactly_older (incoming : state) (s : server) :
  (processStateChange incoming s = s
   <-> time.abs_ns (TS incoming) < time.abs_ns (TS (srv_state s)))
  /\ (time.abs_ns (TS (srv_state s)) <= time.abs_ns (TS incoming) ->
      srv_state (processStateChange incoming s) = incoming
      /\ updates (processStateChange incoming s) = S (updates s)
      /\ queue (processStateChange incoming s) =
         memberlist.QueueBroadcast
           (isStateChange {| embedded := incoming |}) (queue s)).
Proof.
  split.
  - rewrite <- Before_lt. split.
    + intros Heq.
      destruct (time.Before (TS incoming) (TS (srv_state s))) eqn:Hb; [done|].
      apply (f_equal updates) in Heq.
      rewrite processStateChange_updates, Hb in Heq. lia.
    + intros Hb. unfold processStateChange. by rewrite Hb.
  - rewrite <- Before_false_ge. intros Hb.
    unfold processStateChange. by rewrite Hb.
Qed.

(** C5.  A record strictly older than the held one changes nothing: the
    server after the call is the server before it, with the same record,
    the same queue and the same count of values sent on [updates]. *)
Theorem processStateChange_stale_no_effect (incoming : state) (s : server) :
  time.Before (TS incoming) (TS (srv_state s)) = true ->
  processStateChange incoming s = s.
Proof. intros Hb. unfold processStateChange. by rewrite Hb. Qed.

(** C6.  The rule of [processStateChange] is [accept]: the incoming
    record is taken exactly when [accept] holds of the held and the
    incoming record.  [accept] holds of a record against itself, so the
    held record, processed again, is taken: the server sends a value on
    [updates] and queues the [StateChange] of the record, and the held
    record, its value and its timestamp, is the same as before. *)
Theorem accept_refl_idempotent (s : server) :
  (forall incoming,
     processStateChange incoming s
     = if accept (srv_state s) incoming
       then {| updates := S (updates s);
               queue := memberlist.QueueBroadcast
                          (isStateChange {| embedded := incoming |}) (queue s);
               srv_state := incoming; name := name s; port := port s |}
       else s)
  /\ accept (srv_state s) (srv_state s) = true
  /\ processStateChange (srv_state s) s
     = {| updates := S (updates s);
          queue := memberlist.QueueBroadcast
                     (isStateChange {| embedded := srv_state s |}) (queue s);
          srv_state := srv_state s; name := name s; port := port s |}
  /\ srv_state (processStateChange (srv_state s) s) = srv_state s
  /\ Value (srv_state (processStateChange (srv_state s) s))
     = Value (srv_state s)
  /\ TS (srv_state (processStateChange (srv_state s) s)) = TS (srv_state s).
Proof.
  assert (Hrule : forall incoming,
            processStateChange incoming s
            = if accept (srv_state s) incoming
              then {| updates := S (updates s);
                      queue := memberlist.QueueBroadcast
                                 (isStateChange {| embedded := incoming |})
                                 (queue s);
                      srv_state := incoming; name := name s; port := port s |}
              else s).
  { intros incoming. apply processStateChange_accept. }
  assert (Hacc : accept (srv_state s) (srv_state s) = true).
  { unfold accept. by rewrite Before_irrefl. }
  split; [exact Hrule|]. split; [exact Hacc|].
  rewrite (Hrule (srv_state s)), Hacc. by repeat split.
Qed.

(** ** Monotonicity *)

Lemma processStateChange_state (n : state) (s : server) :
  srv_state (processStateChange n s) =
  if time.Before (TS n) (TS (srv_state s)) then srv_state s else n.
Proof.
  unfold processStateChange.
  destruct (time.Before (TS n) (TS (srv_state s))); reflexivity.
Qed.

Lemma processStateChange_mono (n : state) (s : server) :
  time.abs_ns (TS (srv_state s))
  <= time.abs_ns (TS (srv_state (processStateChange n s)))
  /\ time.abs_ns (TS n)
     <= time.abs_ns (TS (srv_state (processStateChange n s))).
Proof.
  rewrite processStateChange_state.
  destruct (time.Before (TS n) (TS (srv_state s))) eqn:Hb.
  - apply Before_lt in Hb. lia.
  - apply Before_false_ge in Hb. lia.
Qed.

Lemma deliver_max (rs : list state) :
  forall s : server,
    In (srv_state (deliver rs s)) (srv_state s :: rs)
    /\ forall r, In r (srv_state s :: rs) ->
         time.abs_ns (TS r) <= time.abs_ns (TS (srv_state (deliver rs s))).
Proof.
  induction rs as [|n rs IH]; intros s; simpl.
  - split; [by left|]. intros r [<-|[]]. lia.
  - destruct (IH (processStateChange n s)) as [Hin Hmax].
    pose proof (processStateChange_mono n s) as [Hs Hn].
    split.
    + destruct Hin as [Hin|Hin]; [|by right; right].
      rewrite <- Hin, processStateChange_state.
      destruct (time.Before _ _); [by left | by right; left].
    + intros r [<-|[<-|Hr]].
      * etrans; [exact Hs|]. apply Hmax. by left.
      * etrans; [exact Hn|]. apply Hmax. by left.
      * apply Hmax. by right.
Qed.

(** C2.  After any finite sequence of records delivered to
    [processStateChange], the held record is one of the records delivered
    or the record held at the start, and no such record has a timestamp
    after its timestamp. *)
Theorem deliver_holds_maximum (rs : list state) (s : server) :
  In (srv_state (deliver rs s)) (srv_state s :: rs)
  /\ forall r, In r (srv_state s :: rs) ->
       time.After (TS r) (TS (srv_state (deliver rs s))) = false.
Proof.
  destruct (deliver_max rs s) as [Hin Hmax]. split; [exact Hin|].
  intros r Hr. rewrite After_Before. apply Before_false_ge. by apply Hmax.
Qed.

(** ** [NotifyMsg] and [MergeRemoteState] *)

(** C8.  [MergeRemoteState] does to a server what [NotifyMsg] does, for
    every buffer and either value of [join]: the same outcome of the call,
    and the same run when every [MergeRemoteState] of a list of calls is
    replaced by the [NotifyMsg] of its buffer. *)
Theorem MergeRemoteState_as_NotifyMsg (buf : string) (join : bool) (s : server) :
  MergeRemoteState buf join s = NotifyMsg buf s
  /\ forall evs, run (map asNotifyMsg evs) s = run evs s.
Proof.
  split; [reflexivity|].
  intros evs. revert s.
  induction evs as [|ev evs IH]; intros s; [reflexivity|].
  destruct ev; simpl; rewrite ?IH; try reflexivity.
  - destruct (NotifyMsg buf0 s); [apply IH | reflexivity].
  - unfold MergeRemoteState, NotifyMsg.
    destruct (json.Unmarshal buf0); [apply IH | reflexivity].
Qed.

(** C3, as the code has it.  An undecodable buffer makes [NotifyMsg] call
    [logger.Fatal]: the process exits, and until then the server is as it
    was (the held record, the queue and the count of updates). *)
Theorem NotifyMsg_undecodable_exits (buf : string) (s : server) :
  json.Unmarshal buf = None -> NotifyMsg buf s = Exited s.
Proof. intros Hbad. unfold NotifyMsg. by rewrite Hbad. Qed.

Lemma NotifyMsg_undecodable_exits_witness :
  json.Unmarshal "{" = None
  /\ NotifyMsg "{" (started (newServer 0 (stateAt 10 "green")))
     = Exited (started (newServer 0 (stateAt 10 "green"))).
Proof.
  split; [reflexivity|].
  apply (NotifyMsg_undecodable_exits "{" (started (newServer 0 (stateAt 10 "green")))).
  reflexivity.
Defined.

(** C3, as stated, fails: on the undecodable buffer that holds only an
    opening brace, [NotifyMsg] does not return. *)
Lemma NotifyMsg_undecodable_does_not_return :
  json.Unmarshal "{" = None
  /\ ~ exists s', NotifyMsg "{" (started (newServer 0 (stateAt 10 "green"))) = Returned s'.
Proof.
  split; [reflexivity|].
  intros [s' Hs']. vm_compute in Hs'. discriminate Hs'.
Qed.

Lemma processStateChange_stale_no_effect_witness :
  processStateChange (stateAt 5 "blue") (started (newServer 0 (stateAt 10 "green")))
  = started (newServer 0 (stateAt 10 "green")).
Proof.
  apply (processStateChange_stale_no_effect (stateAt 5 "blue")
           (started (newServer 0 (stateAt 10 "green")))).
  reflexivity.
Defined.

(** ** [StateChange.Invalidates] *)

Lemma Invalidates_other (s : StateChange) (payload : string) :
  Invalidates s (otherBroadcast payload) = false.
Proof. reflexivity. Qed.

Lemma Invalidates_StateChange (s o : StateChange) :
  Invalidates s (isStateChange o) = true
  <-> time.abs_ns (TS (embedded o)) < time.abs_ns (TS (embedded s)).
Proof. simpl. rewrite After_Before. apply Before_lt. Qed.

Lemma Invalidates_equal (s o : StateChange) :
  time.Equal (TS (embedded o)) (TS (embedded s)) = true ->
  Invalidates s (isStateChange o) = false.
Proof.
  unfold time.Equal. intros He%Z.eqb_eq. simpl.
  rewrite After_Before. apply Before_false_ge. lia.
Qed.

(** ** The transmit-limited queue *)

Section QueueFacts.

Context {B : Type} `{memberlist.Broadcast B}.

Implicit Types (x y cur : memberlist.limitedBroadcast B).
Implicit Types (items : list (memberlist.limitedBroadcast B)).
Implicit Types (q : memberlist.TransmitLimitedQueue B).

Variable P : B -> Prop.

Let holds items := Forall (fun x => P (memberlist.b x)) items.

(** Two items are the same for the tree when they agree on transmits,
    length and id. *)
Lemma same_key x y :
  memberlist.same x y = true
  <-> memberlist.transmits x = memberlist.transmits y
      /\ memberlist.msgLen x = memberlist.msgLen y
      /\ memberlist.id x = memberlist.id y.
Proof.
  unfold memberlist.same, memberlist.Less.
  destruct (Z.ltb_spec (memberlist.transmits x) (memberlist.transmits y));
    destruct (Z.ltb_spec (memberlist.transmits y) (memberlist.transmits x));
    destruct (Z.ltb_spec (memberlist.msgLen x) (memberlist.msgLen y));
    destruct (Z.ltb_spec (memberlist.msgLen y) (memberlist.msgLen x));
    destruct (Z.ltb_spec (memberlist.id x) (memberlist.id y));
    destruct (Z.ltb_spec (memberlist.id y) (memberlist.id x));
    simpl; split; try done; try lia.
Qed.

Lemma same_refl x : memberlist.same x x = true.
Proof. by apply same_key. Qed.

Lemma same_sym x y : memberlist.same x y = memberlist.same y x.
Proof. unfold memberlist.same. apply andb_comm. Qed.

Lemma least_In items x : memberlist.least items = Some x -> In x items.
Proof.
  revert x. induction items as [|a items IH]; intros x; simpl; [done|].
  destruct (memberlist.least items) as [y|].
  - destruct (memberlist.Less y a); intros [= <-]; [right; by apply IH | by left].
  - intros [= <-]. by left.
Qed.

(** The item that [pick] keeps is in the tree, on the tier, and its
    message fits. *)
Lemma pick_fits tier free items x :
  memberlist.pick tier free items = Some x ->
  In x items /\ memberlist.transmits x = tier
  /\ len (memberlist.Message (memberlist.b x)) <= free.
Proof.
  unfold memberlist.pick. intros Hl%least_In.
  apply list_elem_of_In, list_elem_of_filter in Hl as [Hok Hin].
  apply Is_true_true in Hok.
  apply andb_true_iff in Hok as [Hok Hlen].
  apply andb_true_iff in Hok as [Htier _].
  split; [by apply list_elem_of_In|]. split; lia.
Qed.

Lemma pick_In tier free items x :
  memberlist.pick tier free items = Some x -> In x items.
Proof. intros Hp. by apply pick_fits in Hp as [Hin _]. Qed.

(** *** Deleting and adding *)

Lemma deleteItem_In cur q x :
  In x (memberlist.tq (memberlist.deleteItem cur q))
  <-> In x (memberlist.tq q) /\ memberlist.same cur x = false.
Proof.
  unfold memberlist.deleteItem. cbn [memberlist.tq].
  rewrite <- !list_elem_of_In, list_elem_of_filter. tauto.
Qed.

Lemma addItem_In cur q x :
  In x (memberlist.tq (memberlist.addItem cur q))
  <-> (In x (memberlist.tq q) /\ memberlist.same cur x = false) \/ x = cur.
Proof.
  unfold memberlist.addItem. cbn [memberlist.tq].
  rewrite in_app_iff. simpl.
  rewrite <- !list_elem_of_In, list_elem_of_filter. intuition congruence.
Qed.

Lemma deleteItems_In (remove : list (memberlist.limitedBroadcast B)) :
  forall q x,
    In x (memberlist.tq (fold_left (fun acc cur => memberlist.deleteItem cur acc)
                           remove q))
    <-> In x (memberlist.tq q)
        /\ Forall (fun cur => memberlist.same cur x = false) remove.
Proof.
  induction remove as [|cur remove IH]; intros q x; simpl.
  - split; [intros Hx; split; [done | constructor] | by intros [Hx _]].
  - rewrite IH, deleteItem_In. split.
    + intros [[Hx Hc] Hr]. split; [done|]. by constructor.
    + intros [Hx Hr]. apply Forall_cons in Hr as [Hc Hr]. by repeat split.
Qed.

Lemma addItems_In (extra : list (memberlist.limitedBroadcast B)) :
  forall q x,
    In x (memberlist.tq (fold_left (fun acc cur => memberlist.addItem cur acc)
                           extra q)) ->
    In x (memberlist.tq q) \/ In x extra.
Proof.
  induction extra as [|cur extra IH]; intros q x; simpl; [by left|].
  intros Hx%IH. rewrite addItem_In in Hx.
  destruct Hx as [[[Hx _]| ->]|Hx]; auto.
Qed.

Lemma addItems_idGen (extra : list (memberlist.limitedBroadcast B)) :
  forall q,
    memberlist.idGen (fold_left (fun acc cur => memberlist.addItem cur acc)
                        extra q)
    = memberlist.idGen q.
Proof.
  induction extra as [|cur extra IH]; intros q; simpl; [done|].
  by rewrite IH.
Qed.

Lemma holds_In items x : holds items -> In x items -> P (memberlist.b x).
Proof.
  unfold holds. rewrite Forall_forall. intros Hall Hx.
  apply Hall, list_elem_of_In, Hx.
Qed.

Lemma holds_deleteItem q x :
  holds (memberlist.tq q) -> holds (memberlist.tq (memberlist.deleteItem x q)).
Proof.
  unfold holds. rewrite !Forall_forall.
  intros Hall y Hy%list_elem_of_In%deleteItem_In.
  apply Hall, list_elem_of_In, Hy.
Qed.

Lemma holds_snoc items x :
  holds items -> P (memberlist.b x) -> holds (items ++ [x]).
Proof.
  unfold holds. intros Hall Hx. apply Forall_app. split; [done|].
  by constructor.
Qed.

Lemma holds_addItem q x :
  holds (memberlist.tq q) -> P (memberlist.b x) ->
  holds (memberlist.tq (memberlist.addItem x q)).
Proof.
  unfold holds. rewrite !Forall_forall.
  intros Hall Hx y Hy%list_elem_of_In%addItem_In.
  destruct Hy as [[Hy _]| ->]; [|done]. apply Hall, list_elem_of_In, Hy.
Qed.

Lemma holds_addItems q extra :
  holds (memberlist.tq q) -> holds extra ->
  holds (memberlist.tq
           (fold_left (fun acc cur => memberlist.addItem cur acc) extra q)).
Proof.
  revert q. induction extra as [|x extra IH]; intros q Hi Hr; simpl.
  - exact Hi.
  - apply IH.
    + apply holds_addItem; [done|]. by eapply holds_In; [exact Hr | left].
    + unfold holds in *. by eapply Forall_inv_tail.
Qed.

(** The loop of [GetBroadcasts] sends and keeps only broadcasts of items
    that were in the tree. *)
Lemma drain_holds rounds overhead limit transmitLimit :
  forall tier maxTr q bytesUsed toSend reinsert,
    holds (memberlist.tq q) -> holds toSend -> holds reinsert ->
    let '(q', toSend', reinsert') :=
      memberlist.drain rounds overhead limit transmitLimit tier maxTr
        q bytesUsed toSend reinsert in
    holds (memberlist.tq q') /\ holds toSend' /\ holds reinsert'.
Proof.
  induction rounds as [|rounds IH]; intros tier maxTr q bytesUsed toSend
    reinsert Hi Hs Hr; simpl; [done|].
  destruct (maxTr <? tier); [done|].
  destruct (memberlist.wrap (limit - bytesUsed - overhead) <=? 0); [done|].
  destruct (memberlist.pick tier (memberlist.wrap (limit - bytesUsed - overhead))
              (memberlist.tq q)) as [keep|] eqn:Hpick.
  - apply pick_In in Hpick. pose proof (holds_In _ _ Hi Hpick) as Hk.
    apply IH.
    + by apply holds_deleteItem.
    + by apply holds_snoc.
    + destruct (transmitLimit <=? memberlist.transmits keep + 1); [done|].
      by apply holds_snoc.
  - by apply IH.
Qed.

Lemma selectBroadcasts_holds overhead limit transmitLimit q :
  holds (memberlist.tq q) ->
  holds (fst (memberlist.selectBroadcasts overhead limit transmitLimit q))
  /\ holds (memberlist.tq
              (snd (memberlist.selectBroadcasts overhead limit transmitLimit q))).
Proof.
  intros Hq. unfold memberlist.selectBroadcasts.
  destruct (memberlist.tq q) as [|x0 items0] eqn:Htq.
  { simpl. rewrite Htq. split; constructor. }
  rewrite <- Htq in *.
  destruct (memberlist.getTransmitRange (memberlist.tq q)) as [minTr maxTr].
  pose proof (drain_holds (memberlist.drainRounds (memberlist.tq q)) overhead
                limit transmitLimit minTr maxTr q 0 [] []
                Hq (List.Forall_nil _) (List.Forall_nil _)) as Hd.
  destruct (memberlist.drain _ _ _ _ _ _ _ _ _ _) as [[q' toSend] reinsert].
  destruct Hd as (Hi & Hs & Hr). simpl. split; [done|].
  by apply holds_addItems.
Qed.

Lemma deleteItem_shorter q x :
  In x (memberlist.tq q) ->
  (length (memberlist.tq (memberlist.deleteItem x q))
   < length (memberlist.tq q))%nat.
Proof.
  intros Hx. unfold memberlist.deleteItem. cbn [memberlist.tq].
  apply (length_filter_lt _ _ x); [by apply list_elem_of_In |].
  by rewrite same_refl.
Qed.

(** The loop of [GetBroadcasts] ends by itself: with as many rounds as
    there are items and tiers left, more rounds change nothing. *)
Lemma drain_rounds_enough rounds :
  forall more overhead limit transmitLimit tier maxTr q bytesUsed
         toSend reinsert,
    (length (memberlist.tq q) + Z.to_nat (maxTr - tier + 1) <= rounds)%nat ->
    (rounds <= more)%nat ->
    memberlist.drain more overhead limit transmitLimit tier maxTr q
      bytesUsed toSend reinsert
    = memberlist.drain rounds overhead limit transmitLimit tier maxTr q
        bytesUsed toSend reinsert.
Proof.
  induction rounds as [|rounds IH];
    intros more overhead limit transmitLimit tier maxTr q bytesUsed
      toSend reinsert Hbound Hmore.
  - destruct more as [|more]; [done|]. simpl.
    destruct (maxTr <? tier) eqn:Hend; [done|lia].
  - destruct more as [|more]; [lia|]. simpl.
    destruct (maxTr <? tier) eqn:Hend; [done|].
    destruct (memberlist.wrap (limit - bytesUsed - overhead) <=? 0); [done|].
    destruct (memberlist.pick tier
                (memberlist.wrap (limit - bytesUsed - overhead))
                (memberlist.tq q)) as [keep|] eqn:Hpick.
    + apply IH; [|lia].
      pose proof (deleteItem_shorter q keep (pick_In _ _ _ _ Hpick)). lia.
    + apply IH; lia.
Qed.

(** After [QueueBroadcast], no item that the new broadcast invalidates is
    in the queue, and the items that stay were there before. *)
Lemma QueueBroadcast_removes_invalidated (bc : B) q x :
  In x (memberlist.tq (memberlist.QueueBroadcast bc q)) ->
  (In x (memberlist.tq q)
   /\ memberlist.Invalidates bc (memberlist.b x) = false)
  \/ (memberlist.b x = bc /\ memberlist.transmits x = 0).
Proof.
  unfold memberlist.QueueBroadcast.
  intros [[Hx _]| ->]%addItem_In; [|by right].
  apply deleteItems_In in Hx as [Hx Hrem]. cbn [memberlist.tq] in Hx.
  left. split; [done|].
  destruct (memberlist.Invalidates bc (memberlist.b x)) eqn:Hinv; [|done].
  rewrite Forall_forall in Hrem.
  rewrite <- (Hrem x), same_refl; [done|].
  apply list_elem_of_filter. split; [done | by apply list_elem_of_In].
Qed.

Lemma QueueBroadcast_holds (bc : B) q :
  holds (memberlist.tq q) -> P bc ->
  holds (memberlist.tq (memberlist.QueueBroadcast bc q)).
Proof.
  intros Hq Hbc. unfold holds. rewrite Forall_forall.
  intros x Hx%list_elem_of_In.
  destruct (QueueBroadcast_removes_invalidated _ _ _ Hx) as [[Hin _]|[-> _]].
  - by eapply holds_In.
  - done.
Qed.

(** *** The items of the tree stay distinct *)

Lemma uniqueKeys_deleteItem q cur :
  uniqueKeys (memberlist.tq q) ->
  uniqueKeys (memberlist.tq (memberlist.deleteItem cur q)).
Proof.
  intros Hu x y Hx%deleteItem_In Hy%deleteItem_In. apply Hu; tauto.
Qed.

Lemma uniqueKeys_addItem q cur :
  uniqueKeys (memberlist.tq q) ->
  uniqueKeys (memberlist.tq (memberlist.addItem cur q)).
Proof.
  intros Hu x y Hx%addItem_In Hy%addItem_In Hsame.
  destruct Hx as [[Hx Hcx]| ->], Hy as [[Hy Hcy]| ->]; try done.
  - by apply Hu.
  - rewrite same_sym in Hsame. congruence.
  - congruence.
Qed.

Lemma uniqueKeys_deleteItems (remove : list (memberlist.limitedBroadcast B)) :
  forall q,
    uniqueKeys (memberlist.tq q) ->
    uniqueKeys (memberlist.tq
                  (fold_left (fun acc cur => memberlist.deleteItem cur acc)
                     remove q)).
Proof.
  induction remove as [|cur remove IH]; intros q Hu; simpl; [done|].
  by apply IH, uniqueKeys_deleteItem.
Qed.

Lemma uniqueKeys_addItems (extra : list (memberlist.limitedBroadcast B)) :
  forall q,
    uniqueKeys (memberlist.tq q) ->
    uniqueKeys (memberlist.tq
                  (fold_left (fun acc cur => memberlist.addItem cur acc)
                     extra q)).
Proof.
  induction extra as [|cur extra IH]; intros q Hu; simpl; [done|].
  by apply IH, uniqueKeys_addItem.
Qed.

Lemma uniqueKeys_QueueBroadcast (bc : B) q :
  uniqueKeys (memberlist.tq q) ->
  uniqueKeys (memberlist.tq (memberlist.QueueBroadcast bc q)).
Proof.
  intros Hu. unfold memberlist.QueueBroadcast.
  by apply uniqueKeys_addItem, uniqueKeys_deleteItems.
Qed.

Lemma uniqueKeys_drain rounds overhead limit transmitLimit :
  forall tier maxTr q bytesUsed toSend reinsert,
    uniqueKeys (memberlist.tq q) ->
    uniqueKeys (memberlist.tq
                  (fst (fst (memberlist.drain rounds overhead limit
                               transmitLimit tier maxTr q bytesUsed toSend
                               reinsert)))).
Proof.
  induction rounds as [|rounds IH]; intros tier maxTr q bytesUsed toSend
    reinsert Hu; simpl; [done|].
  destruct (maxTr <? tier); [done|].
  destruct (memberlist.wrap (limit - bytesUsed - overhead) <=? 0); [done|].
  destruct (memberlist.pick tier (memberlist.wrap (limit - bytesUsed - overhead))
              (memberlist.tq q)) as [keep|].
  - by apply IH, uniqueKeys_deleteItem.
  - by apply IH.
Qed.

Lemma uniqueKeys_selectBroadcasts overhead limit transmitLimit q :
  uniqueKeys (memberlist.tq q) ->
  uniqueKeys (memberlist.tq
                (snd (memberlist.selectBroadcasts overhead limit
                        transmitLimit q))).
Proof.
  intros Hu. unfold memberlist.selectBroadcasts.
  destruct (memberlist.tq q) as [|x0 items0] eqn:Htq.
  { simpl. by rewrite Htq. }
  rewrite <- Htq in *.
  destruct (memberlist.getTransmitRange (memberlist.tq q)) as [minTr maxTr].
  pose proof (uniqueKeys_drain (memberlist.drainRounds (memberlist.tq q))
                overhead limit transmitLimit minTr maxTr q 0 [] [] Hu) as Hd.
  destruct (memberlist.drain _ _ _ _ _ _ _ _ _ _) as [[q' toSend] reinsert].
  simpl in *. by apply uniqueKeys_addItems.
Qed.

(** An item that the new broadcast does not invalidate, and that the tree
    does not take for the new item, stays in the queue; the new item is in
    the queue. *)
Lemma QueueBroadcast_keeps (bc : B) q x :
  uniqueKeys (memberlist.tq q) ->
  In x (memberlist.tq q) ->
  memberlist.Invalidates bc (memberlist.b x) = false ->
  let lb := {| memberlist.transmits := 0;
               memberlist.msgLen := len (memberlist.Message bc);
               memberlist.id :=
                 if memberlist.idGen q =? memberlist.MaxInt64 then 1
                 else memberlist.idGen q + 1;
               memberlist.b := bc |} in
  In lb (memberlist.tq (memberlist.QueueBroadcast bc q))
  /\ (memberlist.same lb x = false ->
      In x (memberlist.tq (memberlist.QueueBroadcast bc q))).
Proof.
  intros Hu Hx Hinv lb. unfold memberlist.QueueBroadcast. fold lb.
  split; [apply addItem_In; by right|].
  intros Hdiff. apply addItem_In. left. split; [|done].
  apply deleteItems_In. cbn [memberlist.tq]. split; [done|].
  rewrite Forall_forall. intros r Hr%list_elem_of_filter.
  destruct Hr as [Hrinv Hr%list_elem_of_In].
  destruct (memberlist.same r x) eqn:Hsame; [|done].
  apply (Hu r x Hr Hx) in Hsame. subst r. congruence.
Qed.

End QueueFacts.

(** ** Queue invalidation on a server *)

Lemma survives_newer (n r : state) :
  time.abs_ns (TS n) <= time.abs_ns (TS r) ->
  survives n (isStateChange {| embedded := r |}).
Proof.
  intros Hle. unfold survives. simpl.
  rewrite After_Before. by apply Before_false_ge.
Qed.

Lemma processStateChange_accepted (n : state) (s : server) :
  time.Before (TS n) (TS (srv_state s)) = false ->
  processStateChange n s =
  {| updates := S (updates s);
     queue := memberlist.QueueBroadcast (isStateChange {| embedded := n |})
                (queue s);
     srv_state := n; name := name s; port := port s |}.
Proof. intros Hacc. unfold processStateChange. by rewrite Hacc. Qed.

Lemma processStateChange_settles (n : state) (s : server) :
  time.Before (TS n) (TS (srv_state s)) = false ->
  settled n (processStateChange n s).
Proof.
  intros Hacc. rewrite (processStateChange_accepted n s Hacc).
  split; cbn [srv_state queue]; [lia|].
  rewrite Forall_forall. intros x Hx%list_elem_of_In.
  destruct (QueueBroadcast_removes_invalidated _ _ _ Hx) as [[_ Hinv]|[-> _]].
  - exact Hinv.
  - apply survives_newer. lia.
Qed.

Lemma processStateChange_settled (n r : state) (s : server) :
  settled n s -> settled n (processStateChange r s).
Proof.
  intros [Hle Hq].
  destruct (time.Before (TS r) (TS (srv_state s))) eqn:Hb.
  - unfold processStateChange. rewrite Hb. by split.
  - rewrite (processStateChange_accepted r s Hb).
    apply Before_false_ge in Hb. split; cbn [srv_state queue]; [lia|].
    apply (QueueBroadcast_holds (survives n)); [exact Hq|].
    apply survives_newer. lia.
Qed.

Lemma GetBroadcasts_settled (n : state) overhead limit transmitLimit (s : server) :
  settled n s ->
  Forall (fun x => survives n (memberlist.b x))
    (fst (memberlist.selectBroadcasts overhead limit transmitLimit (queue s)))
  /\ settled n (snd (GetBroadcasts overhead limit transmitLimit s)).
Proof.
  intros [Hle Hq].
  destruct (selectBroadcasts_holds (survives n) overhead limit transmitLimit
              (queue s) Hq) as [Hsent Hrest].
  split; [exact Hsent|].
  unfold GetBroadcasts, memberlist.GetBroadcasts.
  destruct (memberlist.selectBroadcasts _ _ _ _) as [sent q']. simpl in *.
  by split.
Qed.

Lemma run_settled (n : state) (evs : list event) :
  forall s, settled n s ->
    Forall (Forall (fun x => survives n (memberlist.b x))) (fst (run evs s)).
Proof.
  induction evs as [|ev evs IH]; intros s Hs; simpl; [constructor|].
  destruct ev as [buf|buf join|now k|overhead limit transmitLimit|join].
  - unfold NotifyMsg. destruct (json.Unmarshal buf); [|constructor].
    by apply IH, processStateChange_settled.
  - unfold MergeRemoteState. destruct (json.Unmarshal buf); [|constructor].
    by apply IH, processStateChange_settled.
  - by apply IH, processStateChange_settled.
  - destruct (GetBroadcasts_settled n overhead limit transmitLimit s Hs)
      as [Hsent Hs'].
    specialize (IH _ Hs').
    destruct (run evs (snd (GetBroadcasts overhead limit transmitLimit s)))
      as [drains out].
    simpl in *. by constructor.
  - by apply IH.
Qed.

(** The payloads that [GetBroadcasts] returns are the messages of the
    items that the run records. *)
Lemma GetBroadcasts_payloads overhead limit transmitLimit (s : server) :
  fst (GetBroadcasts overhead limit transmitLimit s)
  = map (fun x => memberlist.Message (memberlist.b x))
      (fst (memberlist.selectBroadcasts overhead limit transmitLimit (queue s))).
Proof.
  unfold GetBroadcasts, memberlist.GetBroadcasts.
  by destruct (memberlist.selectBroadcasts _ _ _ _) as [sent q'].
Qed.

(** C7.  When [processStateChange] queues the [StateChange] of a record
    that invalidates a queued item [a], the item [a] is no longer in the
    queue, no item left in the queue carries a broadcast the new one
    invalidates, and in every run of calls that follows, no
    [GetBroadcasts] sends an item with the broadcast of [a]. *)
Theorem invalidated_item_never_sent
    (s : server) (newState : state)
    (a : memberlist.limitedBroadcast anyBroadcast) (evs : list event) :
  In a (memberlist.tq (queue s)) ->
  Invalidates {| embedded := newState |} (memberlist.b a) = true ->
  time.Before (TS newState) (TS (srv_state s)) = false ->
  let s' := processStateChange newState s in
  ~ In a (memberlist.tq (queue s'))
  /\ (forall x, In x (memberlist.tq (queue s')) ->
        Invalidates {| embedded := newState |} (memberlist.b x) = false)
  /\ forall sent x, In sent (fst (run evs s')) -> In x sent ->
       memberlist.b x <> memberlist.b a
       /\ Invalidates {| embedded := newState |} (memberlist.b x) = false.
Proof.
  intros Ha Hinv Hacc s'.
  pose proof (processStateChange_settles newState s Hacc) as Hset.
  fold s' in Hset.
  assert (Hq : forall x, In x (memberlist.tq (queue s')) ->
                 Invalidates {| embedded := newState |} (memberlist.b x) = false).
  { intros x Hx. destruct Hset as [_ Hall]. rewrite Forall_forall in Hall.
    apply (Hall x), list_elem_of_In, Hx. }
  split; [|split; [exact Hq|]].
  - intros Hin. apply Hq in Hin. congruence.
  - intros sent x Hsent Hx.
    pose proof (run_settled newState evs s' Hset) as Hrun.
    rewrite Forall_forall in Hrun.
    apply list_elem_of_In, Hrun in Hsent.
    rewrite Forall_forall in Hsent.
    apply list_elem_of_In, Hsent in Hx.
    split; [|exact Hx].
    intros Heq. unfold survives in Hx. simpl in Hx. congruence.
Qed.

Lemma invalidated_item_never_sent_witness :
  let a := {| memberlist.transmits := 0;
              memberlist.msgLen := len (Message {| embedded := stateAt 5 "blue" |});
              memberlist.id := 1;
              memberlist.b := isStateChange {| embedded := stateAt 5 "blue" |} |} in
  let s := processStateChange (stateAt 5 "blue") (started (newServer 0 (stateAt 3 "red"))) in
  let s' := processStateChange (stateAt 10 "green") s in
  In a (memberlist.tq (queue s))
  /\ ~ In a (memberlist.tq (queue s'))
  /\ fst (GetBroadcasts 2 1400 2 s')
     = [Message {| embedded := stateAt 10 "green" |}].
Proof.
  intros a s s'.
  pose proof (invalidated_item_never_sent s (stateAt 10 "green") a
                [callGetBroadcasts 2 1400 2]
                (or_introl eq_refl) eq_refl eq_refl) as H.
  split; [by left|]. split; [apply H | reflexivity].
Defined.


(** ** Records with the held timestamp *)

Lemma uniqueKeys_started (c : created) :
  uniqueKeys (memberlist.tq (queue (started c))).
Proof. by intros x y []. Qed.

Lemma processStateChange_uniqueKeys (n : state) (s : server) :
  uniqueKeys (memberlist.tq (queue s)) ->
  uniqueKeys (memberlist.tq (queue (processStateChange n s))).
Proof.
  intros Hu. unfold processStateChange.
  destruct (time.Before (TS n) (TS (srv_state s))); [done|].
  by apply uniqueKeys_QueueBroadcast.
Qed.

Lemma GetBroadcasts_queue overhead limit transmitLimit (s : server) :
  queue (snd (GetBroadcasts overhead limit transmitLimit s))
  = snd (memberlist.selectBroadcasts overhead limit transmitLimit (queue s)).
Proof.
  unfold GetBroadcasts, memberlist.GetBroadcasts.
  by destruct (memberlist.selectBroadcasts _ _ _ _) as [sent q'].
Qed.

(** In every state that a run of calls reaches from a started server, the
    items of the queue are distinct for the tree. *)
Lemma run_uniqueKeys (evs : list event) :
  forall s, uniqueKeys (memberlist.tq (queue s)) ->
    uniqueKeys (memberlist.tq (queue (finalServer (snd (run evs s))))).
Proof.
  induction evs as [|ev evs IH]; intros s Hs; cbn [run]; [done|].
  destruct ev as [buf|buf join|now k|overhead limit transmitLimit|join].
  - unfold NotifyMsg. destruct (json.Unmarshal buf); [|done].
    by apply IH, processStateChange_uniqueKeys.
  - unfold MergeRemoteState. destruct (json.Unmarshal buf); [|done].
    by apply IH, processStateChange_uniqueKeys.
  - by apply IH, processStateChange_uniqueKeys.
  - specialize (IH (snd (GetBroadcasts overhead limit transmitLimit s))).
    destruct (run evs (snd (GetBroadcasts overhead limit transmitLimit s)))
      as [drains out].
    apply IH. rewrite GetBroadcasts_queue.
    by apply uniqueKeys_selectBroadcasts.
  - by apply IH.
Qed.

Lemma GetBroadcasts_fields overhead limit transmitLimit (s : server) :
  let s' := snd (GetBroadcasts overhead limit transmitLimit s) in
  updates s' = updates s /\ srv_state s' = srv_state s
  /\ name s' = name s /\ port s' = port s
  /\ queue s'
     = snd (memberlist.selectBroadcasts overhead limit transmitLimit (queue s)).
Proof.
  unfold GetBroadcasts, memberlist.GetBroadcasts.
  by destruct (memberlist.selectBroadcasts _ _ _ _) as [sent q'].
Qed.

(** Every item of the queue carries the timestamp of the held record. *)
Lemma coherent_started (c : created) : coherent (started c).
Proof. constructor. Qed.

Lemma processStateChange_coherent (n : state) (s : server) :
  coherent s -> coherent (processStateChange n s).
Proof.
  intros Hs. destruct (time.Before (TS n) (TS (srv_state s))) eqn:Hb.
  { unfold processStateChange. by rewrite Hb. }
  rewrite (processStateChange_accepted n s Hb).
  apply Before_false_ge in Hb.
  unfold coherent, current in *. cbn [queue srv_state].
  rewrite Forall_forall. intros x Hx%list_elem_of_In.
  destruct (QueueBroadcast_removes_invalidated _ _ _ Hx) as [[Hin Hinv]|[-> _]].
  - rewrite Forall_forall in Hs.
    destruct (Hs x) as (r & Hr & Ht); [by apply list_elem_of_In|].
    exists r. split; [done|]. rewrite Hr in Hinv. simpl in Hinv.
    rewrite After_Before in Hinv. apply Before_false_ge in Hinv. lia.
  - by exists n.
Qed.

Lemma GetBroadcasts_coherent overhead limit transmitLimit (s : server) :
  coherent s -> coherent (snd (GetBroadcasts overhead limit transmitLimit s)).
Proof.
  intros Hs. unfold coherent, current in *.
  destruct (GetBroadcasts_fields overhead limit transmitLimit s)
    as (_ & -> & _ & _ & ->).
  by apply (selectBroadcasts_holds
              (fun bc => exists r, bc = isStateChange {| embedded := r |}
                 /\ time.abs_ns (TS r) = time.abs_ns (TS (srv_state s)))).
Qed.

Lemma run_coherent (evs : list event) :
  forall s, coherent s -> coherent (finalServer (snd (run evs s))).
Proof.
  induction evs as [|ev evs IH]; intros s Hs; cbn [run]; [done|].
  destruct ev as [buf|buf join|now k|overhead limit transmitLimit|join].
  - unfold NotifyMsg. destruct (json.Unmarshal buf); [|done].
    by apply IH, processStateChange_coherent.
  - unfold MergeRemoteState. destruct (json.Unmarshal buf); [|done].
    by apply IH, processStateChange_coherent.
  - by apply IH, processStateChange_coherent.
  - specialize (IH _ (GetBroadcasts_coherent overhead limit transmitLimit s Hs)).
    by destruct (run evs (snd (GetBroadcasts overhead limit transmitLimit s))).
  - by apply IH.
Qed.

(** C10.  In every state that a run of calls reaches from a started
    server, an incoming record with the timestamp of the held record is
    accepted: one value is sent on [updates] and the [StateChange] of the
    record is queued with no transmits.  Its [Invalidates] is false on
    every [StateChange] with the same timestamp and on every broadcast of
    another type.  Every item queued before carries such a [StateChange],
    so none is deleted as invalidated: it stays in the queue together
    with the new item, unless the tree takes the two for the same item
    (no transmits, the same length and the same id), in which case
    [ReplaceOrInsert] puts the new item in its place. *)
Theorem equal_timestamp_keeps_both
    (numServers : Z) (initial : state) (evs : list event) (incoming : state) :
  let s := finalServer (snd (run evs (started (newServer numServers initial)))) in
  time.Equal (TS incoming) (TS (srv_state s)) = true ->
  let s' := processStateChange incoming s in
  updates s' = S (updates s)
  /\ srv_state s' = incoming
  /\ (forall o, time.Equal (TS o) (TS incoming) = true ->
        Invalidates {| embedded := incoming |}
          (isStateChange {| embedded := o |}) = false)
  /\ (forall payload,
        Invalidates {| embedded := incoming |} (otherBroadcast payload) = false)
  /\ exists y,
       In y (memberlist.tq (queue s'))
       /\ memberlist.b y = isStateChange {| embedded := incoming |}
       /\ memberlist.transmits y = 0
       /\ memberlist.msgLen y = len (Message {| embedded := incoming |})
       /\ forall x, In x (memberlist.tq (queue s)) ->
            (exists o, memberlist.b x = isStateChange {| embedded := o |}
                       /\ time.Equal (TS o) (TS incoming) = true)
            /\ Invalidates {| embedded := incoming |} (memberlist.b x) = false
            /\ (memberlist.same y x = false ->
                In x (memberlist.tq (queue s')))
            /\ (memberlist.same y x = true -> x <> y ->
                ~ In x (memberlist.tq (queue s'))).
Proof.
  intros s Heq s'.
  assert (Hu : uniqueKeys (memberlist.tq (queue s))).
  { apply run_uniqueKeys, uniqueKeys_started. }
  assert (Hc : coherent s).
  { apply run_coherent, coherent_started. }
  assert (Hacc : time.Before (TS incoming) (TS (srv_state s)) = false).
  { unfold time.Equal in Heq. apply Z.eqb_eq in Heq.
    apply Before_false_ge. lia. }
  clearbody s. subst s'. rewrite (processStateChange_accepted incoming s Hacc).
  cbn [updates srv_state queue].
  split; [done|]. split; [done|].
  split; [by intros o Ho; apply Invalidates_equal|]. split; [done|].
  pose proof (uniqueKeys_QueueBroadcast
                (isStateChange {| embedded := incoming |}) (queue s) Hu) as Hu'.
  set (y := {| memberlist.transmits := 0;
               memberlist.msgLen :=
                 len (memberlist.Message
                        (isStateChange {| embedded := incoming |}));
               memberlist.id :=
                 if memberlist.idGen (queue s) =? memberlist.MaxInt64 then 1
                 else memberlist.idGen (queue s) + 1;
               memberlist.b := isStateChange {| embedded := incoming |} |}).
  assert (Hy : In y (memberlist.tq
                       (memberlist.QueueBroadcast
                          (isStateChange {| embedded := incoming |}) (queue s)))).
  { unfold memberlist.QueueBroadcast. apply addItem_In. by right. }
  exists y. split; [exact Hy|]. split; [done|]. split; [done|]. split; [done|].
  intros x Hx.
  unfold coherent, current in Hc. rewrite Forall_forall in Hc.
  destruct (Hc x) as (o & Hb & Ht); [by apply list_elem_of_In|].
  assert (Ho : time.Equal (TS o) (TS incoming) = true).
  { unfold time.Equal in *. apply Z.eqb_eq in Heq. apply Z.eqb_eq. lia. }
  assert (Hinv : Invalidates {| embedded := incoming |} (memberlist.b x) = false).
  { rewrite Hb. by apply Invalidates_equal. }
  assert (Hinv' : memberlist.Invalidates
                    (isStateChange {| embedded := incoming |}) (memberlist.b x)
                  = false) by exact Hinv.
  split; [by exists o|]. split; [exact Hinv|].
  destruct (QueueBroadcast_keeps (isStateChange {| embedded := incoming |})
              (queue s) x Hu Hx Hinv') as [_ Hkeep].
  split; [exact Hkeep|].
  intros Hsame Hne Hin. apply Hne. symmetry. by apply (Hu' _ _ Hy Hin).
Qed.

Lemma equal_timestamp_keeps_both_witness :
  let s := finalServer
             (snd (run [callMutate {| time.abs_ns := 5; time.zone := 0 |} 0]
                     (started (newServer 0 (stateAt 3 "blue"))))) in
  let s' := processStateChange (stateAt 5 "green") s in
  srv_state s = stateAt 5 "red"
  /\ updates s' = 2%nat
  /\ map memberlist.b (memberlist.tq (queue s'))
     = [isStateChange {| embedded := stateAt 5 "red" |};
        isStateChange {| embedded := stateAt 5 "green" |}].
Proof.
  pose proof (equal_timestamp_keeps_both 0 (stateAt 3 "blue")
                [callMutate {| time.abs_ns := 5; time.zone := 0 |} 0]
                (stateAt 5 "green") eq_refl) as (Hu & _).
  split; [reflexivity|]. split; [exact Hu | reflexivity].
Defined.

(** The other case: the id counter starts again when a deletion empties
    the tree, so a new item can get the id of an item that is still
    queued.  After the records red at 4, orange at 5 and yellow at 5, the
    queue holds orange with the id 2 and yellow with the id 1, and the
    counter is at 1; indigo at 5 then takes the id 2 and, with the length
    and the transmits of orange, its place. *)
Lemma equal_timestamp_same_key_replaces :
  let s := deliver [stateAt 4 "red"; stateAt 5 "orange"; stateAt 5 "yellow"]
             (started (newServer 0 (stateAt 3 "blue"))) in
  let s' := processStateChange (stateAt 5 "indigo") s in
  map (fun x => (memberlist.id x, memberlist.b x)) (memberlist.tq (queue s))
  = [(2, isStateChange {| embedded := stateAt 5 "orange" |});
     (1, isStateChange {| embedded := stateAt 5 "yellow" |})]
  /\ memberlist.idGen (queue s) = 1
  /\ map (fun x => (memberlist.id x, memberlist.b x)) (memberlist.tq (queue s'))
     = [(1, isStateChange {| embedded := stateAt 5 "yellow" |});
        (2, isStateChange {| embedded := stateAt 5 "indigo" |})]
  /\ updates s' = 4%nat.
Proof. vm_compute. repeat split. Qed.

(** ** The reporting loop *)

Lemma scan_fold (servers : list server) :
  scan servers = fold_left scanStep servers (zeroState, ∅).
Proof. reflexivity. Qed.

Lemma scanStep_counts (v : string) (servers : list server) :
  forall (newest : state) (counts : gmap string Z),
    default 0 (snd (fold_left scanStep servers (newest, counts)) !! v)
    = default 0 (counts !! v) + countValue v servers.
Proof.
  unfold countValue.
  induction servers as [|s servers IH]; intros newest counts; simpl.
  - lia.
  - rewrite IH. rewrite filter_cons.
    destruct (decide (Value (srv_state s) = v)) as [->|Hne].
    + rewrite lookup_insert_eq. simpl. lia.
    + rewrite lookup_insert_ne by done. lia.
Qed.

Lemma scan_counts (v : string) (servers : list server) :
  default 0 (snd (scan servers) !! v) = countValue v servers.
Proof. rewrite scan_fold, scanStep_counts, lookup_empty. simpl. lia. Qed.

Lemma scanStep_newest (servers : list server) :
  forall (newest : state) (counts : gmap string Z),
    let newest' := fst (fold_left scanStep servers (newest, counts)) in
    time.abs_ns (TS newest) <= time.abs_ns (TS newest')
    /\ forall s, In s servers ->
         time.abs_ns (TS (srv_state s)) <= time.abs_ns (TS newest').
Proof.
  induction servers as [|s servers IH]; intros newest counts; simpl.
  - split; [lia | by intros s []].
  - match goal with
    | |- context [fold_left scanStep servers (?n, ?c)] =>
        destruct (IH n c) as [Hle Hall]
    end.
    rewrite After_Before in *.
    destruct (time.Before (TS newest) (TS (srv_state s))) eqn:Hb.
    + apply Before_lt in Hb. split; [lia|].
      intros s' [<-|Hs']; [exact Hle | by apply Hall].
    + apply Before_false_ge in Hb. split; [lia|].
      intros s' [<-|Hs']; [lia | by apply Hall].
Qed.

(** The score is the [float32] percentage of the servers whose value is
    the expected one, and the expected value is that of a record no server
    holds a later one than. *)
Lemma scoreOf_formula (servers : list server) :
  scoreOf servers
  = float32.mul (float32.ofInt 100)
      (float32.div
         (float32.ofInt (countValue (expect (reportOf servers)) servers))
         (float32.ofInt (Z.of_nat (length servers))))
  /\ histogram (reportOf servers) = snd (scan servers)
  /\ forall s, In s servers ->
       time.After (TS (srv_state s)) (TS (fst (scan servers))) = false.
Proof.
  unfold scoreOf, reportOf.
  pose proof (scan_counts (Value (fst (scan servers))) servers) as Hc.
  pose proof (scanStep_newest servers zeroState ∅) as [_ Hn].
  rewrite <- scan_fold in Hn.
  destruct (scan servers) as [newest counts]. simpl in *.
  rewrite Hc. split; [reflexivity|]. split; [reflexivity|].
  intros s Hs. rewrite After_Before. apply Before_false_ge. by apply Hn.
Qed.

(** C4, as the code has it.  For the states (5, red), (5, red), (3, blue)
    the report expects red, counts red twice and blue once, and prints the
    score 67: the [float32] product of 100 and 2/3, which [%.0f] rounds to
    the nearest integer.  For every list of servers the score is 100 times
    the quotient of the number of servers that hold the expected value by
    the number of servers, in [float32]. *)
Theorem report_example :
  reportOf exampleServers
  = {| score := "67"; expect := "red";
       histogram := {[ "red" := 2; "blue" := 1 ]} |}
  /\ scoreOf exampleServers
     = float32.mul (float32.ofInt 100)
         (float32.div (float32.ofInt 2) (float32.ofInt 3))
  /\ scoreOf exampleServers = float32.Finite 8738134 (-17)
  /\ forall servers,
       scoreOf servers
       = float32.mul (float32.ofInt 100)
           (float32.div
              (float32.ofInt (countValue (expect (reportOf servers)) servers))
              (float32.ofInt (Z.of_nat (length servers)))).
Proof.
  split; [vm_compute; reflexivity|].
  split; [vm_compute; reflexivity|].
  split; [vm_compute; reflexivity|].
  intros servers. apply scoreOf_formula.
Qed.

(** C4, as stated, fails: the score printed for the example is not 66. *)
Lemma report_example_not_66 : score (reportOf exampleServers) <> "66".
Proof. vm_compute. discriminate. Qed.

(** ** Serialization *)

#[local] Arguments String.append : simpl nomatch.

(** *** Decimal fields *)

Lemma code_chr (n : Z) : 0 <= n < 256 -> code (chr n) = n.
Proof.
  intros Hn. unfold code, chr.
  rewrite N_ascii_embedding by lia. lia.
Qed.

Lemma isDigit_digit (n : Z) : 0 <= n <= 9 -> isDigit (digit n) = true.
Proof.
  intros Hn. unfold isDigit, digit. rewrite code_chr by lia. lia.
Qed.

Lemma digitVal_digit (n : Z) : 0 <= n <= 9 -> digitVal (digit n) = n.
Proof.
  intros Hn. unfold digitVal, digit. rewrite code_chr by lia. lia.
Qed.

Lemma atoi_digit (acc n : Z) (r : string) : 0 <= n <= 9 ->
  time.atoi acc (String (digit n) r) = time.atoi (acc * 10 + n) r.
Proof.
  intros Hn. simpl. by rewrite isDigit_digit, digitVal_digit.
Qed.

Lemma atoi_pad2 (x : Z) : 0 <= x < 100 -> time.atoi 0 (time.pad2 x) = Some x.
Proof.
  intros Hx. unfold time.pad2.
  rewrite !atoi_digit by (Z.div_mod_to_equations; lia).
  simpl. f_equal. Z.div_mod_to_equations; lia.
Qed.

Lemma parseUint_pad2 (x lo hi : Z) :
  0 <= x < 100 -> lo <= x <= hi -> time.parseUint (time.pad2 x) lo hi = Some x.
Proof.
  intros Hx Hr. unfold time.parseUint. rewrite atoi_pad2 by done.
  destruct (x <? lo) eqn:H1; [lia|]. destruct (hi <? x) eqn:H2; [lia|]. done.
Qed.

Lemma atoi_pad4 (x : Z) : 0 <= x < 10000 -> time.atoi 0 (time.pad4 x) = Some x.
Proof.
  intros Hx. unfold time.pad4.
  rewrite !atoi_digit by (Z.div_mod_to_equations; lia).
  simpl. f_equal. Z.div_mod_to_equations; lia.
Qed.

Lemma parseUint_pad4 (x lo hi : Z) :
  0 <= x < 10000 -> lo <= x <= hi -> time.parseUint (time.pad4 x) lo hi = Some x.
Proof.
  intros Hx Hr. unfold time.parseUint. rewrite atoi_pad4 by done.
  destruct (x <? lo) eqn:H1; [lia|]. destruct (hi <? x) eqn:H2; [lia|]. done.
Qed.

(** *** The calendar *)

(** The year of the cycle and the day of the year that [absDate] computes
    are in range, and the last day of a year that has 366 days falls in a
    leap year. *)
Lemma doy_bounds (doc : Z) : 0 <= doc < 146097 ->
  let yoc := (doc - doc / 1460 + doc / 36524 - doc / 146096) / 365 in
  let doy := doc - (365 * yoc + yoc / 4 - yoc / 100) in
  0 <= yoc <= 399 /\ 0 <= doy <= 365
  /\ (doy = 365 -> (yoc + 1) mod 4 = 0 /\ ((yoc + 1) mod 100 <> 0 \/ (yoc + 1) mod 400 = 0)).
Proof.
  intros H yoc doy. subst yoc doy.
  Z.div_mod_to_equations. lia.
Qed.

Lemma isLeap_shift (y c : Z) : time.isLeap (y + c * 400) = time.isLeap y.
Proof.
  unfold time.isLeap.
  replace ((y + c * 400) mod 4) with (y mod 4) by (Z.div_mod_to_equations; lia).
  replace ((y + c * 400) mod 100) with (y mod 100) by (Z.div_mod_to_equations; lia).
  replace ((y + c * 400) mod 400) with (y mod 400) by (Z.div_mod_to_equations; lia).
  reflexivity.
Qed.

Lemma isLeap_true (y : Z) :
  y mod 4 = 0 -> (y mod 100 <> 0 \/ y mod 400 = 0) -> time.isLeap y = true.
Proof.
  intros H4 H. unfold time.isLeap. rewrite H4. simpl.
  destruct H as [H|H].
  - apply Z.eqb_neq in H. by rewrite H.
  - rewrite H. simpl. by rewrite orb_true_r.
Qed.

(** [absDate] returns a date of the calendar, and [daysSinceEpoch] is its
    inverse. *)
Lemma absDate_fields (days : Z) :
  let '(y, m, d) := time.absDate days in
  1 <= m <= 12 /\ 1 <= d <= time.daysIn m y
  /\ time.daysSinceEpoch y m d = days.
Proof.
  unfold time.absDate.
  set (z := days + 306). set (cycle := z / 146097). set (doc := z mod 146097).
  assert (Hdoc : 0 <= doc < 146097) by (apply Z.mod_pos_bound; lia).
  pose proof (doy_bounds doc Hdoc) as Hb. cbv zeta in Hb.
  set (yoc := (doc - doc / 1460 + doc / 36524 - doc / 146096) / 365) in *.
  set (doy := doc - (365 * yoc + yoc / 4 - yoc / 100)) in *.
  destruct Hb as (Hyoc & Hdoy & Hleap).
  set (mp := (5 * doy + 2) / 153).
  assert (Hmp : 0 <= mp <= 11) by (subst mp; Z.div_mod_to_equations; lia).
  assert (Hz : days = cycle * 146097 + doc - 306).
  { subst cycle doc. pose proof (Z.div_mod z 146097). lia. }
  assert (Hfeb : doy <= 364 \/
                 (doy = 365 /\ time.isLeap (yoc + cycle * 400 + 1) = true)).
  { destruct (Z.eq_dec doy 365) as [He|Hne]; [right; split; [done|] | left; lia].
    replace (yoc + cycle * 400 + 1) with ((yoc + 1) + cycle * 400) by lia.
    rewrite isLeap_shift. destruct (Hleap He). by apply isLeap_true. }
  assert (Hmpd : 153 * mp <= 5 * doy + 2 < 153 * mp + 153)
    by (subst mp; Z.div_mod_to_equations; lia).
  assert (Hdoyd : doy = doc - (365 * yoc + yoc / 4 - yoc / 100)) by reflexivity.
  clearbody mp doy yoc doc cycle. clear Hleap z.
  assert (Hcases : mp = 0 \/ mp = 1 \/ mp = 2 \/ mp = 3 \/ mp = 4 \/ mp = 5
                   \/ mp = 6 \/ mp = 7 \/ mp = 8 \/ mp = 9 \/ mp = 10 \/ mp = 11)
    by lia.
  destruct Hcases as [E|[E|[E|[E|[E|[E|[E|[E|[E|[E|[E|E]]]]]]]]]]];
    subst mp; unfold time.daysIn, time.daysSinceEpoch; simpl;
    (split; [lia|]); (split; [|Z.div_mod_to_equations; lia]).
  all: try (Z.div_mod_to_equations; lia).
  destruct Hfeb as [Hd|[Hd Hl]].
  - destruct (time.isLeap _); Z.div_mod_to_equations; lia.
  - rewrite Hl. Z.div_mod_to_equations; lia.
Qed.

Lemma absDate_year (days : Z) :
  -366 <= days < 3652059 -> 0 <= fst (fst (time.absDate days)) <= 9999.
Proof.
  intros Hd. pose proof (absDate_fields days) as H.
  destruct (time.absDate days) as [[y m] d]. simpl.
  destruct H as (Hm & Hday & Hback).
  assert (Hin : time.daysIn m y <= 31).
  { unfold time.daysIn. repeat destruct (_ =? _); simpl; try lia.
    destruct (time.isLeap y); lia. }
  unfold time.daysSinceEpoch in Hback.
  destruct (m <=? 2) eqn:Hm2; destruct (2 <? m) eqn:Hm3;
    Z.div_mod_to_equations; lia.
Qed.

(** Strings of digits *)

(** *** Digits and fractions of a second *)

Lemma len_cons (c : ascii) (s : string) : len (String c s) = len s + 1.
Proof. unfold len. simpl. lia. Qed.

Lemma len_nonneg (s : string) : 0 <= len s.
Proof. unfold len. lia. Qed.

Lemma len_app (s1 s2 : string) : len (s1 +:+ s2) = len s1 + len s2.
Proof.
  induction s1 as [|c s1 IH]; simpl; [unfold len; simpl; lia|].
  rewrite !len_cons, IH. lia.
Qed.

Lemma atoi_allDigits (s : string) :
  forall acc, allDigits s = true ->
    time.atoi acc s = Some (acc * 10 ^ len s + digitsVal s).
Proof.
  induction s as [|c s IH]; intros acc Hd; simpl.
  - f_equal. change (len "") with 0. lia.
  - apply andb_true_iff in Hd as [Hc Hs]. rewrite Hc, IH by done.
    f_equal. rewrite len_cons, Z.pow_add_r by (pose proof (len_nonneg s); lia).
    lia.
Qed.

Lemma trimZeros_allDigits (s : string) :
  allDigits s = true -> allDigits (time.trimZeros s) = true.
Proof.
  induction s as [|c s IH]; simpl; [done|].
  intros [Hc Hs]%andb_true_iff. specialize (IH Hs).
  destruct (time.trimZeros s) as [|c' s'].
  - destruct (Ascii.eqb c "0"); simpl; [done | by rewrite Hc].
  - simpl in *. by rewrite Hc.
Qed.

Lemma isDigit_bounds (c : ascii) : isDigit c = true -> 0 <= digitVal c <= 9.
Proof. unfold isDigit, digitVal. lia. Qed.

Lemma digitsVal_nonneg (s : string) : allDigits s = true -> 0 <= digitsVal s.
Proof.
  induction s as [|c s IH]; simpl; [lia|].
  intros [Hc Hs]%andb_true_iff. apply isDigit_bounds in Hc.
  pose proof (len_nonneg s). specialize (IH Hs).
  assert (0 < 10 ^ len s) by (apply Z.pow_pos_nonneg; lia). nia.
Qed.

(** Trailing zeros scale the value by a power of ten. *)
Lemma trimZeros_val (s : string) :
  allDigits s = true ->
  len (time.trimZeros s) <= len s
  /\ digitsVal s
     = digitsVal (time.trimZeros s) * 10 ^ (len s - len (time.trimZeros s)).
Proof.
  induction s as [|c s IH]; simpl.
  - intros _. change (len "") with 0. simpl. lia.
  - intros [Hc Hs]%andb_true_iff. destruct (IH Hs) as [Hlen Hval].
    pose proof (len_nonneg s) as Hs0.
    pose proof (len_nonneg (time.trimZeros s)) as Ht0.
    destruct (time.trimZeros s) as [|c' s'] eqn:Ht.
    + change (len "") with 0 in *. simpl in Hval.
      destruct (Ascii.eqb c "0") eqn:Hz.
      * apply Ascii.eqb_eq in Hz. subst c. change (len "") with 0.
        rewrite len_cons. change (digitVal "0") with 0. simpl. lia.
      * rewrite !len_cons. change (len "") with 0. simpl digitsVal.
        change (len "") with 0.
        replace (len s + 1 - (0 + 1)) with (len s) by lia.
        rewrite Hval. simpl. lia.
    + rewrite !len_cons in *. split; [lia|].
      cbn [digitsVal]. rewrite Hval, len_cons.
      replace (len s + 1 - (len s' + 1 + 1)) with (len s - (len s' + 1)) by lia.
      set (k := len s - (len s' + 1)) in *.
      assert (Hk : 0 <= k) by lia.
      replace (len s) with ((len s' + 1) + k) by lia.
      rewrite Z.pow_add_r by lia. cbn [digitsVal]. ring.
Qed.

Lemma pad4_digits (x : Z) : 0 <= x < 10000 ->
  allDigits (time.pad4 x) = true /\ digitsVal (time.pad4 x) = x.
Proof.
  intros Hx. unfold time.pad4. cbn [allDigits digitsVal].
  rewrite !isDigit_digit, !digitVal_digit by (Z.div_mod_to_equations; lia).
  split; [done|]. rewrite !len_cons. change (len "") with 0. simpl.
  Z.div_mod_to_equations; lia.
Qed.

Lemma allDigits_app (s1 s2 : string) :
  allDigits (s1 +:+ s2) = allDigits s1 && allDigits s2.
Proof.
  induction s1 as [|c s1 IH]; simpl; [done|]. by rewrite IH, andb_assoc.
Qed.

Lemma digitsVal_app (s1 s2 : string) :
  digitsVal (s1 +:+ s2) = digitsVal s1 * 10 ^ len s2 + digitsVal s2.
Proof.
  induction s1 as [|c s1 IH]; simpl; [lia|].
  rewrite IH, len_app, Z.pow_add_r by apply len_nonneg. lia.
Qed.

Lemma pad9_digits (x : Z) : 0 <= x < 1000000000 ->
  allDigits (time.pad9 x) = true /\ digitsVal (time.pad9 x) = x
  /\ len (time.pad9 x) = 9.
Proof.
  intros Hx. unfold time.pad9.
  destruct (pad4_digits (x / 100000)) as [Ha1 Hv1];
    [Z.div_mod_to_equations; lia|].
  destruct (pad4_digits (x / 10 mod 10000)) as [Ha2 Hv2];
    [Z.div_mod_to_equations; lia|].
  rewrite !allDigits_app, !digitsVal_app, !len_app, Ha1, Ha2, Hv1, Hv2.
  cbn [allDigits digitsVal]. rewrite isDigit_digit, digitVal_digit
    by (Z.div_mod_to_equations; lia).
  split; [done|]. unfold time.pad4. rewrite !len_cons. change (len "") with 0.
  simpl. split; [|done]. Z.div_mod_to_equations; lia.
Qed.

Lemma spanDigits_app (d rest : string) :
  allDigits d = true -> startsDigit rest = false ->
  time.spanDigits (d +:+ rest) = (d, rest).
Proof.
  intros Hd Hr. induction d as [|c d IH].
  - destruct rest as [|c r]; [done|].
    cbn [String.append time.spanDigits]. cbn [startsDigit] in Hr. by rewrite Hr.
  - cbn [allDigits] in Hd. apply andb_true_iff in Hd as [Hc Hd].
    cbn [String.append time.spanDigits]. by rewrite Hc, IH.
Qed.

Lemma take_all (n : nat) (s : string) :
  (String.length s <= n)%nat -> time.take n s = s.
Proof.
  revert s. induction n as [|n IH]; intros [|c s]; simpl; try done; [lia|].
  intros Hl. rewrite IH; [done|lia].
Qed.

Lemma parseFrac_appendNano (nsec : Z) (rest : string) :
  0 <= nsec < 1000000000 ->
  startsDigit rest = false ->
  (forall r, rest <> String "." r) ->
  time.parseFrac (time.appendNano nsec +:+ rest) = (nsec, rest).
Proof.
  intros Hn Hr Hdot. unfold time.appendNano.
  destruct (nsec =? 0) eqn:Hz.
  - apply Z.eqb_eq in Hz. subst nsec. simpl.
    unfold time.parseFrac. destruct rest as [|c r]; [done|].
    destruct (Ascii.eqb_spec c "."%char) as [->|Hne]; [by destruct (Hdot r)|].
    destruct c as [[] [] [] [] [] [] [] []]; try done.
  - apply Z.eqb_neq in Hz.
    destruct (pad9_digits nsec Hn) as (Ha & Hv & Hl).
    destruct (trimZeros_val _ Ha) as [Hlen Hval].
    pose proof (trimZeros_allDigits _ Ha) as Hta.
    rewrite Hv, Hl in Hval. rewrite Hl in Hlen.
    destruct (time.trimZeros (time.pad9 nsec)) as [|d ds] eqn:Ht.
    { cbn [digitsVal] in Hval. lia. }
    cbn [String.append time.parseFrac]. cbn [allDigits] in Hta.
    apply andb_true_iff in Hta as [Hd Hds].
    rewrite Hd, spanDigits_app by done.
    f_equal. unfold time.parseNanoseconds.
    rewrite take_all.
    2:{ unfold len in Hlen. lia. }
    rewrite atoi_allDigits by (cbn [allDigits]; by rewrite Hd, Hds).
    rewrite Hval. lia.
Qed.

(** *** The text of a time *)

Lemma parseZone_appendZone (off : Z) :
  off mod 60 = 0 -> Z.abs (Z.quot off 60) / 60 < 24 ->
  time.parseZone (time.appendZone off) = Some off.
Proof.
  intros Hm Hh. unfold time.appendZone.
  destruct (off =? 0) eqn:Hz; [apply Z.eqb_eq in Hz; by subst|].
  apply Z.eqb_neq in Hz.
  set (z := Z.abs (Z.quot off 60)) in *.
  assert (Hq : Z.quot off 60 * 60 = off).
  { pose proof (Z.quot_rem off 60 ltac:(lia)) as Hqr.
    assert (Z.rem off 60 = 0); [|lia].
    apply Z.rem_divide; [lia|]. apply Z.mod_divide; [lia|done]. }
  assert (Hz0 : 0 <= z) by (subst z; lia).
  pose proof (parseUint_pad2 (z / 60) 0 23 ltac:(Z.div_mod_to_equations; lia)
                ltac:(Z.div_mod_to_equations; lia)) as Hhr.
  pose proof (parseUint_pad2 (z mod 60) 0 59 ltac:(Z.div_mod_to_equations; lia)
                ltac:(Z.div_mod_to_equations; lia)) as Hmm.
  unfold time.pad2 in *.
  destruct (Z.quot off 60 <? 0) eqn:Hneg;
    cbn [String.append time.parseZone]; rewrite Hhr, Hmm; cbn; f_equal;
    subst z; Z.div_mod_to_equations; lia.
Qed.

Lemma appendZone_start (off : Z) :
  startsDigit (time.appendZone off) = false
  /\ forall r, time.appendZone off <> String "." r.
Proof.
  unfold time.appendZone. destruct (off =? 0); [by split|].
  destruct (Z.quot off 60 <? 0); by split.
Qed.

Lemma parseRFC3339_fields (year month day hour min sec nsec off : Z)
    (tail : string) :
  0 <= year <= 9999 -> 1 <= month <= 12 -> 1 <= day <= time.daysIn month year ->
  0 <= hour <= 23 -> 0 <= min <= 59 -> 0 <= sec <= 59 ->
  time.parseFrac tail = (nsec, time.appendZone off) ->
  time.parseZone (time.appendZone off) = Some off ->
  time.parseRFC3339
    (time.pad4 year +:+ "-" +:+ time.pad2 month +:+ "-" +:+ time.pad2 day
     +:+ "T" +:+ time.pad2 hour +:+ ":" +:+ time.pad2 min +:+ ":"
     +:+ time.pad2 sec +:+ tail)
  = Some {| time.abs_ns := time.Date year month day hour min sec nsec
                           - off * time.nsPerSec;
            time.zone := off |}.
Proof.
  intros Hy Hmo Hd Hh Hmi Hs Hfrac Hzone.
  assert (Hd31 : time.daysIn month year <= 31).
  { unfold time.daysIn. repeat destruct (_ =? _); simpl; try lia.
    destruct (time.isLeap year); lia. }
  pose proof (parseUint_pad4 year 0 9999 ltac:(lia) ltac:(lia)) as Py.
  pose proof (parseUint_pad2 month 1 12 ltac:(lia) ltac:(lia)) as Pmo.
  pose proof (parseUint_pad2 day 1 (time.daysIn month year)
                ltac:(lia) ltac:(lia)) as Pd.
  pose proof (parseUint_pad2 hour 0 23 ltac:(lia) ltac:(lia)) as Ph.
  pose proof (parseUint_pad2 min 0 59 ltac:(lia) ltac:(lia)) as Pmi.
  pose proof (parseUint_pad2 sec 0 59 ltac:(lia) ltac:(lia)) as Ps.
  unfold time.pad4, time.pad2 in *.
  cbn [String.append time.parseRFC3339].
  rewrite Py, Pmo, Pd, Ph, Pmi, Ps. cbn [Ascii.eqb Bool.eqb andb].
  by rewrite Hfrac, Hzone.
Qed.

Lemma parseRFC3339_format (t : time.Time) :
  time.zone t mod 60 = 0 ->
  match time.appendStrictRFC3339 t with
  | Some s => time.parseRFC3339 s = Some t
  | None => True
  end.
Proof.
  intros Hzone. unfold time.appendStrictRFC3339.
  set (loc := time.abs_ns t + time.zone t * time.nsPerSec).
  set (secs := loc / time.nsPerSec). set (nsec := loc mod time.nsPerSec).
  set (days := secs / time.secPerDay). set (sod := secs mod time.secPerDay).
  pose proof (absDate_fields days) as Hdate.
  destruct (time.absDate days) as [[year month] day].
  destruct Hdate as (Hmo & Hd & Hback).
  destruct ((year <? 0) || (9999 <? year)) eqn:Hy; [done|].
  destruct (24 <=? Z.abs (Z.quot (time.zone t) 60) / 60) eqn:Hzh; [done|].
  assert (Hns : 0 <= nsec < 1000000000)
    by (subst nsec; apply Z.mod_pos_bound; unfold time.nsPerSec; lia).
  assert (Hsod : 0 <= sod < 86400)
    by (subst sod; apply Z.mod_pos_bound; unfold time.secPerDay; lia).
  destruct (appendZone_start (time.zone t)) as [Hsd Hdot].
  rewrite (parseRFC3339_fields year month day (sod / 3600) (sod / 60 mod 60)
             (sod mod 60) nsec (time.zone t)).
  - destruct t as [a z]. simpl in *. f_equal. f_equal.
    unfold time.Date. rewrite Hback.
    subst sod days nsec secs loc. unfold time.nsPerSec, time.secPerDay in *.
    Z.div_mod_to_equations. lia.
  - lia.
  - lia.
  - lia.
  - Z.div_mod_to_equations; lia.
  - Z.div_mod_to_equations; lia.
  - Z.div_mod_to_equations; lia.
  - by apply parseFrac_appendNano.
  - apply parseZone_appendZone; [done|lia].
Qed.

(** The RFC 3339 text of a time parses back to the time, when the zone
    offset is a whole number of minutes. *)
Lemma parseRFC3339_appendStrictRFC3339 (t : time.Time) (s : string) :
  time.zone t mod 60 = 0 ->
  time.appendStrictRFC3339 t = Some s ->
  time.parseRFC3339 s = Some t.
Proof.
  intros Hzone Hs. pose proof (parseRFC3339_format t Hzone) as H.
  by rewrite Hs in H.
Qed.

(** *** String literals *)

Lemma code_bound (c : ascii) : 0 <= code c < 256.
Proof.
  unfold code. pose proof (N_ascii_bounded c). lia.
Qed.

Lemma appendBody_ascii (c : ascii) (r : string) :
  code c < 128 ->
  json.appendBody 0 (String c r) = asciiText c +:+ json.appendBody 0 r.
Proof.
  intros Hc. cbn [json.appendBody]. unfold asciiText.
  destruct (code c <? 128) eqn:E; [|lia].
  by destruct (json.htmlSafe c).
Qed.

Lemma scanString_asciiText (c : ascii) (x : string) :
  code c < 128 ->
  json.scanString (asciiText c +:+ x)
  = match json.scanString x with
    | Some (raw, rest) => Some (asciiText c +:+ raw, rest)
    | None => None
    end.
Proof.
  destruct c as [[] [] [] [] [] [] [] []]; intros Hc;
    try (vm_compute in Hc; discriminate Hc); reflexivity.
Qed.

Lemma unquote_asciiText (c : ascii) (x : string) :
  code c < 128 ->
  json.unquote 0 (asciiText c +:+ x) = String c (json.unquote 0 x).
Proof.
  destruct c as [[] [] [] [] [] [] [] []]; intros Hc;
    try (vm_compute in Hc; discriminate Hc); reflexivity.
Qed.

Lemma chr_code (c : ascii) : chr (code c) = c.
Proof.
  unfold chr, code. rewrite N2Z.id. apply ascii_N_embedding.
Qed.

Lemma code_inj (c : ascii) (n : Z) : code c = n -> c = chr n.
Proof. intros <-. by rewrite chr_code. Qed.

Lemma runeLen_cont (c : ascii) (r : string) (k : nat) :
  utf8.runeLen (String c r) = S k ->
  0xC2 <= code c /\ contBytes k r = true.
Proof.
  unfold utf8.runeLen.
  destruct (code c <? 0xC2) eqn:E1; [done|].
  destruct (code c <? 0xE0) eqn:E2.
  { destruct r as [|b1 r1]; [done|].
    destruct (utf8.between b1 128 191) eqn:B1; [|done].
    intros [= <-]. split; [lia|]. simpl. by rewrite B1. }
  destruct (code c <? 0xF0) eqn:E3.
  { destruct r as [|b1 [|b2 r2]]; [done..|].
    destruct (utf8.between b1 _ _) eqn:B1; [|done].
    destruct (utf8.between b2 _ _) eqn:B2; [|done].
    intros [= <-]. split; [lia|]. cbn [contBytes]. rewrite B2, andb_true_r.
    split_and?; try done.
    unfold utf8.between in *. destruct (code c =? 224), (code c =? 237); lia. }
  destruct (code c <? 0xF5) eqn:E4; [|done].
  destruct r as [|b1 [|b2 [|b3 r3]]]; [done..|].
  destruct (utf8.between b1 _ _) eqn:B1; [|done].
  destruct (utf8.between b2 _ _) eqn:B2; [|done].
  destruct (utf8.between b3 _ _) eqn:B3; [|done].
  intros [= <-]. split; [lia|]. cbn [contBytes]. rewrite B2, B3.
  rewrite !andb_true_r.
  unfold utf8.between in *. destruct (code c =? 240), (code c =? 244); lia.
Qed.

(** Copying the continuation bytes leaves the width of the rune. *)
Lemma runeLen_copied (f : nat -> string -> string) (c : ascii) (r : string) (k : nat) :
  (forall j b x, f (S j) (String b x) = String b (f j x)) ->
  utf8.runeLen (String c r) = S k ->
  utf8.runeLen (String c (f k r)) = S k.
Proof.
  intros Hf. unfold utf8.runeLen.
  destruct (code c <? 0xC2) eqn:E1; [done|].
  destruct (code c <? 0xE0) eqn:E2.
  { destruct r as [|b1 r1]; [done|].
    destruct (utf8.between b1 128 191) eqn:B1; [|done].
    intros [= <-]. by rewrite Hf, B1. }
  destruct (code c <? 0xF0) eqn:E3.
  { destruct r as [|b1 [|b2 r2]]; [done..|].
    destruct (utf8.between b1 _ _) eqn:B1; [|done].
    destruct (utf8.between b2 _ _) eqn:B2; [|done].
    intros [= <-]. by rewrite !Hf, B1, B2. }
  destruct (code c <? 0xF5) eqn:E4; [|done].
  destruct r as [|b1 [|b2 [|b3 r3]]]; [done..|].
  destruct (utf8.between b1 _ _) eqn:B1; [|done].
  destruct (utf8.between b2 _ _) eqn:B2; [|done].
  destruct (utf8.between b3 _ _) eqn:B3; [|done].
  intros [= <-]. by rewrite !Hf, B1, B2, B3.
Qed.

Lemma scanString_plain (c : ascii) (x : string) :
  32 <= code c -> c <> json.dquote -> c <> json.backslash ->
  json.scanString (String c x)
  = match json.scanString x with
    | Some (raw, rest) => Some (String c raw, rest)
    | None => None
    end.
Proof.
  intros Hc Hq Hb. cbn [json.scanString].
  destruct (Ascii.eqb_spec c json.dquote); [done|].
  destruct (Ascii.eqb_spec c json.backslash); [done|].
  destruct (code c <? 32) eqn:E; [lia|]. done.
Qed.

Lemma high_plain (c : ascii) :
  128 <= code c -> 32 <= code c /\ c <> json.dquote /\ c <> json.backslash.
Proof.
  intros Hc. split; [lia|]. split; intros ->; vm_compute in Hc; by apply Hc.
Qed.

Lemma lineSep_inv (s : string) (h : ascii) :
  json.lineSep s = Some h ->
  exists r, (s = String (chr 0xE2) (String (chr 0x80) (String (chr 0xA8) r))
             /\ h = "8"%char)
         \/ (s = String (chr 0xE2) (String (chr 0x80) (String (chr 0xA9) r))
             /\ h = "9"%char).
Proof.
  destruct s as [|b0 [|b1 [|b2 r]]]; try done. cbn [json.lineSep].
  destruct (code b0 =? 226) eqn:E0; [|done].
  destruct (code b1 =? 128) eqn:E1; [|done].
  apply Z.eqb_eq, code_inj in E0, E1. subst b0 b1.
  destruct (code b2 =? 168) eqn:E2.
  { apply Z.eqb_eq in E2. rewrite E2. apply code_inj in E2. subst b2.
    intros [= <-]. exists r. by left. }
  destruct (code b2 =? 169) eqn:E3; [|done].
  apply Z.eqb_eq in E3. rewrite E3. apply code_inj in E3. subst b2.
  intros [= <-]. exists r. by right.
Qed.

Lemma append_assoc (a b c : string) : (a +:+ b) +:+ c = a +:+ (b +:+ c).
Proof. induction a as [|x a IH]; simpl; [done|]. by rewrite IH. Qed.

Lemma between_high (c : ascii) : utf8.between c 0x80 0xBF = true -> 128 <= code c.
Proof. unfold utf8.between. lia. Qed.

Lemma unquote_high (c : ascii) (x : string) (k : nat) :
  128 <= code c -> utf8.runeLen (String c x) = S k ->
  json.unquote 0 (String c x) = String c (json.unquote k x).
Proof.
  intros Hc Hlen. cbn [json.unquote].
  destruct (high_plain c Hc) as (_ & _ & Hb).
  destruct (Ascii.eqb_spec c json.backslash); [done|].
  destruct (code c <? 128) eqn:E; [lia|]. by rewrite Hlen.
Qed.

(** The raw text that [appendBody] writes is scanned up to the closing
    quote, and [unquote] gives the encoded string back. *)
Lemma appendBody_roundtrip (n : nat) :
  forall (s : string) (skip : nat) (rest : string),
    (String.length s <= n)%nat ->
    contBytes skip s = true -> utf8.validFrom skip s = true ->
    json.scanString (json.appendBody skip s +:+ String json.dquote rest)
    = Some (json.appendBody skip s, rest)
    /\ json.unquote skip (json.appendBody skip s) = s.
Proof.
  induction n as [|n IH]; intros s skip rest Hlen Hcont Hvalid.
  { destruct s; [|simpl in Hlen; lia]. destruct skip; [|done].
    split; [|done]. cbn [json.appendBody String.append json.scanString].
    by rewrite Ascii.eqb_refl. }
  destruct s as [|c r].
  { destruct skip; [|done].
    split; [|done]. cbn [json.appendBody String.append json.scanString].
    by rewrite Ascii.eqb_refl. }
  simpl in Hlen. assert (Hr : (String.length r <= n)%nat) by lia.
  destruct skip as [|k].
  - cbn [utf8.validFrom] in Hvalid.
    destruct (code c <? 128) eqn:Hc.
    + (* an ASCII byte *)
      destruct (IH r 0%nat rest Hr eq_refl Hvalid) as [Hscan Hunq].
      rewrite appendBody_ascii by lia. split.
      * by rewrite append_assoc, scanString_asciiText, Hscan by lia.
      * by rewrite unquote_asciiText, Hunq by lia.
    + destruct (utf8.runeLen (String c r)) as [|k] eqn:Hlenr; [done|].
      destruct (json.lineSep (String c r)) as [h|] eqn:Hsep.
      * (* U+2028 and U+2029 *)
        apply lineSep_inv in Hsep as [r' [[Hs ->]|[Hs ->]]];
          injection Hs as -> ->;
          (assert (Hk : 3%nat = S k) by exact Hlenr); injection Hk as <-;
          (destruct (IH r' 0%nat rest ltac:(simpl in Hr; lia) eq_refl Hvalid)
             as [Hscan Hunq]);
          split.
        -- change (json.scanString
                     (String json.backslash (String "u" (String "2" (String "0"
                        (String "2" (String "8"
                           (json.appendBody 0 r' +:+ String json.dquote rest)))))))
                   = Some (String json.backslash (String "u" (String "2"
                             (String "0" (String "2" (String "8"
                                (json.appendBody 0 r')))))), rest)).
           cbn [json.scanString]. by rewrite Hscan.
        -- change (String (chr 226) (String (chr 128) (String (chr 168)
                      (json.unquote 0 (json.appendBody 0 r'))))
                   = String (chr 226) (String (chr 128) (String (chr 168) r'))).
           by rewrite Hunq.
        -- change (json.scanString
                     (String json.backslash (String "u" (String "2" (String "0"
                        (String "2" (String "9"
                           (json.appendBody 0 r' +:+ String json.dquote rest)))))))
                   = Some (String json.backslash (String "u" (String "2"
                             (String "0" (String "2" (String "9"
                                (json.appendBody 0 r')))))), rest)).
           cbn [json.scanString]. by rewrite Hscan.
        -- change (String (chr 226) (String (chr 128) (String (chr 169)
                      (json.unquote 0 (json.appendBody 0 r'))))
                   = String (chr 226) (String (chr 128) (String (chr 169) r'))).
           by rewrite Hunq.
      * (* any other rune: its bytes are copied *)
        assert (Hc' : 128 <= code c) by lia.
        destruct (runeLen_cont c r k Hlenr) as [_ Hck].
        destruct (IH r k rest Hr Hck Hvalid) as [Hscan Hunq].
        assert (Happ : json.appendBody 0 (String c r)
                       = String c (json.appendBody k r)).
        { cbn [json.appendBody]. rewrite Hc, Hlenr, Hsep. by destruct r. }
        rewrite Happ. destruct (high_plain c Hc') as (H32 & Hq & Hb). split.
        -- cbn [String.append]. by rewrite scanString_plain, Hscan.
        -- rewrite (unquote_high c _ k Hc'); [by rewrite Hunq|].
           by apply (runeLen_copied json.appendBody).
  - (* a continuation byte of a rune *)
    cbn [contBytes] in Hcont. apply andb_true_iff in Hcont as [Hc Hck].
    cbn [utf8.validFrom] in Hvalid.
    destruct (IH r k rest Hr Hck Hvalid) as [Hscan Hunq].
    destruct (high_plain c (between_high c Hc)) as (H32 & Hq & Hb).
    cbn [json.appendBody String.append json.unquote]. split.
    + by rewrite scanString_plain, Hscan.
    + by rewrite Hunq.
Qed.

(** *** Plain text *)

Lemma scanString_plainText (s rest : string) :
  plainText s = true ->
  json.scanString (s +:+ String json.dquote rest) = Some (s, rest).
Proof.
  induction s as [|c s IH]; intros Hp.
  - cbn [String.append json.scanString]. by rewrite Ascii.eqb_refl.
  - cbn [plainText] in Hp. apply andb_true_iff in Hp as [Hc Hs].
    unfold plainByte in Hc.
    apply andb_true_iff in Hc as [Hc Hb]. apply andb_true_iff in Hc as [Hc Hq].
    cbn [String.append]. rewrite scanString_plain, IH; try done.
    + lia.
    + intros ->. by rewrite Ascii.eqb_refl in Hq.
    + intros ->. by rewrite Ascii.eqb_refl in Hb.
Qed.

Lemma plainText_app (a b : string) :
  plainText (a +:+ b) = plainText a && plainText b.
Proof.
  induction a as [|c a IH]; simpl; [done|]. by rewrite IH, andb_assoc.
Qed.

Lemma isDigit_plain (c : ascii) : isDigit c = true -> plainByte c = true.
Proof.
  destruct c as [[] [] [] [] [] [] [] []]; intros H; try done.
Qed.

Lemma allDigits_plain (s : string) : allDigits s = true -> plainText s = true.
Proof.
  induction s as [|c s IH]; simpl; [done|].
  intros [Hc Hs]%andb_true_iff. by rewrite isDigit_plain, IH.
Qed.

Lemma pad2_plain (x : Z) : 0 <= x < 100 -> plainText (time.pad2 x) = true.
Proof.
  intros Hx. apply allDigits_plain. unfold time.pad2. cbn [allDigits].
  by rewrite !isDigit_digit by (Z.div_mod_to_equations; lia).
Qed.

Lemma pad4_plain (x : Z) : 0 <= x < 10000 -> plainText (time.pad4 x) = true.
Proof. intros Hx. apply allDigits_plain. by apply pad4_digits. Qed.

Lemma appendNano_plain (n : Z) :
  0 <= n < 1000000000 -> plainText (time.appendNano n) = true.
Proof.
  intros Hn. unfold time.appendNano. destruct (n =? 0); [done|].
  cbn [plainText]. rewrite allDigits_plain; [done|].
  apply trimZeros_allDigits. by apply pad9_digits.
Qed.

Lemma appendZone_plain (off : Z) :
  Z.abs (Z.quot off 60) / 60 < 24 -> plainText (time.appendZone off) = true.
Proof.
  intros Hh. unfold time.appendZone. destruct (off =? 0); [done|].
  rewrite !plainText_app, !pad2_plain by (Z.div_mod_to_equations; lia).
  by destruct (Z.quot off 60 <? 0).
Qed.

Lemma appendStrictRFC3339_plain (t : time.Time) (s : string) :
  time.appendStrictRFC3339 t = Some s -> plainText s = true.
Proof.
  unfold time.appendStrictRFC3339.
  set (loc := time.abs_ns t + time.zone t * time.nsPerSec).
  set (secs := loc / time.nsPerSec). set (nsec := loc mod time.nsPerSec).
  set (days := secs / time.secPerDay). set (sod := secs mod time.secPerDay).
  pose proof (absDate_fields days) as Hdate.
  destruct (time.absDate days) as [[year month] day].
  destruct Hdate as (Hmo & Hd & Hback).
  destruct ((year <? 0) || (9999 <? year)) eqn:Hy; [done|].
  destruct (24 <=? Z.abs (Z.quot (time.zone t) 60) / 60) eqn:Hzh; [done|].
  assert (Hns : 0 <= nsec < 1000000000)
    by (subst nsec; apply Z.mod_pos_bound; unfold time.nsPerSec; lia).
  assert (Hsod : 0 <= sod < 86400)
    by (subst sod; apply Z.mod_pos_bound; unfold time.secPerDay; lia).
  assert (Hd31 : time.daysIn month year <= 31).
  { unfold time.daysIn. repeat destruct (_ =? _); simpl; try lia.
    destruct (time.isLeap year); lia. }
  intros Hs. apply (inj Some) in Hs. subst s.
  rewrite !plainText_app.
  rewrite pad4_plain, !pad2_plain, appendNano_plain, appendZone_plain;
    try done; try lia; Z.div_mod_to_equations; lia.
Qed.

(** *** The object of a record *)

Lemma quoted_app (body rest : string) :
  json.quoted body +:+ rest
  = String json.dquote (body +:+ String json.dquote rest).
Proof. unfold json.quoted. cbn [String.append]. by rewrite append_assoc. Qed.

Lemma skipSpace_other (c : ascii) (x : string) :
  json.isSpace c = false -> json.skipSpace (String c x) = String c x.
Proof. intros Hc. cbn [json.skipSpace]. by rewrite Hc. Qed.

Lemma parseValue_string (fuel : nat) (depth : Z) (raw rest : string) :
  scans raw ->
  json.parseValue (S fuel) depth (String json.dquote (raw +:+ String json.dquote rest))
  = Some (json.Str raw, rest).
Proof.
  intros Hraw. cbn [json.parseValue]. by rewrite Ascii.eqb_refl, Hraw.
Qed.

Lemma parseMembers_last (fuel : nat) (depth : Z) (k raw rest : string) :
  scans k -> scans raw ->
  json.parseMembers (S (S fuel)) depth
    (json.quoted k +:+ ":" +:+ json.quoted raw +:+ String "}" rest)
  = Some ([(k, json.Str raw)], rest).
Proof.
  intros Hk Hraw. rewrite !quoted_app. cbn [String.append].
  cbn [json.parseMembers]. rewrite Ascii.eqb_refl, Hk.
  rewrite !skipSpace_other by reflexivity.
  rewrite parseValue_string by done.
  by rewrite skipSpace_other by reflexivity.
Qed.

Lemma parseMembers_more (fuel : nat) (depth : Z) (k raw tail rest : string)
    (ms : list (string * json.value)) :
  scans k -> scans raw ->
  json.parseMembers (S fuel) depth (json.skipSpace tail) = Some (ms, rest) ->
  json.parseMembers (S (S fuel)) depth
    (json.quoted k +:+ ":" +:+ json.quoted raw +:+ String "," tail)
  = Some ((k, json.Str raw) :: ms, rest).
Proof.
  intros Hk Hraw Htail. rewrite !quoted_app. cbn [String.append].
  cbn [json.parseMembers]. rewrite Ascii.eqb_refl, Hk.
  rewrite !skipSpace_other by reflexivity.
  rewrite parseValue_string by done.
  rewrite skipSpace_other by reflexivity.
  cbn [json.parseMembers] in Htail. by rewrite Htail.
Qed.

Lemma skipSpace_quoted (k x : string) :
  json.skipSpace (json.quoted k +:+ x) = json.quoted k +:+ x.
Proof. rewrite quoted_app. by apply skipSpace_other. Qed.

Lemma parseValue_object (fuel : nat) (depth : Z) (k x : string) :
  depth + 1 <= json.maxNestingDepth ->
  json.parseValue (S fuel) depth (String "{" (json.quoted k +:+ x))
  = match json.parseMembers fuel (depth + 1) (json.quoted k +:+ x) with
    | Some (ms, rest) => Some (json.Object ms, rest)
    | None => None
    end.
Proof.
  intros Hd. rewrite quoted_app. cbn [json.parseValue].
  change (Ascii.eqb "{" json.dquote) with false.
  change (Ascii.eqb "{" "{") with true. cbv iota.
  destruct (json.maxNestingDepth <? depth + 1) eqn:E; [lia|]. reflexivity.
Qed.

Lemma parseValue_object2 (fuel : nat) (depth : Z) (k1 raw1 k2 raw2 : string) :
  depth + 1 <= json.maxNestingDepth ->
  scans k1 -> scans raw1 -> scans k2 -> scans raw2 ->
  json.parseValue (S (S (S (S fuel)))) depth (object2 k1 raw1 k2 raw2)
  = Some (json.Object [(k1, json.Str raw1); (k2, json.Str raw2)], "").
Proof.
  intros Hd H1 H2 H3 H4. unfold object2.
  change ("{" +:+ ?x) with (String "{" x).
  change ("," +:+ ?x) with (String "," x).
  change (?x +:+ "}") with (x +:+ String "}" "").
  rewrite parseValue_object by done.
  rewrite (parseMembers_more (S fuel) _ k1 raw1 _ "" [(k2, json.Str raw2)]);
    try done.
  rewrite skipSpace_quoted. by apply parseMembers_last.
Qed.

Lemma object2_length (k1 raw1 k2 raw2 : string) :
  exists fuel, S (String.length (object2 k1 raw1 k2 raw2)) = S (S (S (S fuel))).
Proof.
  unfold object2. rewrite !quoted_app. cbn [String.append String.length].
  destruct k1; cbn [String.append String.length]; eauto.
Qed.

Lemma parse_object2 (k1 raw1 k2 raw2 : string) :
  scans k1 -> scans raw1 -> scans k2 -> scans raw2 ->
  json.parse (object2 k1 raw1 k2 raw2)
  = Some (json.Object [(k1, json.Str raw1); (k2, json.Str raw2)]).
Proof.
  intros H1 H2 H3 H4. unfold json.parse.
  destruct (object2_length k1 raw1 k2 raw2) as [fuel ->].
  assert (Hsk : json.skipSpace (object2 k1 raw1 k2 raw2)
                = object2 k1 raw1 k2 raw2) by reflexivity.
  rewrite Hsk, parseValue_object2 by (done || (unfold json.maxNestingDepth; lia)).
  reflexivity.
Qed.

Lemma Marshal_object2 (v : state) (buf : string) :
  json.Marshal v = Some buf ->
  exists ts, time.appendStrictRFC3339 (TS v) = Some ts
    /\ buf = object2 "TS" ts "Value" (json.appendBody 0 (Value v)).
Proof.
  unfold json.Marshal, json.marshalTime.
  destruct (time.appendStrictRFC3339 (TS v)) as [ts|]; [|done].
  intros Hbuf. apply (inj Some) in Hbuf. subst buf. by exists ts.
Qed.

(** A [state] that [json.Marshal] encodes is decoded from the text by
    [json.Unmarshal], when its zone offset is a whole number of minutes
    and its value is well-formed UTF-8. *)
Lemma Unmarshal_Marshal (v : state) (buf : string) :
  time.zone (TS v) mod 60 = 0 ->
  utf8.validFrom 0 (Value v) = true ->
  json.Marshal v = Some buf ->
  json.Unmarshal buf = Some v.
Proof.
  intros Hzone Hvalid Hbuf.
  destruct (Marshal_object2 v buf Hbuf) as (ts & Hts & ->).
  unfold json.Unmarshal. rewrite parse_object2.
  - cbn [json.decodeMembers].
    change (json.fieldByName (json.unquote 0 "TS")) with (Some json.fieldTS).
    change (json.fieldByName (json.unquote 0 "Value")) with (Some json.fieldValue).
    cbn [json.unmarshalTime json.unmarshalString].
    unfold time.parseStrictRFC3339.
    rewrite (parseRFC3339_appendStrictRFC3339 _ _ Hzone Hts).
    cbn [TS Value].
    destruct (appendBody_roundtrip _ (Value v) 0%nat "" (le_n _) eq_refl Hvalid)
      as [_ ->].
    by destruct v.
  - intros rest. by apply scanString_plainText.
  - intros rest. apply scanString_plainText.
    by apply (appendStrictRFC3339_plain (TS v)).
  - intros rest. by apply scanString_plainText.
  - intros rest.
    by apply (appendBody_roundtrip _ (Value v) 0%nat rest (le_n _) eq_refl Hvalid).
Qed.

(** *** The fuel of the parser *)

Section ParserFuel.

Local Open Scope nat_scope.

Lemma skipSpace_length (s : string) :
  String.length (json.skipSpace s) <= String.length s.
Proof.
  induction s as [|c s IH]; simpl; [lia|].
  destruct (json.isSpace c); simpl; lia.
Qed.

Lemma scanString_length (n : nat) :
  forall s raw rest, String.length s <= n ->
    json.scanString s = Some (raw, rest) ->
    String.length rest < String.length s.
Proof.
  induction n as [|n IH]; intros s raw rest Hlen.
  { destruct s; [done|simpl in Hlen; lia]. }
  destruct s as [|c r]; [done|]. simpl in Hlen.
  cbn [json.scanString].
  destruct (Ascii.eqb c json.dquote); [intros [= _ <-]; simpl; lia|].
  destruct (Ascii.eqb c json.backslash).
  - destruct r as [|e r1]; [done|]. simpl in Hlen.
    destruct (json.isSimpleEscape e).
    + destruct (json.scanString r1) as [[raw1 rest1]|] eqn:Hs; [|done].
      intros [= _ <-]. apply IH in Hs; simpl; lia.
    + destruct (Ascii.eqb e "u"); [|done].
      destruct r1 as [|h1 [|h2 [|h3 [|h4 r2]]]]; try done. simpl in Hlen.
      destruct (_ && _); [|done].
      destruct (json.scanString r2) as [[raw2 rest2]|] eqn:Hs; [|done].
      intros [= _ <-]. apply IH in Hs; simpl; lia.
  - destruct (code c <? 32)%Z; [done|].
    destruct (json.scanString r) as [[raw1 rest1]|] eqn:Hs; [|done].
    intros [= _ <-]. apply IH in Hs; simpl; lia.
Qed.

Lemma scanDigits_length (s : string) :
  String.length (json.scanDigits s) <= String.length s.
Proof.
  induction s as [|c s IH]; simpl; [lia|].
  destruct (isDigit c); simpl; lia.
Qed.

Lemma scanNumber_length (s rest : string) :
  json.scanNumber s = Some rest -> String.length rest < String.length s.
Proof.
  unfold json.scanNumber.
  set (s1 := match s with String "-" r => r | _ => s end).
  assert (H1 : String.length s1 <= String.length s).
  { subst s1. destruct s as [|c r]; [done|].
    destruct c as [[] [] [] [] [] [] [] []]; simpl; lia. }
  destruct (match s1 with
            | String "0" r => Some r
            | String c r => if isDigit c then Some (json.scanDigits r) else None
            | EmptyString => None
            end) as [s2|] eqn:E2; [|done].
  assert (H2 : String.length s2 < String.length s1).
  { destruct s1 as [|c r]; [done|].
    pose proof (scanDigits_length r).
    destruct c as [[] [] [] [] [] [] [] []]; simpl in E2 |- *;
      try discriminate E2;
      try (injection E2 as <-; lia);
      destruct (isDigit _); try discriminate E2; injection E2 as <-; lia. }
  destruct (match s2 with
            | String "." (String d r) =>
                if isDigit d then Some (json.scanDigits r) else None
            | String "." EmptyString => None
            | _ => Some s2
            end) as [s3|] eqn:E3; [|done].
  assert (H3 : String.length s3 <= String.length s2).
  { destruct s2 as [|c r]; [by injection E3 as <-|].
    destruct r as [|d r'].
    - destruct c as [[] [] [] [] [] [] [] []]; simpl in E3 |- *;
        try discriminate E3; injection E3 as <-; simpl; lia.
    - pose proof (scanDigits_length r').
      destruct c as [[] [] [] [] [] [] [] []]; simpl in E3 |- *;
        try (injection E3 as <-; simpl; lia).
      destruct (isDigit d); [|done]. injection E3 as <-. lia. }
  destruct s3 as [|e r]; [intros [= <-]; simpl in *; lia|].
  destruct (Ascii.eqb e "e" || Ascii.eqb e "E"); [|intros [= <-]; lia].
  set (r1 := match r with
             | String "+" r' => r'
             | String "-" r' => r'
             | _ => r
             end).
  assert (H4 : String.length r1 <= String.length r).
  { subst r1. destruct r as [|c r']; [done|].
    destruct c as [[] [] [] [] [] [] [] []]; simpl; lia. }
  destruct r1 as [|d r2]; [done|].
  destruct (isDigit d); [|done]. intros [= <-].
  pose proof (scanDigits_length r2). simpl in *. lia.
Qed.

Lemma stripPrefix_length (p : string) :
  forall s rest, json.stripPrefix p s = Some rest ->
    String.length rest + String.length p = String.length s.
Proof.
  induction p as [|a p IH]; intros s rest; simpl.
  - intros [= <-]. lia.
  - destruct s as [|b s]; [done|]. destruct (Ascii.eqb a b); [|done].
    intros H%IH. simpl. lia.
Qed.

(** The length of what [skipSpace] leaves, for each equation on it. *)
Ltac skip_facts :=
  repeat match goal with
  | H : json.skipSpace ?r = _ |- _ =>
      let F := fresh "Hlen" in
      pose proof (skipSpace_length r) as F; rewrite H in F;
      cbn [String.length] in F; revert H
  end; intros.

Lemma enough_parseValue (fuel : nat) :
  (forall d, enough (fun g => json.parseMembers g d) fuel) ->
  (forall d, enough (fun g => json.parseElements g d) fuel) ->
  forall d, enough (fun g => json.parseValue g d) (S fuel).
Proof.
  intros IHM IHE d s v rest H. cbv beta in *.
  destruct s as [|c r]; [done|]. cbn [json.parseValue] in H.
  cbn [String.length].
  destruct (Ascii.eqb c json.dquote) eqn:Edq.
  { destruct (json.scanString r) as [[raw rest']|] eqn:Hs; [|done].
    injection H as <- <-.
    pose proof (scanString_length _ _ _ _ (le_n _) Hs).
    split; [lia|]. intros [|g] Hg; [lia|].
    cbn [json.parseValue]. by rewrite Edq, Hs. }
  destruct (Ascii.eqb c "{") eqn:Eobj.
  { destruct (json.maxNestingDepth <? d + 1)%Z eqn:Edep; [done|].
    destruct (json.skipSpace r) as [|c1 r1] eqn:Hsk.
    - destruct (json.parseMembers fuel (d + 1)%Z "") as [[ms rest']|] eqn:Hm;
        [|done].
      apply (IHM (d + 1)%Z) in Hm as [Hl _]. simpl in Hl. lia.
    - skip_facts.
      destruct c1 as [[] [] [] [] [] [] [] []];
        first
          [ injection H as <- <-; split; [lia|]; intros [|g] Hg; [lia|];
            cbn [json.parseValue]; by rewrite Edq, Eobj, Edep, Hsk
          | destruct (json.parseMembers fuel (d + 1)%Z _) as [[ms rest']|] eqn:Hm;
            [|done]; injection H as <- <-;
            destruct (IHM (d + 1)%Z _ _ _ Hm) as [Hl Hmore];
            cbn [String.length] in Hl;
            split; [lia|]; intros [|g] Hg; [lia|];
            cbn [json.parseValue]; rewrite Edq, Eobj, Edep, Hsk;
            rewrite Hmore by (cbn [String.length]; lia); done ]. }
  destruct (Ascii.eqb c "[") eqn:Earr.
  { destruct (json.maxNestingDepth <? d + 1)%Z eqn:Edep; [done|].
    destruct (json.skipSpace r) as [|c1 r1] eqn:Hsk.
    - destruct (json.parseElements fuel (d + 1)%Z "") as [[ms rest']|] eqn:Hm;
        [|done].
      apply (IHE (d + 1)%Z) in Hm as [Hl _]. simpl in Hl. lia.
    - skip_facts.
      destruct c1 as [[] [] [] [] [] [] [] []];
        first
          [ injection H as <- <-; split; [lia|]; intros [|g] Hg; [lia|];
            cbn [json.parseValue]; by rewrite Edq, Eobj, Earr, Edep, Hsk
          | destruct (json.parseElements fuel (d + 1)%Z _) as [[ms rest']|] eqn:Hm;
            [|done]; injection H as <- <-;
            destruct (IHE (d + 1)%Z _ _ _ Hm) as [Hl Hmore];
            cbn [String.length] in Hl;
            split; [lia|]; intros [|g] Hg; [lia|];
            cbn [json.parseValue]; rewrite Edq, Eobj, Earr, Edep, Hsk;
            rewrite Hmore by (cbn [String.length]; lia); done ]. }
  destruct (Ascii.eqb c "t") eqn:Et.
  { destruct (json.stripPrefix "rue" r) as [rest'|] eqn:Hp; [|done].
    injection H as <- <-. apply stripPrefix_length in Hp as Hl. simpl in Hl.
    split; [lia|]. intros [|g] Hg; [lia|].
    cbn [json.parseValue]. by rewrite Edq, Eobj, Earr, Et, Hp. }
  destruct (Ascii.eqb c "f") eqn:Ef.
  { destruct (json.stripPrefix "alse" r) as [rest'|] eqn:Hp; [|done].
    injection H as <- <-. apply stripPrefix_length in Hp as Hl. simpl in Hl.
    split; [lia|]. intros [|g] Hg; [lia|].
    cbn [json.parseValue]. by rewrite Edq, Eobj, Earr, Et, Ef, Hp. }
  destruct (Ascii.eqb c "n") eqn:En.
  { destruct (json.stripPrefix "ull" r) as [rest'|] eqn:Hp; [|done].
    injection H as <- <-. apply stripPrefix_length in Hp as Hl. simpl in Hl.
    split; [lia|]. intros [|g] Hg; [lia|].
    cbn [json.parseValue]. by rewrite Edq, Eobj, Earr, Et, Ef, En, Hp. }
  destruct (json.scanNumber (String c r)) as [rest'|] eqn:Hn; [|done].
  injection H as <- <-. apply scanNumber_length in Hn as Hl.
  cbn [String.length] in Hl.
  split; [lia|]. intros [|g] Hg; [lia|].
  cbn [json.parseValue]. by rewrite Edq, Eobj, Earr, Et, Ef, En, Hn.
Qed.

Lemma enough_parseMembers (fuel : nat) :
  (forall d, enough (fun g => json.parseValue g d) fuel) ->
  (forall d, enough (fun g => json.parseMembers g d) fuel) ->
  forall d, enough (fun g => json.parseMembers g d) (S fuel).
Proof.
  intros IHV IHM d s ms rest H. cbv beta in *.
  destruct s as [|c r]; [done|]. cbn [json.parseMembers] in H.
  cbn [String.length].
  destruct (Ascii.eqb c json.dquote) eqn:Edq; [|done].
  destruct (json.scanString r) as [[key r1]|] eqn:Hkey; [|done].
  pose proof (scanString_length _ _ _ _ (le_n _) Hkey) as Lkey.
  destruct (json.skipSpace r1) as [|c1 r2] eqn:Hsk1; [done|].
  destruct c1 as [[] [] [] [] [] [] [] []]; try done.
  destruct (json.parseValue fuel d (json.skipSpace r2)) as [[v r3]|] eqn:Hv;
    [|done].
  destruct (IHV d _ _ _ Hv) as [Lv Hvmore].
  pose proof (skipSpace_length r2) as Lsk2.
  destruct (json.skipSpace r3) as [|c3 r4] eqn:Hsk3; [done|].
  skip_facts.
  destruct c3 as [[] [] [] [] [] [] [] []]; try done.
  - injection H as <- <-. split; [lia|]. intros [|g] Hg; [lia|].
    cbn [json.parseMembers]. rewrite Edq, Hkey, Hsk1.
    rewrite Hvmore by lia. by rewrite Hsk3.
  - destruct (json.parseMembers fuel d (json.skipSpace r4)) as [[ms' rest']|]
      eqn:Hm; [|done].
    injection H as <- <-.
    destruct (IHM d _ _ _ Hm) as [Lm Hmmore].
    pose proof (skipSpace_length r4) as Lsk4.
    split; [lia|]. intros [|g] Hg; [lia|].
    cbn [json.parseMembers]. rewrite Edq, Hkey, Hsk1.
    rewrite Hvmore by lia. rewrite Hsk3.
    by rewrite Hmmore by lia.
Qed.

Lemma enough_parseElements (fuel : nat) :
  (forall d, enough (fun g => json.parseValue g d) fuel) ->
  (forall d, enough (fun g => json.parseElements g d) fuel) ->
  forall d, enough (fun g => json.parseElements g d) (S fuel).
Proof.
  intros IHV IHE d s vs rest H. cbv beta in *. cbn [json.parseElements] in H.
  destruct (json.parseValue fuel d s) as [[v r1]|] eqn:Hv; [|done].
  destruct (IHV d _ _ _ Hv) as [Lv Hvmore].
  destruct (json.skipSpace r1) as [|c r2] eqn:Hsk1; [done|].
  skip_facts.
  destruct c as [[] [] [] [] [] [] [] []]; try done.
  - injection H as <- <-. split; [lia|]. intros [|g] Hg; [lia|].
    cbn [json.parseElements]. rewrite Hvmore by lia. by rewrite Hsk1.
  - destruct (json.parseElements fuel d (json.skipSpace r2)) as [[vs' rest']|]
      eqn:Hm; [|done].
    injection H as <- <-.
    destruct (IHE d _ _ _ Hm) as [Lm Hmmore].
    pose proof (skipSpace_length r2) as Lsk2.
    split; [lia|]. intros [|g] Hg; [lia|].
    cbn [json.parseElements]. rewrite Hvmore by lia. rewrite Hsk1.
    by rewrite Hmmore by lia.
Qed.

Lemma enough_all (fuel : nat) :
  (forall d, enough (fun g => json.parseValue g d) fuel)
  /\ (forall d, enough (fun g => json.parseMembers g d) fuel)
  /\ (forall d, enough (fun g => json.parseElements g d) fuel).
Proof.
  induction fuel as [|fuel (IHV & IHM & IHE)].
  - unfold enough. split; [|split]; intros d ??? Hnone; discriminate Hnone.
  - split; [by apply enough_parseValue|].
    split; [by apply enough_parseMembers | by apply enough_parseElements].
Qed.

(** The fuel that [parse] gives is enough: a text that has a value for
    some fuel has it for the fuel of [parse]. *)
Lemma parse_fuel_enough (fuel : nat) (depth : Z) (data rest : string)
    (v : json.value) :
  json.parseValue fuel depth (json.skipSpace data) = Some (v, rest) ->
  json.parseValue (S (String.length data)) depth (json.skipSpace data)
  = Some (v, rest).
Proof.
  intros H. destruct (enough_all fuel) as [HV _].
  destruct (HV depth _ _ _ H) as [_ Hmore]. apply Hmore.
  pose proof (skipSpace_length data). lia.
Qed.

End ParserFuel.

(** *** Decoded records are well-formed *)

Lemma parseUint_range (s : string) (lo hi x : Z) :
  time.parseUint s lo hi = Some x -> lo <= x <= hi.
Proof.
  unfold time.parseUint. destruct (time.atoi 0 s) as [v|]; [|done].
  destruct ((v <? lo) || (hi <? v)) eqn:E; [done|].
  intros [= <-]. lia.
Qed.

Lemma atoi_bound (s : string) :
  forall acc v, 0 <= acc -> time.atoi acc s = Some v ->
    acc * 10 ^ len s <= v < (acc + 1) * 10 ^ len s.
Proof.
  induction s as [|c s IH]; intros acc v Hacc; simpl.
  - intros [= <-]. change (len "") with 0. lia.
  - destruct (isDigit c) eqn:Hc; [|done].
    apply isDigit_bounds in Hc. intros Hv.
    apply IH in Hv; [|lia].
    rewrite len_cons, Z.pow_add_r by (pose proof (len_nonneg s); lia).
    assert (0 < 10 ^ len s) by (apply Z.pow_pos_nonneg; pose proof (len_nonneg s); lia).
    nia.
Qed.

Lemma take_len (n : nat) (s : string) : len (time.take n s) <= Z.of_nat n.
Proof.
  revert s. induction n as [|n IH]; intros [|c s]; simpl;
    try (change (len "") with 0; lia).
  rewrite len_cons. specialize (IH s). lia.
Qed.

Lemma parseNanoseconds_range (digits : string) :
  0 <= time.parseNanoseconds digits < 1000000000.
Proof.
  unfold time.parseNanoseconds.
  pose proof (take_len 9 digits) as Hl.
  pose proof (len_nonneg (time.take 9 digits)) as H0.
  destruct (time.atoi 0 (time.take 9 digits)) as [x|] eqn:Hx; [|lia].
  apply atoi_bound in Hx; [|lia].
  set (l := len (time.take 9 digits)) in *.
  assert (Hp : 10 ^ l * 10 ^ (9 - l) = 10 ^ 9)
    by (rewrite <- Z.pow_add_r by lia; f_equal; lia).
  assert (0 < 10 ^ (9 - l)) by (apply Z.pow_pos_nonneg; lia).
  change 1000000000 with (10 ^ 9). nia.
Qed.

Lemma parseFrac_range (s rest : string) (nsec : Z) :
  time.parseFrac s = (nsec, rest) -> 0 <= nsec < 1000000000.
Proof.
  unfold time.parseFrac.
  destruct s as [|c [|d r]]; try (intros [= <- _]; lia).
  - destruct c as [[] [] [] [] [] [] [] []]; intros [= <- _]; lia.
  - destruct (Ascii.eqb_spec c "."%char) as [->|Hne].
    + destruct (isDigit d); [|intros [= <- _]; lia].
      destruct (time.spanDigits r) as [ds r']. intros [= <- _].
      apply parseNanoseconds_range.
    + destruct c as [[] [] [] [] [] [] [] []]; try done; intros [= <- _]; lia.
Qed.

Lemma zone_of_fields (hr mm o : Z) :
  0 <= hr <= 23 -> 0 <= mm <= 59 ->
  o = (hr * 60 + mm) * 60 \/ o = - ((hr * 60 + mm) * 60) ->
  o mod 60 = 0 /\ Z.abs (Z.quot o 60) / 60 < 24.
Proof.
  intros Hhr Hmm [-> | ->].
  - rewrite Z.quot_mul by lia. split; [by apply Z.mod_mul|].
    Z.div_mod_to_equations; lia.
  - replace (- ((hr * 60 + mm) * 60)) with ((- (hr * 60 + mm)) * 60) by lia.
    rewrite Z.quot_mul by lia. split; [by apply Z.mod_mul|].
    Z.div_mod_to_equations; lia.
Qed.

Lemma parseZone_numeric (sg h1 h2 c m1 m2 : ascii) (off : Z) :
  match time.parseUint (String h1 (String h2 "")) 0 23,
        time.parseUint (String m1 (String m2 "")) 0 59 with
  | Some hr, Some mm =>
      if Ascii.eqb c ":" then
        if Ascii.eqb sg "+" then Some ((hr * 60 + mm) * 60)
        else if Ascii.eqb sg "-" then Some (- ((hr * 60 + mm) * 60))
        else None
      else None
  | _, _ => None
  end = Some off ->
  off mod 60 = 0 /\ Z.abs (Z.quot off 60) / 60 < 24.
Proof.
  destruct (time.parseUint (String h1 (String h2 "")) 0 23) as [hr|] eqn:Hhr;
    [|done].
  destruct (time.parseUint (String m1 (String m2 "")) 0 59) as [mm|] eqn:Hmm;
    [|done].
  apply parseUint_range in Hhr, Hmm.
  destruct (Ascii.eqb c ":"); [|done].
  destruct (Ascii.eqb sg "+"); [intros [= <-]; eapply zone_of_fields; eauto|].
  destruct (Ascii.eqb sg "-"); [intros [= <-]; eapply zone_of_fields; eauto|done].
Qed.

Lemma parseZone_range (s : string) (off : Z) :
  time.parseZone s = Some off ->
  off mod 60 = 0 /\ Z.abs (Z.quot off 60) / 60 < 24.
Proof.
  destruct s as [|c0 s1]; [done|].
  destruct s1 as [|h1 s2].
  { destruct c0 as [[] [] [] [] [] [] [] []]; try done. by intros [= <-]. }
  destruct s2 as [|h2 s3]; [by destruct c0 as [[] [] [] [] [] [] [] []]|].
  destruct s3 as [|c s4]; [by destruct c0 as [[] [] [] [] [] [] [] []]|].
  destruct s4 as [|m1 s5]; [by destruct c0 as [[] [] [] [] [] [] [] []]|].
  destruct s5 as [|m2 s6]; [by destruct c0 as [[] [] [] [] [] [] [] []]|].
  destruct s6 as [|x r]; [|by destruct c0 as [[] [] [] [] [] [] [] []]].
  intros Hz. apply (parseZone_numeric c0 h1 h2 c m1 m2).
  by destruct c0 as [[] [] [] [] [] [] [] []].
Qed.

Lemma daysSinceEpoch_range (year month day : Z) :
  0 <= year <= 9999 -> 1 <= month <= 12 -> 1 <= day <= 31 ->
  -366 <= time.daysSinceEpoch year month day < 3652059.
Proof.
  intros Hy Hm Hd. unfold time.daysSinceEpoch.
  destruct (month <=? 2) eqn:E1; destruct (2 <? month) eqn:E2;
    Z.div_mod_to_equations; lia.
Qed.

Lemma daysIn_le (month year : Z) : time.daysIn month year <= 31.
Proof.
  unfold time.daysIn. repeat destruct (_ =? _); simpl; try lia.
  destruct (time.isLeap year); lia.
Qed.

(** A time that [parseRFC3339] returns is one that [appendStrictRFC3339]
    accepts. *)
Lemma parseRFC3339_strict (s : string) (t : time.Time) :
  time.parseRFC3339 s = Some t -> strictRFC3339 t = true.
Proof.
  unfold time.parseRFC3339.
  destruct s as [|y1 [|y2 [|y3 [|y4 [|c4 [|o1 [|o2 [|c7 [|d1 [|d2 [|c10
    [|h1 [|h2 [|c13 [|i1 [|i2 [|c16 [|s1 [|s2 s]]]]]]]]]]]]]]]]]]];
    try done.
  destruct (time.parseUint _ 0 9999) as [year|] eqn:Hy; [|done].
  destruct (time.parseUint _ 1 12) as [month|] eqn:Hmo; [|done].
  destruct (time.parseUint _ 1 (time.daysIn month year)) as [day|] eqn:Hd;
    [|done].
  destruct (time.parseUint _ 0 23) as [hour|] eqn:Hh; [|done].
  destruct (time.parseUint (String i1 _) 0 59) as [min|] eqn:Hmi; [|done].
  destruct (time.parseUint (String s1 _) 0 59) as [sec|] eqn:Hs; [|done].
  apply parseUint_range in Hy, Hmo, Hd, Hh, Hmi, Hs.
  destruct (_ && _); [|done].
  destruct (time.parseFrac s) as [nsec rest] eqn:Hfrac.
  apply parseFrac_range in Hfrac.
  destruct (time.parseZone rest) as [off|] eqn:Hz; [|done].
  apply parseZone_range in Hz as [Hz1 Hz2].
  intros [= <-]. unfold strictRFC3339. cbn [time.abs_ns time.zone].
  pose proof (daysIn_le month year).
  pose proof (daysSinceEpoch_range year month day ltac:(lia) ltac:(lia)
                ltac:(lia)) as Hdays.
  unfold time.Date, time.nsPerSec, time.secPerDay.
  set (days := time.daysSinceEpoch year month day) in *.
  repeat (apply andb_true_iff; split); lia.
Qed.

Lemma getnum_range (s r : string) (fixed : bool) (n : Z) :
  time.getnum s fixed = Some (n, r) -> 0 <= n <= 99.
Proof.
  unfold time.getnum. destruct s as [|c1 [|c2 r2]]; [done|..].
  - destruct (isDigit c1) eqn:H1; [|done]. apply isDigit_bounds in H1.
    destruct fixed; [done|]. intros [= <- _]. lia.
  - destruct (isDigit c1) eqn:H1; [|done]. apply isDigit_bounds in H1.
    destruct (isDigit c2) eqn:H2.
    + apply isDigit_bounds in H2. intros [= <- _]. lia.
    + destruct fixed; [done|]. intros [= <- _]. lia.
Qed.

Lemma parseFracLayout_range (s rest : string) (nsec : Z) :
  time.parseFracLayout s = (nsec, rest) -> 0 <= nsec < 1000000000.
Proof.
  unfold time.parseFracLayout.
  destruct s as [|c [|d r]]; try (intros [= <- _]; lia).
  destruct (time.commaOrPeriod c && isDigit d); [|intros [= <- _]; lia].
  destruct (time.spanDigits r) as [ds r']. intros [= <- _].
  apply parseNanoseconds_range.
Qed.

Lemma parseZoneLayout_numeric (sg h1 h2 c m1 m2 : ascii) (r rest : string)
    (off : Z) :
  (if Ascii.eqb c ":" then
     match time.getnum (String h1 (String h2 "")) true,
           time.getnum (String m1 (String m2 "")) true with
     | Some (hr, _), Some (mm, _) =>
         if (24 <? hr) || (60 <? mm) then None
         else if Ascii.eqb sg "+" then Some ((hr * 60 + mm) * 60, r)
         else if Ascii.eqb sg "-" then Some (- ((hr * 60 + mm) * 60), r)
         else None
     | _, _ => None
     end
   else None) = Some (off, rest) ->
  off mod 60 = 0.
Proof.
  destruct (Ascii.eqb c ":"); [|done].
  destruct (time.getnum (String h1 _) true) as [[hr ?]|]; [|done].
  destruct (time.getnum (String m1 _) true) as [[mm ?]|]; [|done].
  destruct ((24 <? hr) || (60 <? mm)); [done|].
  destruct (Ascii.eqb sg "+"); [intros [= <- _]; by apply Z.mod_mul|].
  destruct (Ascii.eqb sg "-"); [intros [= <- _]|done].
  replace (- ((hr * 60 + mm) * 60)) with ((- (hr * 60 + mm)) * 60) by lia.
  by apply Z.mod_mul.
Qed.

Lemma parseZoneLayout_minutes (s rest : string) (off : Z) :
  time.parseZoneLayout s = Some (off, rest) -> off mod 60 = 0.
Proof.
  destruct s as [|c0 s1]; [done|].
  destruct s1 as [|h1 s2].
  { destruct c0 as [[] [] [] [] [] [] [] []]; try done. by intros [= <- _]. }
  destruct s2 as [|h2 s3].
  { destruct c0 as [[] [] [] [] [] [] [] []]; try done. by intros [= <- _]. }
  destruct s3 as [|c s4].
  { destruct c0 as [[] [] [] [] [] [] [] []]; try done. by intros [= <- _]. }
  destruct s4 as [|m1 s5].
  { destruct c0 as [[] [] [] [] [] [] [] []]; try done. by intros [= <- _]. }
  destruct s5 as [|m2 s6].
  { destruct c0 as [[] [] [] [] [] [] [] []]; try done. by intros [= <- _]. }
  intros Hz.
  destruct (Ascii.eqb_spec c0 "Z") as [->|Hne].
  { by injection Hz as <- _. }
  apply (parseZoneLayout_numeric c0 h1 h2 c m1 m2 s6 rest).
  by destruct c0 as [[] [] [] [] [] [] [] []].
Qed.

(** A time that [parseLayout] returns is one that [appendStrictRFC3339]
    accepts, unless its zone is a day or more away from UTC. *)
Lemma parseLayout_strict (s : string) (t : time.Time) :
  time.parseLayout s = Some t ->
  Z.abs (time.zone t) < 86400 -> strictRFC3339 t = true.
Proof.
  unfold time.parseLayout.
  destruct s as [|y1 [|y2 [|y3 [|y4 r]]]]; try done.
  destruct (time.atoi 0 _) as [year|] eqn:Hy; [|done]. cbn [mbind option_bind].
  apply atoi_bound in Hy; [|lia].
  change (len (String y1 (String y2 (String y3 (String y4 ""))))) with 4 in Hy.
  destruct (time.skip r "-") as [r1|]; [|done]. cbn [mbind option_bind].
  destruct (time.getnum r1 true) as [[month r2]|] eqn:Hmo; [|done].
  cbn [mbind option_bind].
  destruct ((month <=? 0) || (12 <? month)) eqn:Emo; [done|].
  destruct (time.skip r2 "-") as [r3|]; [|done]. cbn [mbind option_bind].
  destruct (time.getnum r3 true) as [[day r4]|] eqn:Hd; [|done].
  cbn [mbind option_bind].
  destruct (time.skip r4 "T") as [r5|]; [|done]. cbn [mbind option_bind].
  destruct (time.getnum r5 false) as [[hour r6]|] eqn:Hh; [|done].
  cbn [mbind option_bind].
  destruct (24 <=? hour) eqn:Eh; [done|].
  destruct (time.skip r6 ":") as [r7|]; [|done]. cbn [mbind option_bind].
  destruct (time.getnum r7 true) as [[min r8]|] eqn:Hmi; [|done].
  cbn [mbind option_bind].
  destruct (60 <=? min) eqn:Emi; [done|].
  destruct (time.skip r8 ":") as [r9|]; [|done]. cbn [mbind option_bind].
  destruct (time.getnum r9 true) as [[sec r10]|] eqn:Hs; [|done].
  cbn [mbind option_bind].
  destruct (60 <=? sec) eqn:Es; [done|].
  destruct (time.parseFracLayout r10) as [nsec r11] eqn:Hfrac.
  apply parseFracLayout_range in Hfrac.
  destruct (time.parseZoneLayout r11) as [[off r12]|] eqn:Hz; [|done].
  cbn [mbind option_bind].
  apply parseZoneLayout_minutes in Hz.
  destruct r12; [|done].
  destruct ((day <? 1) || (time.daysIn month year <? day)) eqn:Ed; [done|].
  intros [= <-]. cbn [time.zone]. intros Hoff.
  apply getnum_range in Hmo, Hd, Hh, Hmi, Hs.
  unfold strictRFC3339. cbn [time.abs_ns time.zone].
  pose proof (daysIn_le month year).
  pose proof (daysSinceEpoch_range year month day ltac:(lia) ltac:(lia)
                ltac:(lia)) as Hdays.
  unfold time.Date, time.nsPerSec, time.secPerDay.
  set (days := time.daysSinceEpoch year month day) in *.
  assert (Hq : Z.abs (Z.quot off 60) / 60 < 24).
  { pose proof (Z.quot_rem' off 60). pose proof (Z.rem_bound_abs off 60).
    Z.div_mod_to_equations. lia. }
  repeat (apply andb_true_iff; split); lia.
Qed.

(** A time that [Time.UnmarshalJSON] reads is one that
    [appendStrictRFC3339] accepts, unless its zone is a day or more away
    from UTC. *)
Lemma parseStrictRFC3339_strict (s : string) (t : time.Time) :
  time.parseStrictRFC3339 s = Some t ->
  Z.abs (time.zone t) < 86400 -> strictRFC3339 t = true.
Proof.
  unfold time.parseStrictRFC3339.
  destruct (time.parseRFC3339 s) as [t'|] eqn:Hs.
  - intros [= <-] _. by eapply parseRFC3339_strict.
  - apply parseLayout_strict.
Qed.

Lemma scanString_wellEscaped (n : nat) :
  forall s raw rest, (String.length s <= n)%nat ->
    json.scanString s = Some (raw, rest) -> wellEscaped raw = true.
Proof.
  induction n as [|n IH]; intros s raw rest Hlen.
  { destruct s; [done|simpl in Hlen; lia]. }
  destruct s as [|c r]; [done|]. simpl in Hlen.
  cbn [json.scanString].
  destruct (Ascii.eqb c json.dquote) eqn:Hq; [by intros [= <- _]|].
  destruct (Ascii.eqb c json.backslash) eqn:Hb.
  - destruct r as [|e r1]; [done|]. simpl in Hlen.
    destruct (json.isSimpleEscape e) eqn:He.
    + destruct (json.scanString r1) as [[raw1 rest1]|] eqn:Hs; [|done].
      intros [= <- _]. cbn [wellEscaped]. rewrite Hq, Hb, He.
      apply (IH r1 raw1 rest1); [lia|done].
    + destruct (Ascii.eqb e "u") eqn:Hu; [|done].
      destruct r1 as [|h1 [|h2 [|h3 [|h4 r2]]]]; try done. simpl in Hlen.
      destruct (json.isHex h1 && json.isHex h2 && json.isHex h3 && json.isHex h4)
        eqn:Hhex; [|done].
      destruct (json.scanString r2) as [[raw2 rest2]|] eqn:Hs; [|done].
      intros [= <- _]. cbn [wellEscaped]. rewrite Hq, Hb, He, Hu, Hhex.
      apply (IH r2 raw2 rest2); [lia|done].
  - destruct (code c <? 32) eqn:Hc; [done|].
    destruct (json.scanString r) as [[raw1 rest1]|] eqn:Hs; [|done].
    intros [= <- _]. cbn [wellEscaped]. rewrite Hq, Hb, Hc.
    apply (IH r raw1 rest1); [lia|done].
Qed.

Lemma validFrom_ascii (c : ascii) (y : string) :
  code c < 128 -> utf8.validFrom 0 (String c y) = utf8.validFrom 0 y.
Proof.
  intros Hc. cbn [utf8.validFrom]. destruct (code c <? 128) eqn:E; [done|lia].
Qed.

Lemma between_chr (n lo hi : Z) :
  0 <= n < 256 -> utf8.between (chr n) lo hi = (lo <=? n) && (n <=? hi).
Proof. intros Hn. unfold utf8.between. by rewrite code_chr. Qed.

(** [EncodeRune] writes well-formed UTF-8. *)
Lemma EncodeRune_valid (x : Z) (y : string) :
  0 <= x ->
  utf8.validFrom 0 (utf8.EncodeRune x +:+ y) = utf8.validFrom 0 y.
Proof.
  intros Hx. unfold utf8.EncodeRune.
  destruct (x <? 128) eqn:E1.
  { cbn [String.append]. apply validFrom_ascii. rewrite code_chr; lia. }
  destruct (x <? 2048) eqn:E2.
  { cbn [String.append utf8.validFrom utf8.runeLen].
    rewrite code_chr by (Z.div_mod_to_equations; lia).
    rewrite between_chr by (Z.div_mod_to_equations; lia).
    destruct (192 + x / 64 <? 128) eqn:F1; [Z.div_mod_to_equations; lia|].
    destruct (192 + x / 64 <? 194) eqn:F2; [Z.div_mod_to_equations; lia|].
    destruct (192 + x / 64 <? 224) eqn:F3; [|Z.div_mod_to_equations; lia].
    destruct ((128 <=? 128 + x mod 64) && (128 + x mod 64 <=? 191)) eqn:F4;
      [done|Z.div_mod_to_equations; lia]. }
  destruct ((55296 <=? x) && (x <=? 57343) || (1114111 <? x)) eqn:E3;
    [reflexivity|].
  destruct (x <? 65536) eqn:E4.
  { cbn [String.append utf8.validFrom utf8.runeLen].
    rewrite code_chr by (Z.div_mod_to_equations; lia).
    rewrite !between_chr by (Z.div_mod_to_equations; lia).
    destruct (224 + x / 4096 <? 128) eqn:F1; [Z.div_mod_to_equations; lia|].
    destruct (224 + x / 4096 <? 194) eqn:F2; [Z.div_mod_to_equations; lia|].
    destruct (224 + x / 4096 <? 224) eqn:F3; [Z.div_mod_to_equations; lia|].
    destruct (224 + x / 4096 <? 240) eqn:F4; [|Z.div_mod_to_equations; lia].
    match goal with
    | |- context [if ?b then 3%nat else 0%nat] =>
        assert (b = true) as ->; [|done]
    end.
    destruct (224 + x / 4096 =? 224) eqn:G1;
      destruct (224 + x / 4096 =? 237) eqn:G2;
      Z.div_mod_to_equations; lia. }
  cbn [String.append utf8.validFrom utf8.runeLen].
  rewrite code_chr by (Z.div_mod_to_equations; lia).
  rewrite !between_chr by (Z.div_mod_to_equations; lia).
  destruct (240 + x / 262144 <? 128) eqn:F1; [Z.div_mod_to_equations; lia|].
  destruct (240 + x / 262144 <? 194) eqn:F2; [Z.div_mod_to_equations; lia|].
  destruct (240 + x / 262144 <? 224) eqn:F3; [Z.div_mod_to_equations; lia|].
  destruct (240 + x / 262144 <? 240) eqn:F4; [Z.div_mod_to_equations; lia|].
  destruct (240 + x / 262144 <? 245) eqn:F5; [|Z.div_mod_to_equations; lia].
  match goal with
  | |- context [if ?b then 4%nat else 0%nat] =>
      assert (b = true) as ->; [|done]
  end.
  destruct (240 + x / 262144 =? 240) eqn:G1;
    destruct (240 + x / 262144 =? 244) eqn:G2;
    Z.div_mod_to_equations; lia.
Qed.

Lemma hexVal_nonneg (c : ascii) : json.isHex c = true -> 0 <= json.hexVal c.
Proof.
  unfold json.isHex, json.hexVal, isDigit, utf8.between.
  intros H. destruct ((48 <=? code c) && (code c <=? 57)) eqn:E1; [lia|].
  destruct ((97 <=? code c) && (code c <=? 102)) eqn:E2; lia.
Qed.

Lemma getu4_nonneg (h1 h2 h3 h4 : ascii) :
  json.isHex h1 && json.isHex h2 && json.isHex h3 && json.isHex h4 = true ->
  0 <= json.getu4 h1 h2 h3 h4.
Proof.
  intros H. apply andb_true_iff in H as [H H4].
  apply andb_true_iff in H as [H H3]. apply andb_true_iff in H as [H1 H2].
  apply hexVal_nonneg in H1, H2, H3, H4. unfold json.getu4. lia.
Qed.

Lemma decodeSurrogates_nonneg (r1 r2 dec : Z) :
  json.decodeSurrogates r1 r2 = Some dec -> 0 <= dec.
Proof.
  unfold json.decodeSurrogates. destruct (_ && _) eqn:E; [|done].
  intros [= <-]. lia.
Qed.

Lemma unescape_ascii (e : ascii) :
  json.isSimpleEscape e = true ->
  code (json.unescape e) < 128 /\ Ascii.eqb e "u" = false.
Proof.
  destruct e as [[] [] [] [] [] [] [] []]; intros H; try done.
Qed.

Lemma wellEscaped_high (c : ascii) (r : string) :
  128 <= code c -> wellEscaped (String c r) = wellEscaped r.
Proof.
  intros Hc. destruct (high_plain c Hc) as (_ & Hq & Hb).
  cbn [wellEscaped].
  destruct (Ascii.eqb_spec c json.dquote); [done|].
  destruct (Ascii.eqb_spec c json.backslash); [done|].
  destruct (code c <? 32) eqn:E; [lia|done].
Qed.

(** [unquote] returns well-formed UTF-8. *)
Lemma unquote_valid (n : nat) :
  forall (raw : string) (skip : nat),
    (String.length raw <= n)%nat ->
    contBytes skip raw = true -> wellEscaped raw = true ->
    utf8.validFrom skip (json.unquote skip raw) = true.
Proof.
  induction n as [|n IH]; intros raw skip Hlen Hcont Hesc.
  { destruct raw; [|simpl in Hlen; lia]. by destruct skip. }
  destruct raw as [|c r]; [by destruct skip|].
  simpl in Hlen.
  destruct skip as [|k].
  2:{ cbn [contBytes] in Hcont. apply andb_true_iff in Hcont as [Hc Hk].
      rewrite wellEscaped_high in Hesc by (by apply between_high).
      cbn [json.unquote utf8.validFrom]. apply IH; [lia|done..]. }
  cbn [wellEscaped] in Hesc. cbn [json.unquote].
  destruct (Ascii.eqb c json.dquote) eqn:Hq; [done|].
  destruct (Ascii.eqb c json.backslash) eqn:Hb.
  - destruct r as [|e r1]; [done|]. simpl in Hlen.
    destruct (json.isSimpleEscape e) eqn:He.
    + destruct (unescape_ascii e He) as [Hlt ->].
      rewrite validFrom_ascii by done. apply IH; [lia|done..].
    + destruct (Ascii.eqb e "u") eqn:Hu; [|done].
      destruct r1 as [|h1 [|h2 [|h3 [|h4 r2]]]]; try done. simpl in Hlen.
      apply andb_true_iff in Hesc as [Hhex Hr2].
      pose proof (getu4_nonneg _ _ _ _ Hhex) as Hrr.
      assert (Hrest : utf8.validFrom 0 (json.unquote 0 r2) = true)
        by (apply IH; [lia|done..]).
      destruct (json.isSurrogate (json.getu4 h1 h2 h3 h4)).
      2:{ by rewrite EncodeRune_valid. }
      destruct r2 as [|b' [|u' [|k1 [|k2 [|k3 [|k4 r3]]]]]];
        try (by rewrite EncodeRune_valid).
      destruct (Ascii.eqb b' json.backslash && Ascii.eqb u' "u") eqn:Hbu.
      2:{ by rewrite EncodeRune_valid. }
      destruct (json.decodeSurrogates _ _) as [dec|] eqn:Hdec.
      2:{ by rewrite EncodeRune_valid. }
      rewrite EncodeRune_valid by (by eapply decodeSurrogates_nonneg).
      apply andb_true_iff in Hbu as [Hb' Hu'].
      apply Ascii.eqb_eq in Hb', Hu'. subst b' u'.
      cbn [wellEscaped] in Hr2.
      change (Ascii.eqb json.backslash json.dquote) with false in Hr2.
      change (Ascii.eqb json.backslash json.backslash) with true in Hr2.
      change (json.isSimpleEscape "u") with false in Hr2.
      change (Ascii.eqb "u" "u") with true in Hr2.
      apply andb_true_iff in Hr2 as [_ Hr3].
      apply IH; [simpl in Hlen; lia|done..].
  - destruct (code c <? 32) eqn:Hc32; [done|].
    destruct (code c <? 128) eqn:Hc.
    + rewrite validFrom_ascii by lia. apply IH; [lia|done..].
    + destruct (utf8.runeLen (String c r)) as [|k] eqn:Hlenr.
      * rewrite EncodeRune_valid by done. apply IH; [lia|done..].
      * destruct (runeLen_cont c r k Hlenr) as [_ Hck].
        cbn [utf8.validFrom]. rewrite Hc.
        rewrite (runeLen_copied json.unquote c r k); [|done|done].
        apply IH; [lia|done..].
Qed.

Lemma parseValue_strOK (fuel : nat) (depth : Z) (s rest : string)
    (v : json.value) :
  json.parseValue fuel depth s = Some (v, rest) -> strOK v.
Proof.
  destruct fuel as [|fuel]; [done|]. destruct s as [|c r]; [done|].
  cbn [json.parseValue].
  destruct (Ascii.eqb c json.dquote).
  { destruct (json.scanString r) as [[raw rest']|] eqn:Hs; [|done].
    intros [= <- _]. by eapply scanString_wellEscaped. }
  destruct (Ascii.eqb c "{").
  { destruct (json.maxNestingDepth <? depth + 1); [done|].
    destruct (json.skipSpace r) as [|c1 r1].
    - destruct (json.parseMembers fuel _ "") as [[ms rest']|]; [|done].
      by intros [= <- _].
    - destruct c1 as [[] [] [] [] [] [] [] []];
        try (destruct (json.parseMembers fuel _ _) as [[ms rest']|]; [|done]);
        by intros [= <- _]. }
  destruct (Ascii.eqb c "[").
  { destruct (json.maxNestingDepth <? depth + 1); [done|].
    destruct (json.skipSpace r) as [|c1 r1].
    - destruct (json.parseElements fuel _ "") as [[ms rest']|]; [|done].
      by intros [= <- _].
    - destruct c1 as [[] [] [] [] [] [] [] []];
        try (destruct (json.parseElements fuel _ _) as [[ms rest']|]; [|done]);
        by intros [= <- _]. }
  destruct (Ascii.eqb c "t").
  { destruct (json.stripPrefix "rue" r); [|done]. by intros [= <- _]. }
  destruct (Ascii.eqb c "f").
  { destruct (json.stripPrefix "alse" r); [|done]. by intros [= <- _]. }
  destruct (Ascii.eqb c "n").
  { destruct (json.stripPrefix "ull" r); [|done]. by intros [= <- _]. }
  destruct (json.scanNumber (String c r)); [|done]. by intros [= <- _].
Qed.

Lemma parseMembers_strOK (fuel : nat) (depth : Z) :
  forall (s rest : string) (ms : list (string * json.value)),
    json.parseMembers fuel depth s = Some (ms, rest) ->
    Forall (fun kv => wellEscaped (fst kv) = true /\ strOK (snd kv)) ms.
Proof.
  induction fuel as [|fuel IH]; intros s rest ms; [done|].
  destruct s as [|c r]; [done|]. cbn [json.parseMembers].
  destruct (Ascii.eqb c json.dquote); [|done].
  destruct (json.scanString r) as [[key r1]|] eqn:Hkey; [|done].
  apply (scanString_wellEscaped _ _ _ _ (le_n _)) in Hkey.
  destruct (json.skipSpace r1) as [|c1 r2]; [done|].
  destruct c1 as [[] [] [] [] [] [] [] []]; try done.
  destruct (json.parseValue fuel depth (json.skipSpace r2)) as [[v r3]|] eqn:Hv;
    [|done].
  apply parseValue_strOK in Hv.
  destruct (json.skipSpace r3) as [|c3 r4]; [done|].
  destruct c3 as [[] [] [] [] [] [] [] []]; try done.
  - intros [= <- _]. by repeat constructor.
  - destruct (json.parseMembers fuel depth (json.skipSpace r4)) as [[ms' rest']|]
      eqn:Hms; [|done].
    intros [= <- _]. constructor; [done|]. by eapply IH.
Qed.

Lemma parse_Object_strOK (data : string) (ms : list (string * json.value)) :
  json.parse data = Some (json.Object ms) ->
  Forall (fun kv => wellEscaped (fst kv) = true /\ strOK (snd kv)) ms.
Proof.
  unfold json.parse.
  destruct (json.parseValue _ _) as [[v rest]|] eqn:Hv; [|done].
  destruct (json.skipSpace rest); [|done]. intros [= ->].
  remember (S (String.length data)) as fuel eqn:Hf. clear Hf.
  destruct fuel as [|fuel]; [done|].
  destruct (json.skipSpace data) as [|c r]; [done|].
  cbn [json.parseValue] in Hv.
  destruct (Ascii.eqb c json.dquote).
  { by destruct (json.scanString r) as [[raw rest']|]. }
  destruct (Ascii.eqb c "{").
  { destruct (json.maxNestingDepth <? 0 + 1); [done|].
    destruct (json.skipSpace r) as [|c1 r1].
    - destruct (json.parseMembers fuel _ "") as [[ms' rest']|] eqn:Hm; [|done].
      injection Hv as -> ->. by eapply parseMembers_strOK.
    - destruct c1 as [[] [] [] [] [] [] [] []];
        try (destruct (json.parseMembers fuel _ _) as [[ms' rest']|] eqn:Hm;
             [|done]; injection Hv as -> ->; by eapply parseMembers_strOK).
      injection Hv as <- _. constructor. }
  destruct (Ascii.eqb c "[").
  { destruct (json.maxNestingDepth <? 0 + 1); [done|].
    destruct (json.skipSpace r) as [|c1 r1].
    - by destruct (json.parseElements fuel _ "") as [[ms' rest']|].
    - destruct c1 as [[] [] [] [] [] [] [] []];
        try (by destruct (json.parseElements fuel _ _) as [[ms' rest']|]).
      done. }
  destruct (Ascii.eqb c "t"); [by destruct (json.stripPrefix "rue" r)|].
  destruct (Ascii.eqb c "f"); [by destruct (json.stripPrefix "alse" r)|].
  destruct (Ascii.eqb c "n"); [by destruct (json.stripPrefix "ull" r)|].
  by destruct (json.scanNumber (String c r)).
Qed.

Lemma decodeMembers_wellFormed (ms : list (string * json.value)) :
  forall st v,
    Forall (fun kv => wellEscaped (fst kv) = true /\ strOK (snd kv)) ms ->
    (Z.abs (time.zone (TS st)) < 86400 -> strictRFC3339 (TS st) = true) ->
    utf8.ValidString (Value st) = true ->
    json.decodeMembers ms st = Some v ->
    (Z.abs (time.zone (TS v)) < 86400 -> strictRFC3339 (TS v) = true)
    /\ utf8.ValidString (Value v) = true.
Proof.
  induction ms as [|[key x] ms IH]; intros st v Hall Ht Hv; simpl.
  { by intros [= <-]. }
  apply Forall_cons in Hall as [[_ Hx] Hall]. simpl in Hx.
  destruct (json.fieldByName (json.unquote 0 key)) as [[]|].
  - destruct (json.unmarshalTime x (TS st)) as [t|] eqn:Hu; [|done].
    apply IH; [done| |done]. cbn [TS].
    destruct x; try done; simpl in Hu.
    + by injection Hu as <-.
    + by apply (parseStrictRFC3339_strict raw).
  - destruct (json.unmarshalString x (Value st)) as [y|] eqn:Hu; [|done].
    apply IH; [done|done|]. cbn [Value].
    destruct x; try done; simpl in Hu.
    + by injection Hu as <-.
    + injection Hu as <-.
      by apply (unquote_valid _ _ 0%nat (le_n _)).
  - by apply IH.
Qed.

(** A record that [json.Unmarshal] returns is well-formed, unless the
    zone of its time is a day or more away from UTC: its value is always
    valid UTF-8. *)
Lemma Unmarshal_wellFormed (data : string) (v : state) :
  json.Unmarshal data = Some v ->
  Z.abs (time.zone (TS v)) < 86400 -> wellFormed v = true.
Proof.
  unfold json.Unmarshal, wellFormed.
  destruct (json.parse data) as [[]|] eqn:Hp; try done.
  - by intros [= <-].
  - intros Hd Hz.
    assert (H0 : strictRFC3339 (TS zeroState) = true) by reflexivity.
    assert (H1 : utf8.ValidString (Value zeroState) = true)
      by reflexivity.
    destruct (decodeMembers_wellFormed _ _ _ (parse_Object_strOK data _ Hp)
                (fun _ => H0) H1 Hd) as [Ht Hv].
    by rewrite Ht, Hv.
Qed.

Lemma nextState_wellFormed (now : time.Time) (n : nat) :
  strictRFC3339 now = true -> wellFormed (nextState now n) = true.
Proof.
  intros Hnow. unfold wellFormed, nextState. cbn [TS Value]. rewrite Hnow.
  do 7 (destruct n as [|n]; [reflexivity|]). by destruct n.
Qed.

Lemma processStateChange_wellFormed (n : state) (s : server) :
  wellFormed n = true -> wellFormed (srv_state s) = true ->
  wellFormed (srv_state (processStateChange n s)) = true.
Proof.
  intros Hn Hs. rewrite processStateChange_state.
  by destruct (time.Before (TS n) (TS (srv_state s))).
Qed.

(** A server that starts with a well-formed record and whose clock stays
    in the range of [appendStrictRFC3339] holds a well-formed record after
    any run of calls, when the buffers it receives decode to zones below
    a day. *)
Lemma run_wellFormed (evs : list event) :
  forall s : server,
    wellFormed (srv_state s) = true -> Forall wellFormedCall evs ->
    wellFormed (srv_state (finalServer (snd (run evs s)))) = true.
Proof.
  induction evs as [|ev evs IH]; intros s Hs Hevs; [done|].
  apply Forall_cons in Hevs as [Hev Hevs].
  destruct ev as [buf|buf join|now k|overhead limit transmitLimit|join];
    cbn [run].
  - unfold NotifyMsg. destruct (json.Unmarshal buf) as [r|] eqn:Hr; [|done].
    apply IH; [|done]. apply processStateChange_wellFormed; [|done].
    apply (Unmarshal_wellFormed buf); [done|]. by apply Hev.
  - unfold MergeRemoteState.
    destruct (json.Unmarshal buf) as [r|] eqn:Hr; [|done].
    apply IH; [|done]. apply processStateChange_wellFormed; [|done].
    apply (Unmarshal_wellFormed buf); [done|]. by apply Hev.
  - apply IH; [|done]. unfold mutate.
    apply processStateChange_wellFormed; [|done].
    by apply nextState_wellFormed.
  - specialize (IH (snd (GetBroadcasts overhead limit transmitLimit s))).
    destruct (run evs (snd (GetBroadcasts overhead limit transmitLimit s)))
      as [drains out].
    apply IH; [|done].
    unfold GetBroadcasts. by destruct (memberlist.GetBroadcasts _ _ _ _).
  - by apply IH.
Qed.

Lemma strictRFC3339_format (t : time.Time) :
  strictRFC3339 t = true ->
  time.zone t mod 60 = 0
  /\ exists ts, time.appendStrictRFC3339 t = Some ts.
Proof.
  unfold strictRFC3339, time.appendStrictRFC3339.
  set (loc := time.abs_ns t + time.zone t * time.nsPerSec).
  intros H. cbv zeta in H.
  apply andb_true_iff in H as [H Hz]. apply andb_true_iff in H as [H Hh].
  apply andb_true_iff in H as [Hlo Hhi].
  split; [lia|].
  pose proof (absDate_year (loc / time.nsPerSec / time.secPerDay)) as Hyear.
  destruct (time.absDate (loc / time.nsPerSec / time.secPerDay))
    as [[year month] day].
  simpl in Hyear.
  assert (Hy : 0 <= year <= 9999).
  { apply Hyear. unfold time.nsPerSec, time.secPerDay in *.
    Z.div_mod_to_equations. lia. }
  destruct ((year <? 0) || (9999 <? year)) eqn:E1; [lia|].
  destruct (24 <=? Z.abs (Z.quot (time.zone t) 60) / 60) eqn:E2; [lia|].
  eauto.
Qed.

(** C9.  For a server that holds a well-formed record (a time that
    [Time.MarshalJSON] accepts, a value that is valid UTF-8), the payload
    of [StateChange.Message] and the payload of [LocalState] are the same
    text: an object with the member [TS], the RFC 3339 text of the
    timestamp, and the member [Value], the escaped value, and nothing
    else; and [json.Unmarshal], the decoder of [NotifyMsg], gives back the
    record from it. *)
Theorem payload_roundtrip (s : server) (join : bool) :
  wellFormed (srv_state s) = true ->
  exists ts,
    time.appendStrictRFC3339 (TS (srv_state s)) = Some ts
    /\ Message {| embedded := srv_state s |}
       = object2 "TS" ts "Value" (json.appendBody 0 (Value (srv_state s)))
    /\ LocalState join s = Message {| embedded := srv_state s |}
    /\ json.parse (Message {| embedded := srv_state s |})
       = Some (json.Object
                 [("TS", json.Str ts);
                  ("Value", json.Str (json.appendBody 0 (Value (srv_state s))))])
    /\ json.Unmarshal (Message {| embedded := srv_state s |})
       = Some (srv_state s)
    /\ NotifyMsg (LocalState join s) s
       = Returned (processStateChange (srv_state s) s).
Proof.
  intros Hwf. unfold wellFormed in Hwf.
  apply andb_true_iff in Hwf as [Ht Hv].
  destruct (strictRFC3339_format _ Ht) as [Hzone [ts Hts]].
  assert (Hm : json.Marshal (srv_state s)
               = Some (object2 "TS" ts "Value"
                         (json.appendBody 0 (Value (srv_state s))))).
  { unfold json.Marshal, json.marshalTime. by rewrite Hts. }
  pose proof (Unmarshal_Marshal _ _ Hzone Hv Hm) as Hrt.
  assert (Hmsg : Message {| embedded := srv_state s |}
                 = object2 "TS" ts "Value"
                     (json.appendBody 0 (Value (srv_state s)))).
  { unfold Message. cbn [embedded]. by rewrite Hm. }
  assert (Hloc : LocalState join s = Message {| embedded := srv_state s |}).
  { reflexivity. }
  exists ts. split; [exact Hts|]. split; [exact Hmsg|]. split; [exact Hloc|].
  rewrite Hmsg. split; [|split; [exact Hrt|]].
  - apply parse_object2; intros rest.
    + by apply scanString_plainText.
    + apply scanString_plainText. by apply (appendStrictRFC3339_plain _ _ Hts).
    + by apply scanString_plainText.
    + by apply (appendBody_roundtrip _ _ 0%nat rest (le_n _) eq_refl Hv).
  - unfold NotifyMsg. by rewrite Hloc, Hmsg, Hrt.
Qed.

Lemma payload_roundtrip_witness :
  Message {| embedded := stateAt 63763203723000120000 "green" |}
  = object2 "TS" "2021-07-30T01:02:03.00012Z" "Value" "green"
  /\ json.Unmarshal
       (LocalState true (started (newServer 0 (stateAt 63763203723000120000 "green"))))
     = Some (stateAt 63763203723000120000 "green").
Proof.
  destruct (payload_roundtrip
              (started (newServer 0 (stateAt 63763203723000120000 "green"))) true
              eq_refl) as (ts & Hts & Hmsg & Hloc & _ & Hrt & _).
  split; [reflexivity|]. rewrite Hloc. exact Hrt.
Defined.


(** C9, as stated, fails.  [Time.UnmarshalJSON] reads the zone [+24:00],
    [NotifyMsg] accepts the record, and [Time.MarshalJSON] refuses the
    zone: the server then holds a record whose payloads, from [Message]
    and from [LocalState], are empty, so they are no serialization of the
    record and [json.Unmarshal] does not give the record back. *)
Lemma payload_of_day_zone_is_empty :
  exists s',
    NotifyMsg (object2 "TS" "2021-07-30T01:02:03+24:00" "Value" "red")
      (started (newServer 0 (stateAt 10 "green")))
    = Returned s'
    /\ Value (srv_state s') = "red"
    /\ time.zone (TS (srv_state s')) = 86400
    /\ wellFormed (srv_state s') = false
    /\ json.Marshal (srv_state s') = None
    /\ Message {| embedded := srv_state s' |} = ""
    /\ LocalState true s' = ""
    /\ json.Unmarshal (Message {| embedded := srv_state s' |}) = None
    /\ json.Unmarshal (LocalState true s') = None.
Proof.
  eexists. split; [vm_compute; reflexivity|].
  repeat split; vm_compute; reflexivity.
Qed.

(** * Further properties *)

(** ** Runs of calls *)

Lemma processStateChange_name_port (n : state) (s : server) :
  name (processStateChange n s) = name s
  /\ port (processStateChange n s) = port s.
Proof.
  unfold processStateChange.
  by destruct (time.Before (TS n) (TS (srv_state s))).
Qed.

Lemma processStateChange_quiet (n : state) (s : server) :
  (updates s <= updates (processStateChange n s))%nat
  /\ (updates (processStateChange n s) = updates s ->
      processStateChange n s = s).
Proof.
  unfold processStateChange.
  destruct (time.Before (TS n) (TS (srv_state s))); simpl; split; try lia; done.
Qed.

Lemma run_facts (evs : list event) :
  forall s : server,
    let s' := finalServer (snd (run evs s)) in
    name s' = name s /\ port s' = port s
    /\ (updates s <= updates s')%nat
    /\ time.abs_ns (TS (srv_state s)) <= time.abs_ns (TS (srv_state s'))
    /\ (updates s' = updates s -> srv_state s' = srv_state s).
Proof.
  assert (Hstep : forall (n : state) (s s' : server),
    (let s' := s' in
     name s' = name (processStateChange n s)
     /\ port s' = port (processStateChange n s)
     /\ (updates (processStateChange n s) <= updates s')%nat
     /\ time.abs_ns (TS (srv_state (processStateChange n s)))
        <= time.abs_ns (TS (srv_state s'))
     /\ (updates s' = updates (processStateChange n s) ->
         srv_state s' = srv_state (processStateChange n s))) ->
    name s' = name s /\ port s' = port s
    /\ (updates s <= updates s')%nat
    /\ time.abs_ns (TS (srv_state s)) <= time.abs_ns (TS (srv_state s'))
    /\ (updates s' = updates s -> srv_state s' = srv_state s)).
  { intros n s s' (Hn & Hp & Hu & Ht & Hq). simpl in *.
    destruct (processStateChange_name_port n s) as [Hn1 Hp1].
    destruct (processStateChange_quiet n s) as [Hu1 Hq1].
    destruct (processStateChange_mono n s) as [Ht1 _].
    repeat split; try congruence; try lia.
    intros Heq. assert (Hsame : updates (processStateChange n s) = updates s) by lia.
    rewrite Hq; [|lia]. by rewrite Hq1. }
  induction evs as [|ev evs IH]; intros s; cbn [run].
  - cbn. repeat split; lia.
  - destruct ev as [buf|buf join|now k|overhead limit transmitLimit|join].
    + unfold NotifyMsg. destruct (json.Unmarshal buf) as [r|].
      * apply (Hstep r), IH.
      * cbn. repeat split; lia.
    + unfold MergeRemoteState. destruct (json.Unmarshal buf) as [r|].
      * apply (Hstep r), IH.
      * cbn. repeat split; lia.
    + unfold mutate. apply (Hstep (nextState now k)), IH.
    + specialize (IH (snd (GetBroadcasts overhead limit transmitLimit s))).
      destruct (GetBroadcasts_fields overhead limit transmitLimit s)
        as (Hu & Hst & Hn & Hp & _).
      destruct (run evs (snd (GetBroadcasts overhead limit transmitLimit s)))
        as [drains out].
      cbn [snd] in *. cbv zeta in IH.
      rewrite Hu, Hst, Hn, Hp in IH. exact IH.
    + apply IH.
Qed.

(** X1.  In every run of calls on a server, however it ends, the name and
    the port of the server stay as they were, the count of values sent on
    [updates] does not decrease, the timestamp of the held record does not
    go back, and the held record differs from the one at the start only if
    a value was sent on [updates]. *)
Theorem run_keeps_identity_and_order (evs : list event) (s : server) :
  let s' := finalServer (snd (run evs s)) in
  name s' = name s /\ port s' = port s
  /\ (updates s <= updates s')%nat
  /\ time.After (TS (srv_state s)) (TS (srv_state s')) = false
  /\ (srv_state s' <> srv_state s -> (updates s < updates s')%nat).
Proof.
  destruct (run_facts evs s) as (Hn & Hp & Hu & Ht & Hq).
  cbv zeta. repeat split; try done.
  - rewrite After_Before. by apply Before_false_ge.
  - intros Hne.
    destruct (decide (updates (finalServer (snd (run evs s))) = updates s))
      as [Heq|Hneq]; [by apply Hq in Heq | lia].
Qed.

(** ** What [GetBroadcasts] sends and keeps *)

Lemma filter_all {A : Type} (P : A -> Prop) `{forall x, Decision (P x)}
    (l : list A) :
  (forall x, P x) -> filter P l = l.
Proof.
  intros HP. induction l as [|a l IH]; [done|].
  rewrite filter_cons, IH. destruct (decide (P a)) as [|Hn]; [done|].
  by destruct Hn.
Qed.

Lemma filter_same {A : Type} (P Q : A -> Prop)
    `{forall x, Decision (P x)} `{forall x, Decision (Q x)} (l : list A) :
  (forall x, P x <-> Q x) -> filter P l = filter Q l.
Proof.
  intros HPQ. induction l as [|a l IH]; [done|].
  rewrite !filter_cons, IH.
  destruct (decide (P a)) as [HP|HP], (decide (Q a)) as [HQ|HQ]; try done.
  - by apply HPQ in HP.
  - by apply HPQ in HQ.
Qed.

Section DrainFacts.

Context {B : Type} `{memberlist.Broadcast B}.

Implicit Types (x y keep : memberlist.limitedBroadcast B).
Implicit Types (items toSend reinsert : list (memberlist.limitedBroadcast B)).
Implicit Types (q : memberlist.TransmitLimitedQueue B).

Lemma without_nil items : without [] items = items.
Proof. unfold without. by apply filter_all. Qed.

Lemma without_nil_r gone : without gone [] = [].
Proof. reflexivity. Qed.

Lemma without_cons keep extra items :
  without (keep :: extra) items
  = without extra (filter (fun x => memberlist.same keep x = false) items).
Proof.
  unfold without. rewrite list_filter_filter. apply filter_same.
  intros x. cbn [existsb]. rewrite orb_false_iff. tauto.
Qed.

Lemma without_In gone items x :
  In x (without gone items)
  <-> In x items /\ Forall (fun y => memberlist.same y x = false) gone.
Proof.
  unfold without. rewrite <- !list_elem_of_In, list_elem_of_filter.
  rewrite Forall_forall.
  split.
  - intros [Hex Hx]. split; [done|]. intros y Hy%list_elem_of_In.
    destruct (memberlist.same y x) eqn:E; [|done].
    assert (Ht : existsb (fun y => memberlist.same y x) gone = true)
      by (apply existsb_exists; eauto).
    congruence.
  - intros [Hx Hall]. split; [|done].
    destruct (existsb _ gone) eqn:E; [|done].
    apply existsb_exists in E as (y & Hy & Hs).
    apply list_elem_of_In, Hall in Hy. congruence.
Qed.

Lemma without_app gone items more :
  without gone (items ++ more) = without gone items ++ without gone more.
Proof. unfold without. apply filter_app. Qed.

Lemma without_comm gone gone' items :
  without gone (without gone' items) = without (gone' ++ gone) items.
Proof.
  unfold without. rewrite list_filter_filter. apply filter_same.
  intros x. rewrite existsb_app, orb_false_iff. tauto.
Qed.

(** The items that go back to the tree after the loop: none of them is
    the same as another, so each one is added at the end. *)
Lemma fold_addItem (extra : list (memberlist.limitedBroadcast B)) :
  forall q,
    StronglySorted (fun x y => memberlist.same x y = false) extra ->
    fold_left (fun acc cur => memberlist.addItem cur acc) extra q
    = {| memberlist.tq := without extra (memberlist.tq q) ++ extra;
         memberlist.idGen := memberlist.idGen q |}.
Proof.
  induction extra as [|x extra IH]; intros q Hs; simpl.
  - rewrite without_nil, app_nil_r. by destruct q.
  - apply StronglySorted_inv in Hs as [Hs Hx].
    rewrite IH by done. unfold memberlist.addItem. cbn [memberlist.tq memberlist.idGen].
    f_equal. rewrite without_app, <- without_cons, <- app_assoc. f_equal.
    assert (Hkeep : without extra [x] = [x]).
    { unfold without. rewrite filter_cons, filter_nil.
      destruct (decide _) as [|Hn]; [done|]. destruct Hn.
      destruct (existsb _ extra) eqn:E; [|done].
      apply existsb_exists in E as (y & Hy & Hsame).
      rewrite List.Forall_forall in Hx. specialize (Hx y Hy).
      rewrite same_sym in Hsame. congruence. }
    by rewrite Hkeep.
Qed.

(** The bytes of the messages of a list of items. *)
Let bytes (overhead : Z) toSend : Z :=
  bytesOf overhead (map (fun x => memberlist.Message (memberlist.b x)) toSend).

(** The id counter after the items [extra] are deleted. *)
Let idAfter (extra : list (memberlist.limitedBroadcast B)) q : Z :=
  match without extra (memberlist.tq q) with
  | [] => match extra with [] => memberlist.idGen q | _ :: _ => 0 end
  | _ :: _ => memberlist.idGen q
  end.

(** The loop of [GetBroadcasts]: the items sent are items of the tree, in
    tiers that do not go down, and no two of them are the same for the
    tree; the tree loses the items sent, and its id counter starts again
    when no item is left; the items to reinsert are the items sent that
    have not reached the limit; and while the count of bytes stays in the
    range of [int], it does not exceed the limit once an item is sent. *)
Lemma drain_spec rounds overhead limit transmitLimit :
  forall tier maxTr q bytesUsed toSend reinsert,
    exists extra,
      memberlist.drain rounds overhead limit transmitLimit tier maxTr q
        bytesUsed toSend reinsert
      = ({| memberlist.tq := without extra (memberlist.tq q);
            memberlist.idGen := idAfter extra q |},
         toSend ++ extra,
         reinsert ++ omap (resend transmitLimit) extra)
      /\ Forall (fun x => In x (memberlist.tq q)
                          /\ tier <= memberlist.transmits x) extra
      /\ StronglySorted
           (fun x y => memberlist.transmits x <= memberlist.transmits y) extra
      /\ StronglySorted (fun x y => memberlist.same x y = false) extra
      /\ (0 <= overhead <= memberlist.MaxInt64 ->
          0 <= bytesUsed <= limit -> limit <= memberlist.MaxInt64 ->
          bytesUsed + bytes overhead extra <= limit).
Proof.
  induction rounds as [|rounds IH];
    intros tier maxTr q bytesUsed toSend reinsert.
  { exists []. simpl. rewrite !app_nil_r. unfold idAfter. rewrite without_nil.
    split; [by destruct q as [[|] ?]|]. repeat split; try constructor.
    unfold bytes. simpl. lia. }
  assert (Hstop : exists extra : list (memberlist.limitedBroadcast B),
    (q, toSend, reinsert)
    = ({| memberlist.tq := without extra (memberlist.tq q);
          memberlist.idGen := idAfter extra q |},
       toSend ++ extra, reinsert ++ omap (resend transmitLimit) extra)
    /\ Forall (fun x => In x (memberlist.tq q)
                        /\ tier <= memberlist.transmits x) extra
    /\ StronglySorted
         (fun x y => memberlist.transmits x <= memberlist.transmits y) extra
    /\ StronglySorted (fun x y => memberlist.same x y = false) extra
    /\ (0 <= overhead <= memberlist.MaxInt64 ->
        0 <= bytesUsed <= limit -> limit <= memberlist.MaxInt64 ->
        bytesUsed + bytes overhead extra <= limit)).
  { exists []. simpl. rewrite !app_nil_r. unfold idAfter. rewrite without_nil.
    split; [by destruct q as [[|] ?]|]. repeat split; try constructor.
    unfold bytes. simpl. lia. }
  cbn [memberlist.drain].
  destruct (maxTr <? tier); [exact Hstop|].
  destruct (memberlist.wrap (limit - bytesUsed - overhead) <=? 0) eqn:Hfree;
    [exact Hstop|].
  destruct (memberlist.pick tier (memberlist.wrap (limit - bytesUsed - overhead))
              (memberlist.tq q)) as [keep|] eqn:Hpick.
  - destruct (pick_fits _ _ _ _ Hpick) as (Hin & Htier & Hlen).
    destruct (IH tier maxTr (memberlist.deleteItem keep q)
                (memberlist.wrap
                   (bytesUsed + overhead
                    + len (memberlist.Message (memberlist.b keep))))
                (toSend ++ [keep])
                (if transmitLimit <=? memberlist.transmits keep + 1
                 then reinsert
                 else reinsert ++
                      [{| memberlist.transmits := memberlist.transmits keep + 1;
                          memberlist.msgLen := memberlist.msgLen keep;
                          memberlist.id := memberlist.id keep;
                          memberlist.b := memberlist.b keep |}]))
      as (extra & Heq & Hall & Hsorted & Hdiff & Hbytes).
    exists (keep :: extra). rewrite Heq.
    assert (Htq : without extra (memberlist.tq (memberlist.deleteItem keep q))
                  = without (keep :: extra) (memberlist.tq q)).
    { by rewrite without_cons. }
    split; [|split; [|split; [|split]]].
    + f_equal; [f_equal|].
      * rewrite Htq. f_equal. unfold idAfter. rewrite Htq.
        destruct (without (keep :: extra) (memberlist.tq q)) as [|x0 l0] eqn:Hw.
        { destruct extra; [|done].
          rewrite without_cons, without_nil in Hw.
          unfold memberlist.deleteItem. cbn [memberlist.idGen]. by rewrite Hw. }
        assert (Hne : filter (fun x => memberlist.same keep x = false)
                        (memberlist.tq q) <> []).
        { intros He. rewrite without_cons, He in Hw. discriminate Hw. }
        unfold memberlist.deleteItem. cbn [memberlist.idGen].
        by destruct (filter _ (memberlist.tq q)).
      * by rewrite <- app_assoc.
      * simpl. unfold resend at 2.
        destruct (transmitLimit <=? memberlist.transmits keep + 1);
          [done | by rewrite <- app_assoc].
    + constructor; [split; [done|lia]|].
      eapply Forall_impl; [exact Hall|]. simpl. intros x [Hx Ht]. split; [|done].
      by apply deleteItem_In in Hx as [Hx _].
    + constructor; [done|].
      apply Forall_forall. rewrite Forall_forall in Hall.
      intros x Hx. destruct (Hall x Hx) as [_ Ht]. lia.
    + constructor; [done|].
      apply Forall_forall. rewrite Forall_forall in Hall.
      intros x Hx. destruct (Hall x Hx) as [Hd _].
      by apply deleteItem_In in Hd as [_ Hd].
    + intros Ho Hb Hl.
      pose proof (len_nonneg (memberlist.Message (memberlist.b keep))) as Hm.
      assert (Hw1 : memberlist.wrap (limit - bytesUsed - overhead)
                    = limit - bytesUsed - overhead).
      { unfold memberlist.wrap, memberlist.MaxInt64 in *.
        Z.div_mod_to_equations. lia. }
      rewrite Hw1 in Hlen, Hfree.
      assert (Hw2 : memberlist.wrap
                      (bytesUsed + overhead
                       + len (memberlist.Message (memberlist.b keep)))
                    = bytesUsed + overhead
                      + len (memberlist.Message (memberlist.b keep))).
      { unfold memberlist.wrap, memberlist.MaxInt64 in *.
        Z.div_mod_to_equations. lia. }
      rewrite Hw2 in Hbytes. specialize (Hbytes Ho ltac:(lia) Hl).
      unfold bytes in *. simpl. lia.
  - destruct (IH (tier + 1) maxTr q bytesUsed toSend reinsert)
      as (extra & Heq & Hall & Hsorted & Hdiff & Hbytes).
    exists extra. rewrite Heq. split; [done|]. split; [|done].
    eapply Forall_impl; [exact Hall|]. simpl. intros x [Hx Ht]. split; [done|lia].
Qed.

(** The items that go back to the tree are not the same for the tree when
    the items sent are not. *)
Lemma resend_distinct transmitLimit (extra : list (memberlist.limitedBroadcast B)) :
  StronglySorted (fun x y => memberlist.same x y = false) extra ->
  StronglySorted (fun x y => memberlist.same x y = false)
    (omap (resend transmitLimit) extra).
Proof.
  induction extra as [|x extra IH]; intros Hs; [constructor|].
  apply StronglySorted_inv in Hs as [Hs Hx]. specialize (IH Hs).
  cbn [omap list_omap]. unfold resend at 1.
  destruct (transmitLimit <=? memberlist.transmits x + 1); [exact IH|].
  constructor; [exact IH|].
  apply List.Forall_forall. intros y Hy%list_elem_of_In.
  apply list_elem_of_omap in Hy as (z & Hz & Hr).
  unfold resend in Hr.
  destruct (transmitLimit <=? memberlist.transmits z + 1); [done|].
  injection Hr as <-.
  rewrite List.Forall_forall in Hx. apply list_elem_of_In in Hz.
  specialize (Hx z Hz).
  apply not_true_is_false. intros E.
  apply same_key in E as (E1 & E2 & E3). cbn in E1, E2, E3.
  assert (Hsame : memberlist.same x z = true) by (apply same_key; lia).
  congruence.
Qed.

Lemma selectBroadcasts_spec overhead limit transmitLimit
    (q : memberlist.TransmitLimitedQueue B) :
  let sent := fst (memberlist.selectBroadcasts overhead limit transmitLimit q) in
  let q' := snd (memberlist.selectBroadcasts overhead limit transmitLimit q) in
  memberlist.tq q'
  = without (sent ++ omap (resend transmitLimit) sent) (memberlist.tq q)
    ++ omap (resend transmitLimit) sent
  /\ memberlist.idGen q'
     = match without sent (memberlist.tq q) with
       | [] => match sent with [] => memberlist.idGen q | _ :: _ => 0 end
       | _ :: _ => memberlist.idGen q
       end
  /\ Forall (fun x => In x (memberlist.tq q)) sent
  /\ StronglySorted
       (fun x y => memberlist.transmits x <= memberlist.transmits y) sent
  /\ StronglySorted (fun x y => memberlist.same x y = false) sent
  /\ (0 <= overhead <= memberlist.MaxInt64 ->
      0 <= limit <= memberlist.MaxInt64 ->
      bytes overhead sent <= limit).
Proof.
  unfold memberlist.selectBroadcasts.
  destruct (memberlist.tq q) as [|x0 items0] eqn:Htq.
  { cbn [fst snd]. rewrite Htq. cbn.
    repeat split; try constructor. unfold bytes. simpl. lia. }
  rewrite <- Htq.
  destruct (memberlist.getTransmitRange (memberlist.tq q)) as [minTr maxTr].
  destruct (drain_spec (memberlist.drainRounds (memberlist.tq q)) overhead
              limit transmitLimit minTr maxTr q 0 [] [])
    as (extra & -> & Hall & Hsorted & Hdiff & Hbytes).
  cbn [fst snd app].
  rewrite fold_addItem by (by apply resend_distinct).
  cbn [memberlist.tq memberlist.idGen].
  split; [by rewrite without_comm|]. split; [done|].
  split; [|split; [done|split; [done|]]].
  - eapply Forall_impl; [exact Hall|]. by intros x [Hx _].
  - intros Ho Hl. specialize (Hbytes Ho ltac:(lia) ltac:(lia)). lia.
Qed.

End DrainFacts.

(** ** [GetBroadcasts] on a server *)

Lemma server_eta (s : server) :
  {| updates := updates s; queue := queue s; srv_state := srv_state s;
     name := name s; port := port s |} = s.
Proof. by destruct s. Qed.

Lemma queue_eta {B : Type} (q : memberlist.TransmitLimitedQueue B) :
  {| memberlist.tq := memberlist.tq q; memberlist.idGen := memberlist.idGen q |}
  = q.
Proof. by destruct q. Qed.

(** X2.  [GetBroadcasts] returns the messages of items of the queue.  An
    item sent leaves the tree, and goes back with one more transmit if it
    has not reached the transmit limit; the tree takes it for the item
    with the same transmits, length and id, so it then replaces such an
    item.  The queue is left with the items that are neither sent nor
    replaced, and the items that went back.  The id counter starts again
    at 0 when every item was sent, and stays otherwise; the held record
    and the count of updates stay. *)
Theorem GetBroadcasts_queue_after overhead limit transmitLimit (s : server) :
  let sent :=
    fst (memberlist.selectBroadcasts overhead limit transmitLimit (queue s)) in
  let resent := omap (resend transmitLimit) sent in
  let s' := snd (GetBroadcasts overhead limit transmitLimit s) in
  fst (GetBroadcasts overhead limit transmitLimit s)
  = map (fun x => memberlist.Message (memberlist.b x)) sent
  /\ Forall (fun x => In x (memberlist.tq (queue s))) sent
  /\ memberlist.tq (queue s')
     = without (sent ++ resent) (memberlist.tq (queue s)) ++ resent
  /\ memberlist.idGen (queue s')
     = match without sent (memberlist.tq (queue s)) with
       | [] => match sent with
               | [] => memberlist.idGen (queue s)
               | _ :: _ => 0
               end
       | _ :: _ => memberlist.idGen (queue s)
       end
  /\ srv_state s' = srv_state s
  /\ updates s' = updates s.
Proof.
  cbv zeta.
  destruct (GetBroadcasts_fields overhead limit transmitLimit s)
    as (Hu & Hst & _ & _ & Hq).
  destruct (selectBroadcasts_spec overhead limit transmitLimit (queue s))
    as (Htq & Hid & Hsent & _ & _).
  rewrite Hq. split; [apply GetBroadcasts_payloads|]. by repeat split.
Qed.

(** X3.  [GetBroadcasts] sends the items in the order of their transmits:
    an item that was sent fewer times goes before one that was sent more
    often. *)
Theorem GetBroadcasts_fresh_first overhead limit transmitLimit (s : server) :
  StronglySorted
    (fun x y => memberlist.transmits x <= memberlist.transmits y)
    (fst (memberlist.selectBroadcasts overhead limit transmitLimit (queue s)))
  /\ fst (GetBroadcasts overhead limit transmitLimit s)
     = map (fun x => memberlist.Message (memberlist.b x))
         (fst (memberlist.selectBroadcasts overhead limit transmitLimit
                 (queue s))).
Proof.
  destruct (selectBroadcasts_spec overhead limit transmitLimit (queue s))
    as (_ & _ & _ & Hsorted & _).
  split; [exact Hsorted | apply GetBroadcasts_payloads].
Qed.

(** X4.  For an overhead and a limit that are not negative, the payloads
    that [GetBroadcasts] returns, each counted with the overhead, do not
    exceed the limit.  Both are values of [int], so at most
    [MaxInt64]. *)
Theorem GetBroadcasts_within_limit overhead limit transmitLimit (s : server) :
  0 <= overhead <= memberlist.MaxInt64 ->
  0 <= limit <= memberlist.MaxInt64 ->
  bytesOf overhead (fst (GetBroadcasts overhead limit transmitLimit s))
  <= limit.
Proof.
  intros Ho Hl. rewrite GetBroadcasts_payloads.
  destruct (selectBroadcasts_spec overhead limit transmitLimit (queue s))
    as (_ & _ & _ & _ & _ & Hb).
  by apply Hb.
Qed.

Lemma GetBroadcasts_within_limit_witness :
  bytesOf 2
    (fst (GetBroadcasts 2 1400 2
            (processStateChange (stateAt 20 "red")
               (started (newServer 0 (stateAt 10 "green"))))))
  <= 1400
  /\ length
       (fst (GetBroadcasts 2 1400 2
               (processStateChange (stateAt 20 "red")
                  (started (newServer 0 (stateAt 10 "green"))))))
     = 1%nat.
Proof.
  split; [|reflexivity].
  apply (GetBroadcasts_within_limit 2 1400 2
           (processStateChange (stateAt 20 "red")
              (started (newServer 0 (stateAt 10 "green"))))).
  - unfold memberlist.MaxInt64. lia.
  - unfold memberlist.MaxInt64. lia.
Defined.

(** X5.  With an empty queue, or a limit that leaves no byte after the
    overhead, [GetBroadcasts] returns no payload and leaves the server as
    it was.  The difference of the limit and the overhead is a value of
    [int]. *)
Theorem GetBroadcasts_nothing_to_send overhead limit transmitLimit (s : server) :
  memberlist.tq (queue s) = [] \/ - 2 ^ 63 <= limit - overhead <= 0 ->
  GetBroadcasts overhead limit transmitLimit s = ([], s).
Proof.
  intros Hcase.
  assert (Hsel : memberlist.selectBroadcasts overhead limit transmitLimit (queue s)
                 = ([], queue s)).
  { unfold memberlist.selectBroadcasts.
    destruct (memberlist.tq (queue s)) as [|x0 items0] eqn:Htq; [done|].
    rewrite <- Htq.
    destruct Hcase as [Hempty|Hlimit]; [done|].
    destruct (memberlist.getTransmitRange (memberlist.tq (queue s)))
      as [minTr maxTr].
    assert (Hdrain : memberlist.drain (memberlist.drainRounds (memberlist.tq (queue s)))
                       overhead limit transmitLimit minTr maxTr
                       (queue s) 0 [] []
                     = (queue s, [], [])).
    { destruct (memberlist.drainRounds (memberlist.tq (queue s))) as [|rounds];
        [reflexivity|].
      cbn [memberlist.drain]. destruct (maxTr <? minTr); [reflexivity|].
      assert (Hw : memberlist.wrap (limit - 0 - overhead) = limit - overhead).
      { unfold memberlist.wrap. Z.div_mod_to_equations. lia. }
      rewrite Hw.
      destruct (limit - overhead <=? 0) eqn:Hfree; [reflexivity|lia]. }
    rewrite Hdrain. reflexivity. }
  unfold GetBroadcasts, memberlist.GetBroadcasts. rewrite Hsel. cbn.
  by rewrite server_eta.
Qed.

Lemma GetBroadcasts_nothing_to_send_witness :
  GetBroadcasts 2 1400 2 (started (newServer 0 (stateAt 10 "green")))
  = ([], started (newServer 0 (stateAt 10 "green")))
  /\ GetBroadcasts 2 2 2
       (processStateChange (stateAt 20 "red") (started (newServer 0 (stateAt 10 "green"))))
     = ([], processStateChange (stateAt 20 "red")
              (started (newServer 0 (stateAt 10 "green")))).
Proof.
  split.
  - apply (GetBroadcasts_nothing_to_send 2 1400 2
             (started (newServer 0 (stateAt 10 "green")))).
    left. reflexivity.
  - apply (GetBroadcasts_nothing_to_send 2 2 2
             (processStateChange (stateAt 20 "red")
                (started (newServer 0 (stateAt 10 "green"))))).
    right. lia.
Defined.

(** ** The queue of a server holds the held timestamp *)

(** X6.  After any run of calls on a new server, every item of the queue
    carries a [StateChange] whose timestamp is the instant of the held
    record, and so does every payload that [GetBroadcasts] then returns:
    a server never sends a record older than the one it holds. *)
Theorem queue_holds_only_current
    (numServers : Z) (initial : state) (evs : list event) :
  let s := finalServer (snd (run evs (started (newServer numServers initial)))) in
  (forall x, In x (memberlist.tq (queue s)) ->
     exists r, memberlist.b x = isStateChange {| embedded := r |}
               /\ time.Equal (TS r) (TS (srv_state s)) = true)
  /\ forall overhead limit transmitLimit payload,
       In payload (fst (GetBroadcasts overhead limit transmitLimit s)) ->
       exists r, payload = Message {| embedded := r |}
                 /\ time.Equal (TS r) (TS (srv_state s)) = true.
Proof.
  cbv zeta.
  pose proof (run_coherent evs _ (coherent_started (newServer numServers initial))) as Hc.
  set (s := finalServer (snd (run evs (started (newServer numServers initial))))) in *.
  unfold coherent, current in Hc. split.
  - intros x Hx. rewrite Forall_forall in Hc.
    destruct (Hc x) as (r & Hr & Ht); [by apply list_elem_of_In|].
    exists r. split; [done|]. unfold time.Equal. by apply Z.eqb_eq.
  - intros overhead limit transmitLimit payload.
    rewrite GetBroadcasts_payloads. intros Hp%in_map_iff.
    destruct Hp as (x & <- & Hx).
    destruct (selectBroadcasts_holds
                (fun bc => exists r, bc = isStateChange {| embedded := r |}
                   /\ time.abs_ns (TS r) = time.abs_ns (TS (srv_state s)))
                overhead limit transmitLimit (queue s) Hc) as [Hsent _].
    rewrite Forall_forall in Hsent.
    destruct (Hsent x) as (r & Hr & Ht); [by apply list_elem_of_In|].
    exists r. rewrite Hr. split; [done|]. unfold time.Equal. by apply Z.eqb_eq.
Qed.

(** A record strictly newer than the held one invalidates every item of
    a queue that holds only the held timestamp. *)

Lemma filter_Forall {A : Type} (P : A -> Prop) `{forall x, Decision (P x)}
    (l : list A) :
  Forall P l -> filter P l = l.
Proof.
  induction l as [|a l IH]; [done|]. intros [Ha Hl]%Forall_cons.
  rewrite filter_cons, (IH Hl). by destruct (decide (P a)).
Qed.

(** A record strictly newer than the held one invalidates every item of
    a queue that holds only the held timestamp: the queue is left with
    the item of the new record. *)
Lemma coherent_newer_queue (n : state) (s : server) :
  coherent s ->
  time.abs_ns (TS (srv_state s)) < time.abs_ns (TS n) ->
  exists g,
    processStateChange n s
    = {| updates := S (updates s);
         queue :=
           {| memberlist.tq :=
                [{| memberlist.transmits := 0;
                    memberlist.msgLen := len (Message {| embedded := n |});
                    memberlist.id :=
                      if memberlist.idGen (queue s) =? memberlist.MaxInt64
                      then 1 else memberlist.idGen (queue s) + 1;
                    memberlist.b := isStateChange {| embedded := n |} |}];
              memberlist.idGen := g |};
         srv_state := n; name := name s; port := port s |}.
Proof.
  intros Hc Hlt.
  assert (Hb : time.Before (TS n) (TS (srv_state s)) = false).
  { apply Before_false_ge. lia. }
  rewrite (processStateChange_accepted n s Hb).
  unfold memberlist.QueueBroadcast.
  assert (Hall : filter (fun cur => memberlist.Invalidates
                           (isStateChange {| embedded := n |})
                           (memberlist.b cur) = true)
                   (memberlist.tq (queue s)) = memberlist.tq (queue s)).
  { apply filter_Forall. unfold coherent, current in Hc.
    eapply Forall_impl; [exact Hc|]. intros x (r & Hr & Ht). simpl.
    rewrite Hr. simpl. rewrite After_Before. apply Before_lt. lia. }
  rewrite Hall.
  set (q0 := {| memberlist.tq := memberlist.tq (queue s);
                memberlist.idGen :=
                  if memberlist.idGen (queue s) =? memberlist.MaxInt64
                  then 1 else memberlist.idGen (queue s) + 1 |}).
  set (q1 := fold_left (fun acc cur => memberlist.deleteItem cur acc)
               (memberlist.tq (queue s)) q0).
  assert (Hnone : memberlist.tq q1 = []).
  { destruct (memberlist.tq q1) as [|x l] eqn:E; [done|].
    assert (Hx : In x (memberlist.tq q1)) by (rewrite E; by left).
    apply deleteItems_In in Hx as [Hx Hno].
    rewrite List.Forall_forall in Hno. specialize (Hno x Hx).
    by rewrite same_refl in Hno. }
  exists (memberlist.idGen q1).
  unfold memberlist.addItem. rewrite Hnone. reflexivity.
Qed.

(** X7.  When a server, after any run of calls since it was created, takes
    a record strictly newer than the one it holds, its queue is left with
    one item: the [StateChange] of the new record, not yet sent.  Every
    item queued before is invalidated. *)
Theorem newer_record_leaves_one_item
    (numServers : Z) (initial : state) (evs : list event) (newState : state) :
  let s := finalServer (snd (run evs (started (newServer numServers initial)))) in
  time.After (TS newState) (TS (srv_state s)) = true ->
  exists y,
    memberlist.tq (queue (processStateChange newState s)) = [y]
    /\ memberlist.b y = isStateChange {| embedded := newState |}
    /\ memberlist.transmits y = 0
    /\ memberlist.msgLen y = len (Message {| embedded := newState |}).
Proof.
  cbv zeta.
  pose proof (run_coherent evs _ (coherent_started (newServer numServers initial))) as Hc.
  set (s := finalServer (snd (run evs (started (newServer numServers initial))))) in *.
  intros Hafter. rewrite After_Before in Hafter. apply Before_lt in Hafter.
  destruct (coherent_newer_queue newState s Hc Hafter) as [g ->].
  cbn [queue memberlist.tq].
  eexists. split; [reflexivity|]. by repeat split.
Qed.

Lemma newer_record_leaves_one_item_witness :
  map memberlist.b
    (memberlist.tq
       (queue (processStateChange (stateAt 30 "blue")
                 (finalServer
                    (snd (run [callMutate {| time.abs_ns := 20; time.zone := 0 |} 0;
                               callMutate {| time.abs_ns := 20; time.zone := 0 |} 1]
                            (started (newServer 0 (stateAt 10 "green")))))))))
  = [isStateChange {| embedded := stateAt 30 "blue" |}]
  /\ length
       (memberlist.tq
          (queue (finalServer
                    (snd (run [callMutate {| time.abs_ns := 20; time.zone := 0 |} 0;
                               callMutate {| time.abs_ns := 20; time.zone := 0 |} 1]
                            (started (newServer 0 (stateAt 10 "green"))))))))
     = 2%nat.
Proof.
  destruct (newer_record_leaves_one_item 0 (stateAt 10 "green")
              [callMutate {| time.abs_ns := 20; time.zone := 0 |} 0;
               callMutate {| time.abs_ns := 20; time.zone := 0 |} 1]
              (stateAt 30 "blue") eq_refl) as (y & Hy & Hb & _).
  split; [|reflexivity].
  rewrite Hy. simpl. by rewrite Hb.
Defined.

(** ** The report *)

Lemma countValue_cons (v : string) (s : server) (servers : list server) :
  countValue v (s :: servers)
  = (if decide (Value (srv_state s) = v) then 1 else 0) + countValue v servers.
Proof.
  unfold countValue. rewrite filter_cons.
  destruct (decide (Value (srv_state s) = v)); simpl length; lia.
Qed.

Lemma countValue_nonneg (v : string) (servers : list server) :
  0 <= countValue v servers.
Proof. unfold countValue. lia. Qed.

Lemma countValue_le (v : string) (servers : list server) :
  countValue v servers <= Z.of_nat (length servers).
Proof.
  unfold countValue. pose proof (length_filter (fun s => Value (srv_state s) = v) servers).
  lia.
Qed.

Lemma scanStep_lookup (v : string) (servers : list server) :
  forall (newest : state) (counts : gmap string Z),
    snd (fold_left scanStep servers (newest, counts)) !! v
    = if decide (countValue v servers = 0) then counts !! v
      else Some (default 0 (counts !! v) + countValue v servers).
Proof.
  induction servers as [|s servers IH]; intros newest counts.
  { destruct (decide (countValue v [] = 0)) as [|Hn]; [done|].
    by destruct Hn. }
  cbn [fold_left scanStep]. rewrite IH, countValue_cons.
  pose proof (countValue_nonneg v servers) as Hc.
  destruct (decide (Value (srv_state s) = v)) as [->|Hne].
  - rewrite lookup_insert_eq. simpl default.
    destruct (decide (countValue v servers = 0)) as [->|Hn0];
      destruct (decide _) as [|]; try lia; f_equal; lia.
  - rewrite lookup_insert_ne by done.
    destruct (decide (countValue v servers = 0)) as [->|Hn0];
      destruct (decide _) as [|]; try lia; done.
Qed.

Lemma total_incr (k : string) (counts : gmap string Z) :
  total (<[k := default 0 (counts !! k) + 1]> counts) = total counts + 1.
Proof.
  unfold total.
  assert (Hcomm : forall (m : gmap string Z) (j1 j2 : string) (z1 z2 y : Z),
            j1 <> j2 -> m !! j1 = Some z1 -> m !! j2 = Some z2 ->
            z1 + (z2 + y) = z2 + (z1 + y)) by (intros; lia).
  destruct (counts !! k) as [x|] eqn:Hk; simpl default.
  - rewrite <- insert_delete_eq.
    rewrite map_fold_insert_L; [|by apply Hcomm | by rewrite lookup_delete_eq].
    rewrite (map_fold_delete_L _ _ k x counts); [lia | by apply Hcomm | done].
  - rewrite map_fold_insert_L; [lia | by apply Hcomm | done].
Qed.

Lemma scanStep_total (servers : list server) :
  forall (newest : state) (counts : gmap string Z),
    total (snd (fold_left scanStep servers (newest, counts)))
    = total counts + Z.of_nat (length servers).
Proof.
  induction servers as [|s servers IH]; intros newest counts.
  { simpl. lia. }
  cbn [fold_left scanStep]. rewrite IH, total_incr. simpl length. lia.
Qed.

Lemma reportOf_fields (servers : list server) :
  expect (reportOf servers) = Value (fst (scan servers))
  /\ histogram (reportOf servers) = snd (scan servers)
  /\ score (reportOf servers) = float32.format0 (scoreOf servers).
Proof. unfold reportOf. by destruct (scan servers). Qed.

(** X8.  The histogram of the report maps every value that a server holds
    to the number of servers that hold it and has no other key; its counts
    add up to the number of servers. *)
Theorem histogram_counts_servers (servers : list server) :
  (forall v,
     histogram (reportOf servers) !! v
     = if decide (countValue v servers = 0) then None
       else Some (countValue v servers))
  /\ total (histogram (reportOf servers)) = Z.of_nat (length servers).
Proof.
  destruct (reportOf_fields servers) as (_ & -> & _). rewrite scan_fold. split.
  - intros v. rewrite scanStep_lookup, lookup_empty. simpl default.
    by destruct (decide _).
  - rewrite scanStep_total. unfold total. by rewrite map_fold_empty.
Qed.

(** *** The expected value *)

Lemma fold_newest_keep (l : list server) :
  forall (newest : state) (counts : gmap string Z),
    Forall (fun b => time.After (TS (srv_state b)) (TS newest) = false) l ->
    fst (fold_left scanStep l (newest, counts)) = newest.
Proof.
  induction l as [|b l IH]; intros newest counts Hall; [done|].
  apply Forall_cons in Hall as [Hb Hl].
  cbn [fold_left scanStep]. rewrite Hb. by apply IH.
Qed.

Lemma fold_newest_below (l : list server) (m : Z) :
  forall (newest : state) (counts : gmap string Z),
    time.abs_ns (TS newest) < m ->
    Forall (fun a => time.abs_ns (TS (srv_state a)) < m) l ->
    time.abs_ns (TS (fst (fold_left scanStep l (newest, counts)))) < m.
Proof.
  induction l as [|a l IH]; intros newest counts Hn Hall; [done|].
  apply Forall_cons in Hall as [Ha Hl].
  cbn [fold_left scanStep]. apply IH; [|done].
  by destruct (time.After (TS (srv_state a)) (TS newest)).
Qed.

Lemma scan_first_newest (earlier later : list server) (s : server) :
  0 < time.abs_ns (TS (srv_state s)) ->
  Forall (fun a => time.abs_ns (TS (srv_state a))
                   < time.abs_ns (TS (srv_state s))) earlier ->
  Forall (fun b => time.abs_ns (TS (srv_state b))
                   <= time.abs_ns (TS (srv_state s))) later ->
  fst (scan (earlier ++ s :: later)) = srv_state s.
Proof.
  intros Hzero Hearlier Hlater.
  rewrite scan_fold, fold_left_app. cbn [fold_left].
  destruct (fold_left scanStep earlier (zeroState, ∅)) as [newest counts] eqn:Hf.
  assert (Hlt : time.abs_ns (TS newest) < time.abs_ns (TS (srv_state s))).
  { change newest with (fst (newest, counts)). rewrite <- Hf.
    by apply fold_newest_below. }
  cbn [scanStep]. rewrite After_Before.
  apply Before_lt in Hlt. rewrite Hlt. apply fold_newest_keep.
  eapply Forall_impl; [exact Hlater|]. intros b Hb. simpl in Hb.
  rewrite After_Before. by apply Before_false_ge.
Qed.

(** X9.  The record the report expects is the record of the first server,
    in the order of the list, that no server holds a later record than,
    when that record is after the zero [Time]. *)
Theorem report_expects_first_newest (earlier later : list server) (s : server) :
  time.After (TS (srv_state s)) time.zero = true ->
  Forall (fun a => time.Before (TS (srv_state a)) (TS (srv_state s)) = true)
    earlier ->
  Forall (fun b => time.After (TS (srv_state b)) (TS (srv_state s)) = false)
    later ->
  fst (scan (earlier ++ s :: later)) = srv_state s
  /\ expect (reportOf (earlier ++ s :: later)) = Value (srv_state s).
Proof.
  intros Hzero Hearlier Hlater.
  assert (Hscan : fst (scan (earlier ++ s :: later)) = srv_state s).
  { apply scan_first_newest.
    - rewrite After_Before in Hzero. by apply Before_lt in Hzero.
    - eapply Forall_impl; [exact Hearlier|]. intros a Ha. by apply Before_lt.
    - eapply Forall_impl; [exact Hlater|]. intros b Hb. simpl in Hb.
      rewrite After_Before in Hb. by apply Before_false_ge. }
  split; [exact Hscan|].
  destruct (reportOf_fields (earlier ++ s :: later)) as (-> & _). by rewrite Hscan.
Qed.

Lemma report_expects_first_newest_witness :
  expect (reportOf [started (newServer 0 (stateAt 3 "blue")); started (newServer 1 (stateAt 5 "red"));
                    started (newServer 2 (stateAt 5 "green"))])
  = "red".
Proof.
  apply (report_expects_first_newest
           [started (newServer 0 (stateAt 3 "blue"))] [started (newServer 2 (stateAt 5 "green"))]
           (started (newServer 1 (stateAt 5 "red")))).
  - reflexivity.
  - repeat constructor.
  - repeat constructor.
Defined.

(** *** The score *)

Lemma round_Finite (num den : Z) : exists m e, float32.round num den = float32.Finite m e.
Proof.
  unfold float32.round. destruct (num =? 0); eauto.
Qed.

Lemma ofInt_pos (n : Z) :
  0 < n -> exists m e, float32.ofInt n = float32.Finite m e /\ 0 < m.
Proof.
  intros Hn. unfold float32.ofInt, float32.round.
  destruct (n =? 0) eqn:H0; [lia|].
  change (Z.log2 1) with 0. rewrite Z.sub_0_r.
  pose proof (Z.log2_spec n Hn) as [Hlo Hhi].
  pose proof (Z.log2_nonneg n) as Hl.
  set (l := Z.log2 n) in *.
  rewrite (Z.max_l 0 (- l)) by lia. rewrite (Z.max_r 0 l) by lia.
  change (2 ^ 0) with 1. rewrite Z.mul_1_r, Z.mul_1_l.
  destruct (n <? 2 ^ l) eqn:Hc; [lia|].
  destruct (Z.le_gt_cases l 23) as [Hle|Hgt].
  - rewrite (Z.max_r 0 (23 - l)) by lia. rewrite (Z.max_l 0 (- (23 - l))) by lia.
    change (2 ^ 0) with 1. rewrite Z.div_1_r, Z.mod_1_r.
    change (2 * 0 <? 1 * 1) with true. cbv iota.
    eexists _, _. split; [reflexivity|].
    assert (0 < 2 ^ (23 - l)) by (apply Z.pow_pos_nonneg; lia). nia.
  - rewrite (Z.max_l 0 (23 - l)) by lia. rewrite (Z.max_r 0 (- (23 - l))) by lia.
    change (2 ^ 0) with 1. rewrite Z.mul_1_r.
    rewrite !(Z.mul_1_l (2 ^ (- (23 - l)))).
    set (d := 2 ^ (- (23 - l))).
    assert (Hd : 0 < d) by (apply Z.pow_pos_nonneg; lia).
    assert (Hq : 0 < n / d).
    { apply Z.div_str_pos. split; [lia|].
      assert (d <= 2 ^ l); [|lia].
      apply Z.pow_le_mono_r; lia. }
    destruct (2 * (n mod d) <? d); [eexists _, _; split; [reflexivity|lia]|].
    destruct (d <? 2 * (n mod d)); [eexists _, _; split; [reflexivity|lia]|].
    destruct (Z.even (n / d)); eexists _, _; (split; [reflexivity|lia]).
Qed.

Lemma round_self (a : Z) :
  0 < a -> float32.round a a = float32.Finite 8388608 (-23).
Proof.
  intros Ha. unfold float32.round.
  destruct (a =? 0) eqn:H0; [lia|].
  rewrite Z.sub_diag. change (Z.max 0 (- 0)) with 0. change (Z.max 0 0) with 0.
  change (2 ^ 0) with 1. rewrite Z.mul_1_r, Z.ltb_irrefl.
  change (23 - 0) with 23. change (Z.max 0 23) with 23.
  change (Z.max 0 (- 23)) with 0. change (2 ^ 0) with 1. rewrite Z.mul_1_r.
  rewrite (Z.mul_comm a), Z.div_mul, Z.mod_mul by lia.
  change (2 * 0) with 0. destruct (0 <? a) eqn:Hlt; [reflexivity|lia].
Qed.

Lemma div_self (n : Z) :
  0 < n ->
  float32.div (float32.ofInt n) (float32.ofInt n)
  = float32.Finite 8388608 (-23).
Proof.
  intros Hn. destruct (ofInt_pos n Hn) as (m & e & -> & Hm).
  unfold float32.div. destruct (m =? 0) eqn:H0; [lia|].
  rewrite Z.sub_diag. change (Z.max 0 0) with 0. change (2 ^ 0) with 1.
  rewrite Z.mul_1_r. by apply round_self.
Qed.

Lemma scan_newest_from (servers : list server) :
  forall (newest : state) (counts : gmap string Z),
    fst (fold_left scanStep servers (newest, counts)) = newest
    \/ exists s, In s servers
         /\ fst (fold_left scanStep servers (newest, counts)) = srv_state s.
Proof.
  induction servers as [|a servers IH]; intros newest counts; [by left|].
  cbn [fold_left scanStep].
  match goal with
  | |- context [fold_left scanStep servers (?n, ?c)] =>
      destruct (IH n c) as [->|(s & Hs & ->)]
  end.
  - destruct (time.After (TS (srv_state a)) (TS newest)); [|by left].
    right. exists a. split; [by left|done].
  - right. exists s. split; [by right|done].
Qed.

(** With a server that holds a record after the zero [Time], the newest
    record of the scan is the record of a server. *)
Lemma scan_newest_held (servers : list server) :
  Exists (fun s => 0 < time.abs_ns (TS (srv_state s))) servers ->
  exists s, In s servers /\ fst (scan servers) = srv_state s.
Proof.
  intros Hex.
  pose proof (scanStep_newest servers zeroState ∅) as [_ Hmax].
  rewrite <- scan_fold in Hmax.
  destruct (scan_newest_from servers zeroState ∅) as [Hz|Hheld];
    rewrite <- scan_fold in *; [|exact Hheld].
  apply Exists_exists in Hex as (s & Hs & Hafter).
  apply list_elem_of_In, Hmax in Hs. rewrite Hz in Hs.
  change (time.abs_ns (TS zeroState)) with 0 in Hs. lia.
Qed.

(** When every server holds the expected value, the score prints 100. *)
Lemma score_all_agree (servers : list server) :
  servers <> [] ->
  countValue (expect (reportOf servers)) servers = Z.of_nat (length servers) ->
  score (reportOf servers) = "100".
Proof.
  intros Hne Hcount.
  assert (Hlen : 0 < Z.of_nat (length servers)).
  { destruct servers; [done | simpl; lia]. }
  destruct (reportOf_fields servers) as (_ & _ & ->).
  destruct (scoreOf_formula servers) as (-> & _).
  rewrite Hcount, div_self by done. reflexivity.
Qed.

(** X10.  When every server holds the same value, and one of them a record
    after the zero [Time], the report expects that value and prints the
    score 100. *)
Theorem report_unanimous (servers : list server) (v : string) :
  Forall (fun s => Value (srv_state s) = v) servers ->
  Exists (fun s => time.After (TS (srv_state s)) time.zero = true) servers ->
  expect (reportOf servers) = v /\ score (reportOf servers) = "100".
Proof.
  intros Hall Hex.
  assert (Hne : servers <> []).
  { intros ->. by apply Exists_nil in Hex. }
  assert (Hexp : expect (reportOf servers) = v).
  { destruct (reportOf_fields servers) as (-> & _).
    destruct (scan_newest_held servers) as (s & Hs & ->).
    - eapply Exists_impl; [exact Hex|]. intros s Hs. simpl in Hs.
      rewrite After_Before in Hs. by apply Before_lt in Hs.
    - rewrite Forall_forall in Hall. by apply Hall, list_elem_of_In. }
  split; [exact Hexp|]. apply score_all_agree; [done|].
  rewrite Hexp. unfold countValue. f_equal. f_equal. by apply filter_Forall.
Qed.

Lemma report_unanimous_witness :
  expect (reportOf [started (newServer 0 (stateAt 5 "red")); started (newServer 1 (stateAt 7 "red"))])
  = "red"
  /\ score (reportOf [started (newServer 0 (stateAt 5 "red")); started (newServer 1 (stateAt 7 "red"))])
     = "100".
Proof.
  apply (report_unanimous
           [started (newServer 0 (stateAt 5 "red")); started (newServer 1 (stateAt 7 "red"))] "red").
  - repeat constructor.
  - apply Exists_cons_hd. reflexivity.
Defined.

(** X11.  The score is not a number exactly when there is no server: the
    quotient is then that of zero by zero, and the report prints [NaN].
    With a server the score is a finite number. *)
Theorem score_NaN_without_servers (servers : list server) :
  (scoreOf servers = float32.NaN <-> servers = [])
  /\ (servers <> [] -> exists m e, scoreOf servers = float32.Finite m e)
  /\ reportOf [] = {| score := "NaN"; expect := ""; histogram := ∅ |}.
Proof.
  assert (Hfin : servers <> [] ->
                 exists m e, scoreOf servers = float32.Finite m e).
  { intros Hne. destruct (scoreOf_formula servers) as (-> & _).
    assert (Hlen : 0 < Z.of_nat (length servers)).
    { destruct servers; [done | simpl; lia]. }
    destruct (ofInt_pos _ Hlen) as (m2 & e2 & -> & Hm2).
    destruct (round_Finite (countValue (expect (reportOf servers)) servers) 1)
      as (m1 & e1 & Hc).
    unfold float32.ofInt at 2. rewrite Hc. unfold float32.div.
    destruct (m2 =? 0) eqn:H0; [lia|].
    destruct (round_Finite (m1 * 2 ^ Z.max 0 (e1 - e2))
                (m2 * 2 ^ Z.max 0 (e2 - e1))) as (m & e & ->).
    change (float32.ofInt 100) with (float32.Finite 13107200 (-17)).
    unfold float32.mul. apply round_Finite. }
  split; [|split; [exact Hfin | reflexivity]].
  split.
  - intros HNaN. destruct servers as [|s servers]; [done|].
    destruct Hfin as (m & e & Hf); [done|]. congruence.
  - intros ->. reflexivity.
Qed.

Lemma score_of_twenty (k : nat) :
  (k <= 20)%nat ->
  float32.format0
    (float32.mul (float32.ofInt 100)
       (float32.div (float32.ofInt (Z.of_nat k)) (float32.ofInt 20)))
  = NilZero.string_of_int (Z.to_int (5 * Z.of_nat k)).
Proof.
  intros Hk. do 21 (destruct k as [|k]; [vm_compute; reflexivity|]). lia.
Qed.

(** X12.  With the twenty servers of [main], the score printed is five times
    the number of servers that hold the expected value: the rounding of
    [float32] and of [%.0f] loses nothing for these quotients. *)
Theorem score_of_desiredServers (servers : list server) :
  Z.of_nat (length servers) = desiredServers ->
  score (reportOf servers)
  = NilZero.string_of_int
      (Z.to_int (5 * countValue (expect (reportOf servers)) servers)).
Proof.
  intros Hlen.
  destruct (reportOf_fields servers) as (_ & _ & ->).
  destruct (scoreOf_formula servers) as (-> & _).
  pose proof (countValue_le (expect (reportOf servers)) servers) as Hle.
  pose proof (countValue_nonneg (expect (reportOf servers)) servers) as Hge.
  rewrite Hlen in *. unfold desiredServers in *.
  rewrite <- (Z2Nat.id (countValue (expect (reportOf servers)) servers)) by lia.
  apply score_of_twenty. lia.
Qed.

Lemma score_of_desiredServers_witness :
  score (reportOf (started (newServer 0 (stateAt 9 "blue"))
                   :: repeat (started (newServer 1 (stateAt 5 "red"))) 19))
  = "5".
Proof.
  apply (score_of_desiredServers
           (started (newServer 0 (stateAt 9 "blue"))
            :: repeat (started (newServer 1 (stateAt 5 "red"))) 19)).
  reflexivity.
Defined.

(** *** The score is a percentage *)

Lemma pow2_pos (a : Z) : 0 <= a -> 0 < 2 ^ a.
Proof. intros Ha. by apply Z.pow_pos_nonneg. Qed.

(** The exponent that [round] chooses is not above the quotient. *)
Lemma round_exponent (num den : Z) :
  0 < num -> 0 < den ->
  let e0 := Z.log2 num - Z.log2 den in
  let e := if num * 2 ^ Z.max 0 (- e0) <? den * 2 ^ Z.max 0 e0
           then e0 - 1 else e0 in
  den * 2 ^ Z.max 0 e <= num * 2 ^ Z.max 0 (- e).
Proof.
  intros Hnum Hden. cbv zeta.
  pose proof (Z.log2_spec num Hnum) as [Hn1 Hn2].
  pose proof (Z.log2_spec den Hden) as [Hd1 Hd2].
  pose proof (Z.log2_nonneg num) as Hl1. pose proof (Z.log2_nonneg den) as Hl2.
  set (l1 := Z.log2 num) in *. set (l2 := Z.log2 den) in *.
  destruct (num * 2 ^ Z.max 0 (- (l1 - l2)) <? den * 2 ^ Z.max 0 (l1 - l2))
    eqn:Htest; [|lia].
  destruct (Z.le_gt_cases 1 (l1 - l2)) as [Hge|Hlt].
  - rewrite (Z.max_r 0 (l1 - l2 - 1)) by lia.
    rewrite (Z.max_l 0 (- (l1 - l2 - 1))) by lia.
    change (2 ^ 0) with 1. rewrite Z.mul_1_r.
    assert (Hp : 2 ^ (l2 + 1) * 2 ^ (l1 - l2 - 1) = 2 ^ l1).
    { rewrite <- Z.pow_add_r by lia. f_equal. lia. }
    pose proof (pow2_pos (l1 - l2 - 1) ltac:(lia)). nia.
  - rewrite (Z.max_l 0 (l1 - l2 - 1)) by lia.
    rewrite (Z.max_r 0 (- (l1 - l2 - 1))) by lia.
    change (2 ^ 0) with 1. rewrite Z.mul_1_r.
    assert (Hp : 2 ^ l1 * 2 ^ (- (l1 - l2 - 1)) = 2 ^ (l2 + 1)).
    { rewrite <- Z.pow_add_r by lia. f_equal. lia. }
    pose proof (pow2_pos (- (l1 - l2 - 1)) ltac:(lia)). nia.
Qed.

(** [round] does not go above an integer bound of the quotient. *)
Lemma round_le_int (num den bound : Z) :
  0 < num -> 0 < den -> 0 < bound < 2 ^ 24 -> num <= bound * den ->
  exists m e, float32.round num den = float32.Finite m e
              /\ e <= 0 /\ 0 < m <= bound * 2 ^ (- e).
Proof.
  intros Hnum Hden Hbound Hle.
  pose proof (round_exponent num den Hnum Hden) as Hexp. cbv zeta in Hexp.
  unfold float32.round. destruct (num =? 0) eqn:H0; [lia|].
  set (e := if num * 2 ^ Z.max 0 (- (Z.log2 num - Z.log2 den))
                 <? den * 2 ^ Z.max 0 (Z.log2 num - Z.log2 den)
            then Z.log2 num - Z.log2 den - 1
            else Z.log2 num - Z.log2 den) in *.
  assert (He : e <= 23).
  { destruct (Z.le_gt_cases e 23) as [|Hgt]; [done|].
    rewrite (Z.max_r 0 e), (Z.max_l 0 (- e)) in Hexp by lia.
    change (2 ^ 0) with 1 in Hexp.
    assert (2 ^ 24 <= 2 ^ e) by (apply Z.pow_le_mono_r; lia). nia. }
  rewrite (Z.max_r 0 (23 - e)), (Z.max_l 0 (- (23 - e))) by lia.
  change (2 ^ 0) with 1. rewrite Z.mul_1_r.
  set (k := 23 - e) in *.
  assert (Hk : 0 < 2 ^ k) by (apply pow2_pos; lia).
  assert (Hq : 0 < num * 2 ^ k / den).
  { apply Z.div_str_pos. split; [done|].
    destruct (Z.le_gt_cases 0 e) as [Hpos|Hneg].
    - rewrite (Z.max_r 0 e), (Z.max_l 0 (- e)) in Hexp by lia.
      change (2 ^ 0) with 1 in Hexp.
      pose proof (pow2_pos e Hpos). nia.
    - rewrite (Z.max_l 0 e), (Z.max_r 0 (- e)) in Hexp by lia.
      change (2 ^ 0) with 1 in Hexp.
      assert (Hsplit : 2 ^ k = 2 ^ (- e) * 2 ^ 23).
      { rewrite <- Z.pow_add_r by lia. f_equal. lia. }
      rewrite Hsplit. nia. }
  pose proof (Z.div_mod (num * 2 ^ k) den ltac:(lia)) as Hdm.
  pose proof (Z.mod_pos_bound (num * 2 ^ k) den Hden) as Hr.
  set (q := num * 2 ^ k / den) in *. set (r := (num * 2 ^ k) mod den) in *.
  assert (Hup : den * q + r <= bound * 2 ^ k * den) by nia.
  assert (Hcases : q < bound * 2 ^ k \/ (q = bound * 2 ^ k /\ r = 0)) by nia.
  assert (Hke : - (e - 23) = k) by lia.
  destruct (2 * r <? den) eqn:Hlow.
  { eexists _, _. split; [reflexivity|]. rewrite Hke. lia. }
  destruct Hcases as [Hlt|[_ ->]]; [|lia].
  destruct (den <? 2 * r).
  { eexists _, _. split; [reflexivity|]. rewrite Hke. lia. }
  destruct (Z.even q); eexists _, _; (split; [reflexivity|]; rewrite Hke; lia).
Qed.

Lemma roundToInt_le (m e bound : Z) :
  e <= 0 -> 0 <= m <= bound * 2 ^ (- e) ->
  0 <= float32.roundToInt m e <= bound.
Proof.
  intros He Hm. unfold float32.roundToInt.
  destruct (0 <=? e) eqn:H0.
  { assert (e = 0) as -> by lia. change (2 ^ (- 0)) with 1 in Hm.
    change (2 ^ 0) with 1. lia. }
  assert (Hd : 0 < 2 ^ (- e)) by (apply pow2_pos; lia).
  pose proof (Z.div_mod m (2 ^ (- e)) ltac:(lia)) as Hdm.
  pose proof (Z.mod_pos_bound m (2 ^ (- e)) Hd) as Hr.
  set (d := 2 ^ (- e)) in *. set (q := m / d) in *. set (r := m mod d) in *.
  assert (Hq : 0 <= q) by nia.
  assert (Hcases : q < bound \/ (q = bound /\ r = 0)) by nia.
  destruct (2 * r <? d) eqn:Hlow; [lia|].
  destruct Hcases as [Hlt|[_ ->]]; [|lia].
  destruct (d <? 2 * r); [lia|]. destruct (Z.even q); lia.
Qed.

(** An [int] below [2^24] converts to [float32] without a loss. *)
Lemma ofInt_exact (n : Z) :
  0 < n < 2 ^ 24 ->
  float32.ofInt n
  = float32.Finite (n * 2 ^ (23 - Z.log2 n)) (Z.log2 n - 23).
Proof.
  intros [Hn Hlt]. unfold float32.ofInt, float32.round.
  destruct (n =? 0) eqn:H0; [lia|].
  change (Z.log2 1) with 0. rewrite Z.sub_0_r.
  pose proof (Z.log2_spec n Hn) as [Hlo Hhi].
  pose proof (Z.log2_nonneg n) as Hl.
  assert (Hl23 : Z.log2 n <= 23).
  { destruct (Z.le_gt_cases (Z.log2 n) 23) as [|Hgt]; [done|].
    assert (2 ^ 24 <= 2 ^ Z.log2 n) by (apply Z.pow_le_mono_r; lia). lia. }
  set (l := Z.log2 n) in *.
  rewrite (Z.max_l 0 (- l)) by lia. rewrite (Z.max_r 0 l) by lia.
  change (2 ^ 0) with 1. rewrite Z.mul_1_r, Z.mul_1_l.
  destruct (n <? 2 ^ l) eqn:Hc; [lia|].
  rewrite (Z.max_r 0 (23 - l)) by lia. rewrite (Z.max_l 0 (- (23 - l))) by lia.
  change (2 ^ 0) with 1. rewrite Z.div_1_r, Z.mod_1_r.
  change (2 * 0 <? 1 * 1) with true. reflexivity.
Qed.

(** X13.  With at least one server and fewer than [2^24], the score printed
    is an integer from 0 to 100. *)
Theorem score_is_percentage (servers : list server) :
  servers <> [] ->
  Z.of_nat (length servers) < 2 ^ 24 ->
  exists k, 0 <= k <= 100
            /\ score (reportOf servers) = NilZero.string_of_int (Z.to_int k).
Proof.
  intros Hne Hsmall.
  assert (Hlen : 0 < Z.of_nat (length servers)).
  { destruct servers; [done | simpl; lia]. }
  destruct (reportOf_fields servers) as (_ & _ & ->).
  destruct (scoreOf_formula servers) as (-> & _).
  pose proof (countValue_le (expect (reportOf servers)) servers) as Hle.
  pose proof (countValue_nonneg (expect (reportOf servers)) servers) as Hge.
  set (c := countValue (expect (reportOf servers)) servers) in *.
  set (n := Z.of_nat (length servers)) in *.
  rewrite (ofInt_exact n) by lia.
  destruct (Z.eq_dec c 0) as [->|Hc].
  { exists 0. split; [lia|].
    change (float32.ofInt 0) with (float32.Finite 0 0). unfold float32.div.
    assert (Hmn : 0 < n * 2 ^ (23 - Z.log2 n)).
    { pose proof (Z.log2_spec n Hlen) as [Hlo Hhi].
      assert (Z.log2 n <= 23).
      { destruct (Z.le_gt_cases (Z.log2 n) 23) as [|Hgt]; [done|].
        assert (2 ^ 24 <= 2 ^ Z.log2 n) by (apply Z.pow_le_mono_r; lia). lia. }
      pose proof (pow2_pos (23 - Z.log2 n) ltac:(lia)). nia. }
    destruct (n * 2 ^ (23 - Z.log2 n) =? 0) eqn:H0; [lia|].
    rewrite Z.mul_0_l. reflexivity. }
  rewrite (ofInt_exact c) by lia.
  pose proof (Z.log2_spec n Hlen) as [Hnlo Hnhi].
  pose proof (Z.log2_spec c ltac:(lia)) as [Hclo Hchi].
  pose proof (Z.log2_nonneg c) as Hlc. pose proof (Z.log2_nonneg n) as Hln.
  pose proof (Z.log2_le_mono c n ltac:(lia)) as Hmono.
  assert (Hn23 : Z.log2 n <= 23).
  { destruct (Z.le_gt_cases (Z.log2 n) 23) as [|Hgt]; [done|].
    assert (2 ^ 24 <= 2 ^ Z.log2 n) by (apply Z.pow_le_mono_r; lia). lia. }
  set (lc := Z.log2 c) in *. set (ln := Z.log2 n) in *.
  pose proof (pow2_pos (23 - lc) ltac:(lia)) as Hpc.
  pose proof (pow2_pos (23 - ln) ltac:(lia)) as Hpn.
  pose proof (pow2_pos (ln - lc) ltac:(lia)) as Hpd.
  unfold float32.div.
  destruct (n * 2 ^ (23 - ln) =? 0) eqn:H0; [nia|].
  replace (lc - 23 - (ln - 23)) with (lc - ln) by lia.
  replace (ln - 23 - (lc - 23)) with (ln - lc) by lia.
  rewrite (Z.max_l 0 (lc - ln)) by lia. rewrite (Z.max_r 0 (ln - lc)) by lia.
  change (2 ^ 0) with 1. rewrite Z.mul_1_r.
  assert (Hsplit : 2 ^ (23 - ln) * 2 ^ (ln - lc) = 2 ^ (23 - lc)).
  { rewrite <- Z.pow_add_r by lia. f_equal. lia. }
  destruct (round_le_int (c * 2 ^ (23 - lc)) (n * 2 ^ (23 - ln) * 2 ^ (ln - lc)) 1)
    as (m1 & e1 & -> & He1 & Hm1); [nia | nia | lia | |].
  { rewrite <- Z.mul_assoc, Hsplit. nia. }
  change (float32.ofInt 100) with (float32.Finite 13107200 (-17)).
  unfold float32.mul.
  rewrite (Z.max_l 0 (-17 + e1)) by lia. rewrite (Z.max_r 0 (- (-17 + e1))) by lia.
  change (2 ^ 0) with 1. rewrite Z.mul_1_r.
  pose proof (pow2_pos (- e1) ltac:(lia)) as Hpe.
  assert (Hden : 2 ^ (- (-17 + e1)) = 131072 * 2 ^ (- e1)).
  { replace (- (-17 + e1)) with (17 + - e1) by lia.
    rewrite Z.pow_add_r by lia. reflexivity. }
  destruct (round_le_int (13107200 * m1) (2 ^ (- (-17 + e1))) 100)
    as (m & e & -> & He & Hm); [lia | rewrite Hden; lia | lia | rewrite Hden; lia |].
  exists (float32.roundToInt m e). split; [|reflexivity].
  apply roundToInt_le; [done | lia].
Qed.

Lemma score_is_percentage_witness :
  exists k, 0 <= k <= 100
            /\ score (reportOf exampleServers)
               = NilZero.string_of_int (Z.to_int k).
Proof.
  apply (score_is_percentage exampleServers); [discriminate | reflexivity].
Defined.

(** ** Payloads between servers *)

Lemma Marshal_wellFormed (r : state) :
  wellFormed r = true -> exists buf, json.Marshal r = Some buf.
Proof.
  intros Hwf. unfold wellFormed in Hwf. apply andb_true_iff in Hwf as [Ht _].
  destruct (strictRFC3339_format _ Ht) as [_ [ts Hts]].
  unfold json.Marshal, json.marshalTime. rewrite Hts. eauto.
Qed.

Lemma Unmarshal_Message (r : state) :
  wellFormed r = true ->
  json.Unmarshal (Message {| embedded := r |}) = Some r.
Proof.
  intros Hwf. destruct (Marshal_wellFormed r Hwf) as [buf Hbuf].
  unfold Message. cbn [embedded]. rewrite Hbuf.
  unfold wellFormed in Hwf. apply andb_true_iff in Hwf as [Ht Hv].
  destruct (strictRFC3339_format _ Ht) as [Hzone _].
  by apply Unmarshal_Marshal.
Qed.

Lemma NotifyMsg_Message (r : state) (peer : server) :
  wellFormed r = true ->
  NotifyMsg (Message {| embedded := r |}) peer
  = Returned (processStateChange r peer).
Proof. intros Hwf. unfold NotifyMsg. by rewrite Unmarshal_Message. Qed.

(** X14.  Two well-formed records that differ have payloads that differ. *)
Theorem Message_distinguishes (a b : state) :
  wellFormed a = true -> wellFormed b = true -> a <> b ->
  Message {| embedded := a |} <> Message {| embedded := b |}.
Proof.
  intros Ha Hb Hne Heq.
  pose proof (Unmarshal_Message a Ha) as Hda.
  rewrite Heq, (Unmarshal_Message b Hb) in Hda. congruence.
Qed.

Lemma Message_distinguishes_witness :
  Message {| embedded := stateAt 5 "red" |}
  <> Message {| embedded := stateAt 5 "blue" |}.
Proof.
  apply (Message_distinguishes (stateAt 5 "red") (stateAt 5 "blue"));
    [reflexivity | reflexivity | discriminate].
Defined.

(** X15.  A buffer that [NotifyMsg] decodes to a record whose zone is less
    than a day away from UTC gives a record that [Message] encodes again
    without loss: the payload that a server queues for the record has, on
    every peer, the effect of the buffer it came from.  ([NotifyMsg] also
    decodes the zones from [24:00] on, which [Message] does not encode.) *)
Theorem accepted_payload_relays (buf : string) (r : state) (s peer : server) :
  json.Unmarshal buf = Some r ->
  Z.abs (time.zone (TS r)) < 86400 ->
  NotifyMsg buf s = Returned (processStateChange r s)
  /\ json.Unmarshal (Message {| embedded := r |}) = Some r
  /\ NotifyMsg (Message {| embedded := r |}) peer = NotifyMsg buf peer.
Proof.
  intros Hr Hz. pose proof (Unmarshal_wellFormed buf r Hr Hz) as Hwf.
  split; [|split].
  - unfold NotifyMsg. by rewrite Hr.
  - by apply Unmarshal_Message.
  - rewrite NotifyMsg_Message by done. unfold NotifyMsg. by rewrite Hr.
Qed.

Lemma accepted_payload_relays_witness :
  NotifyMsg
    (Message {| embedded := {| TS := {| time.abs_ns := 1500000000;
                                        time.zone := 3600 |};
                               Value := "a<b" |} |})
    (started (newServer 1 (stateAt 7 "red")))
  = NotifyMsg looseExample (started (newServer 1 (stateAt 7 "red"))).
Proof.
  apply (accepted_payload_relays looseExample
           {| TS := {| time.abs_ns := 1500000000; time.zone := 3600 |};
              Value := "a<b" |}
           (started (newServer 0 (stateAt 3 "blue")))
           (started (newServer 1 (stateAt 7 "red")))).
  - vm_compute. reflexivity.
  - simpl. lia.
Defined.

(** *** What a server sends, a peer decodes *)

Lemma relayable_started (c : created) :
  wellFormed (created_state c) = true -> relayable (started c).
Proof. intros Hwf. split; [done | constructor]. Qed.

Lemma processStateChange_relayable (n : state) (s : server) :
  wellFormed n = true -> relayable s -> relayable (processStateChange n s).
Proof.
  intros Hn [Hs Hq]. split; [by apply processStateChange_wellFormed|].
  destruct (time.Before (TS n) (TS (srv_state s))) eqn:Hb.
  { unfold processStateChange. by rewrite Hb. }
  rewrite (processStateChange_accepted n s Hb). cbn [queue].
  apply (QueueBroadcast_holds
           (fun bc => exists r, bc = isStateChange {| embedded := r |}
                                /\ wellFormed r = true)); [exact Hq|].
  by exists n.
Qed.

Lemma GetBroadcasts_relayable overhead limit transmitLimit (s : server) :
  relayable s -> relayable (snd (GetBroadcasts overhead limit transmitLimit s)).
Proof.
  intros [Hs Hq]. unfold relayable.
  destruct (GetBroadcasts_fields overhead limit transmitLimit s)
    as (_ & -> & _ & _ & ->).
  split; [done|].
  by apply (selectBroadcasts_holds
              (fun bc => exists r, bc = isStateChange {| embedded := r |}
                                   /\ wellFormed r = true)).
Qed.

Lemma run_relayable (evs : list event) :
  forall s, relayable s -> Forall wellFormedCall evs ->
    relayable (finalServer (snd (run evs s))).
Proof.
  induction evs as [|ev evs IH]; intros s Hs Hevs; cbn [run]; [done|].
  apply Forall_cons in Hevs as [Hev Hevs].
  destruct ev as [buf|buf join|now k|overhead limit transmitLimit|join].
  - unfold NotifyMsg. destruct (json.Unmarshal buf) as [r|] eqn:Hr; [|done].
    apply IH; [|done]. apply processStateChange_relayable; [|done].
    apply (Unmarshal_wellFormed buf); [done|]. by apply Hev.
  - unfold MergeRemoteState.
    destruct (json.Unmarshal buf) as [r|] eqn:Hr; [|done].
    apply IH; [|done]. apply processStateChange_relayable; [|done].
    apply (Unmarshal_wellFormed buf); [done|]. by apply Hev.
  - apply IH; [|done]. unfold mutate.
    apply processStateChange_relayable; [|done].
    by apply nextState_wellFormed.
  - specialize (IH _ (GetBroadcasts_relayable overhead limit transmitLimit s Hs)
                  Hevs).
    by destruct (run evs (snd (GetBroadcasts overhead limit transmitLimit s))).
  - by apply IH.
Qed.

(** X16.  A server created with a well-formed record, after any run of calls
    in which the clock of every [mutate] is in the range of RFC 3339 and
    every buffer received decodes to a zone less than a day away from
    UTC, sends only payloads that a peer decodes: for the payload of
    [LocalState] and for every payload of [GetBroadcasts], [NotifyMsg] and
    [MergeRemoteState] on the peer return, and do not end the process. *)
Theorem sent_payloads_decode
    (numServers : Z) (initial : state) (evs : list event) (peer : server) :
  wellFormed initial = true ->
  Forall wellFormedCall evs ->
  let s := finalServer (snd (run evs (started (newServer numServers initial)))) in
  (forall join,
     MergeRemoteState (LocalState join s) join peer
     = Returned (processStateChange (srv_state s) peer))
  /\ forall overhead limit transmitLimit payload,
       In payload (fst (GetBroadcasts overhead limit transmitLimit s)) ->
       exists r, json.Unmarshal payload = Some r
                 /\ NotifyMsg payload peer
                    = Returned (processStateChange r peer).
Proof.
  intros Hwf Hevs. cbv zeta.
  pose proof (run_relayable evs _ (relayable_started (newServer numServers initial) Hwf)
                Hevs) as [Hs Hq].
  set (s := finalServer (snd (run evs (started (newServer numServers initial))))) in *.
  split.
  - intros join. unfold MergeRemoteState.
    change (LocalState join s) with (Message {| embedded := srv_state s |}).
    by rewrite Unmarshal_Message.
  - intros overhead limit transmitLimit payload.
    rewrite GetBroadcasts_payloads. intros Hp%in_map_iff.
    destruct Hp as (x & <- & Hx).
    destruct (selectBroadcasts_holds
                (fun bc => exists r, bc = isStateChange {| embedded := r |}
                                     /\ wellFormed r = true)
                overhead limit transmitLimit (queue s) Hq) as [Hsent _].
    rewrite Forall_forall in Hsent.
    destruct (Hsent x) as (r & Hr & Hwfr); [by apply list_elem_of_In|].
    exists r. rewrite Hr. cbn [memberlist.Message anyBroadcast_Broadcast].
    split; [by apply Unmarshal_Message | by apply NotifyMsg_Message].
Qed.

Lemma sent_payloads_decode_witness :
  MergeRemoteState
    (LocalState true
       (finalServer
          (snd (run [callNotifyMsg looseExample; callGetBroadcasts 2 1400 2]
                  (started (newServer 0 (stateAt 10 "green")))))))
    true (started (newServer 1 (stateAt 7 "red")))
  = Returned
      (processStateChange
         {| TS := {| time.abs_ns := 1500000000; time.zone := 3600 |};
            Value := "a<b" |}
         (started (newServer 1 (stateAt 7 "red")))).
Proof.
  destruct (sent_payloads_decode 0 (stateAt 10 "green")
              [callNotifyMsg looseExample; callGetBroadcasts 2 1400 2]
              (started (newServer 1 (stateAt 7 "red"))) eq_refl) as [Hlocal _].
  - constructor; [|by repeat constructor].
    intros r Hr. vm_compute in Hr. injection Hr as <-. simpl. lia.
  - apply (Hlocal true).
Defined.

(** X17.  A record whose time [Time.MarshalJSON] refuses has the empty
    payload, since [Message] and [LocalState] drop the error of
    [json.Marshal]; a peer that receives this payload calls
    [logger.Fatal]. *)
Theorem unencodable_record_ends_peer (s peer : server) (join : bool) :
  time.appendStrictRFC3339 (TS (srv_state s)) = None ->
  Message {| embedded := srv_state s |} = ""
  /\ LocalState join s = ""
  /\ NotifyMsg (Message {| embedded := srv_state s |}) peer = Exited peer
  /\ MergeRemoteState (LocalState join s) join peer = Exited peer.
Proof.
  intros Hts.
  assert (Hm : json.Marshal (srv_state s) = None).
  { unfold json.Marshal, json.marshalTime. by rewrite Hts. }
  assert (Hmsg : Message {| embedded := srv_state s |} = "").
  { unfold Message. cbn [embedded]. by rewrite Hm. }
  assert (Hloc : LocalState join s = "").
  { unfold LocalState. by rewrite Hm. }
  rewrite Hmsg, Hloc. by repeat split.
Qed.

Lemma unencodable_record_ends_peer_witness :
  srv_state (mutate {| time.abs_ns := 3652059 * 86400 * 1000000000;
                       time.zone := 0 |} 0 (started (newServer 0 (stateAt 10 "green"))))
  = {| TS := {| time.abs_ns := 3652059 * 86400 * 1000000000; time.zone := 0 |};
       Value := "red" |}
  /\ NotifyMsg
       (Message
          {| embedded :=
               srv_state (mutate {| time.abs_ns := 3652059 * 86400 * 1000000000;
                                    time.zone := 0 |} 0
                            (started (newServer 0 (stateAt 10 "green")))) |})
       (started (newServer 1 (stateAt 7 "red")))
     = Exited (started (newServer 1 (stateAt 7 "red"))).
Proof.
  split; [reflexivity|].
  apply (unencodable_record_ends_peer
           (mutate {| time.abs_ns := 3652059 * 86400 * 1000000000;
                      time.zone := 0 |} 0 (started (newServer 0 (stateAt 10 "green"))))
           (started (newServer 1 (stateAt 7 "red"))) true).
  vm_compute. reflexivity.
Defined.

(** X18.  On [StateChange]s, [Invalidates] is a strict order by timestamp:
    no broadcast invalidates itself, two broadcasts do not invalidate each
    other, the relation is transitive, and two broadcasts of which neither
    invalidates the other have the same instant.  A broadcast of another
    type is never invalidated. *)
Theorem Invalidates_strict_order (a b c : StateChange) :
  Invalidates a (isStateChange a) = false
  /\ (Invalidates a (isStateChange b) = true ->
      Invalidates b (isStateChange a) = false)
  /\ (Invalidates a (isStateChange b) = true ->
      Invalidates b (isStateChange c) = true ->
      Invalidates a (isStateChange c) = true)
  /\ (Invalidates a (isStateChange b) = false ->
      Invalidates b (isStateChange a) = false ->
      time.Equal (TS (embedded a)) (TS (embedded b)) = true)
  /\ forall payload, Invalidates a (otherBroadcast payload) = false.
Proof.
  unfold Invalidates, time.After, time.Before, time.Equal.
  repeat split; intros; try done; lia.
Qed.

(** X19.  Two servers that hold well-formed records and merge each other's
    [LocalState], taken before either merges, end with records of the same
    instant.  When one record was older than the other, both servers hold
    the newer record: the server that held it keeps it and sends no
    update, the other takes it and sends one.  When the instants were the
    same, each holds the record the other held, and both send an
    update. *)
Theorem exchange_levels_timestamps (a b : server) (join : bool) :
  wellFormed (srv_state a) = true ->
  wellFormed (srv_state b) = true ->
  exists a' b',
    MergeRemoteState (LocalState join b) join a = Returned a'
    /\ MergeRemoteState (LocalState join a) join b = Returned b'
    /\ time.Equal (TS (srv_state a')) (TS (srv_state b')) = true
    /\ (time.Before (TS (srv_state a)) (TS (srv_state b)) = true ->
        srv_state a' = srv_state b /\ srv_state b' = srv_state b
        /\ updates a' = S (updates a) /\ b' = b)
    /\ (time.Before (TS (srv_state b)) (TS (srv_state a)) = true ->
        srv_state a' = srv_state a /\ srv_state b' = srv_state a
        /\ a' = a /\ updates b' = S (updates b))
    /\ (time.Equal (TS (srv_state a)) (TS (srv_state b)) = true ->
        srv_state a' = srv_state b /\ srv_state b' = srv_state a
        /\ updates a' = S (updates a) /\ updates b' = S (updates b)).
Proof.
  intros Ha Hb.
  exists (processStateChange (srv_state b) a),
         (processStateChange (srv_state a) b).
  split; [|split].
  - unfold MergeRemoteState.
    change (LocalState join b) with (Message {| embedded := srv_state b |}).
    by rewrite Unmarshal_Message.
  - unfold MergeRemoteState.
    change (LocalState join a) with (Message {| embedded := srv_state a |}).
    by rewrite Unmarshal_Message.
  - unfold processStateChange, time.Equal, time.Before.
    destruct (Z.ltb_spec (time.abs_ns (TS (srv_state b)))
                (time.abs_ns (TS (srv_state a))));
      destruct (Z.ltb_spec (time.abs_ns (TS (srv_state a)))
                  (time.abs_ns (TS (srv_state b))));
      cbn [srv_state updates]; repeat split; intros; try lia; auto;
      try discriminate.
Qed.

Lemma exchange_levels_timestamps_witness :
  exists a' b',
    MergeRemoteState (LocalState false (started (newServer 1 (stateAt 5 "blue")))) false
      (started (newServer 0 (stateAt 5 "red"))) = Returned a'
    /\ MergeRemoteState (LocalState false (started (newServer 0 (stateAt 5 "red")))) false
         (started (newServer 1 (stateAt 5 "blue"))) = Returned b'
    /\ srv_state a' = stateAt 5 "blue"
    /\ srv_state b' = stateAt 5 "red".
Proof.
  destruct (exchange_levels_timestamps (started (newServer 0 (stateAt 5 "red")))
              (started (newServer 1 (stateAt 5 "blue"))) false eq_refl eq_refl)
    as (a' & b' & Ha & Hb & _ & _ & _ & Hswap).
  destruct (Hswap eq_refl) as (Hsa & Hsb & _).
  exists a', b'. repeat split; assumption.
Defined.

(** ** Dissemination *)

(** X20.  When the record of a server, well-formed, after the zero [Time]
    and not older than the record of any server of a list, is delivered to
    every server of the list, every [NotifyMsg] returns, every server then
    holds that record, and the report expects its value and prints the
    score 100. *)
Theorem dissemination_converges (src : server) (servers : list server) :
  wellFormed (srv_state src) = true ->
  time.After (TS (srv_state src)) time.zero = true ->
  servers <> [] ->
  Forall (fun b => time.After (TS (srv_state b)) (TS (srv_state src)) = false)
    servers ->
  let reached := map (processStateChange (srv_state src)) servers in
  map (NotifyMsg (Message {| embedded := srv_state src |})) servers
  = map Returned reached
  /\ Forall (fun b => srv_state b = srv_state src) reached
  /\ expect (reportOf reached) = Value (srv_state src)
  /\ score (reportOf reached) = "100".
Proof.
  intros Hwf Hzero Hne Hold. cbv zeta.
  set (reached := map (processStateChange (srv_state src)) servers).
  assert (Hall : Forall (fun b => srv_state b = srv_state src) reached).
  { unfold reached. apply Forall_map.
    eapply Forall_impl; [exact Hold|]. intros b Hb. simpl in *.
    rewrite processStateChange_state.
    rewrite After_Before in Hb. apply Before_false_ge in Hb.
    destruct (time.Before (TS (srv_state src)) (TS (srv_state b))) eqn:Hlt;
      [|done].
    apply Before_lt in Hlt. lia. }
  assert (Hne' : reached <> []).
  { unfold reached. by destruct servers. }
  assert (Hexp : expect (reportOf reached) = Value (srv_state src)).
  { destruct (reportOf_fields reached) as (-> & _).
    destruct (scan_newest_held reached) as (s & Hs & ->).
    - destruct reached as [|b l]; [done|].
      apply Forall_cons in Hall as [Hb _]. apply Exists_cons_hd.
      rewrite Hb. rewrite After_Before in Hzero. by apply Before_lt in Hzero.
    - rewrite Forall_forall in Hall. f_equal. by apply Hall, list_elem_of_In. }
  split; [|split; [exact Hall|split; [exact Hexp|]]].
  - unfold reached. rewrite map_map. apply map_ext. intros b.
    by apply NotifyMsg_Message.
  - apply score_all_agree; [done|]. rewrite Hexp.
    unfold countValue. f_equal. f_equal. apply filter_Forall.
    eapply Forall_impl; [exact Hall|]. intros b Hb. simpl. by rewrite Hb.
Qed.

Lemma dissemination_converges_witness :
  score (reportOf (map (processStateChange (stateAt 5 "red")) exampleServers))
  = "100"
  /\ map (NotifyMsg (Message {| embedded := stateAt 5 "red" |})) exampleServers
     = map Returned
         (map (processStateChange (stateAt 5 "red")) exampleServers).
Proof.
  destruct (dissemination_converges (started (newServer 0 (stateAt 5 "red")))
              exampleServers eq_refl eq_refl) as (Hret & _ & _ & Hscore).
  - discriminate.
  - repeat constructor.
  - split; [exact Hscore | exact Hret].
Defined.

(** ** The servers of [main] *)

Lemma length_append (a b : string) :
  String.length (a +:+ b) = (String.length a + String.length b)%nat.
Proof. induction a as [|c a IH]; simpl; [done | by rewrite IH]. Qed.

Lemma append_inv_tail (t a b : string) : a +:+ t = b +:+ t -> a = b.
Proof.
  revert b. induction a as [|c a IH]; intros [|d b] Heq; simpl in Heq.
  - done.
  - apply (f_equal String.length) in Heq. simpl in Heq.
    rewrite length_append in Heq. lia.
  - apply (f_equal String.length) in Heq. simpl in Heq.
    rewrite length_append in Heq. lia.
  - injection Heq as -> Heq. f_equal. by apply IH.
Qed.

Lemma string_of_Z_inj (x y : Z) :
  NilZero.string_of_int (Z.to_int x) = NilZero.string_of_int (Z.to_int y) ->
  x = y.
Proof.
  assert (Hnn : forall z, Z.to_int z <> Decimal.Pos Decimal.Nil
                          /\ Z.to_int z <> Decimal.Neg Decimal.Nil).
  { intros [|p|p]; simpl; split; try discriminate;
      intros [= Hp]; by apply Unsigned.to_uint_nonnil in Hp. }
  intros Heq. apply to_int_inj.
  destruct (Hnn x) as [Hx1 Hx2], (Hnn y) as [Hy1 Hy2].
  pose proof (NilZero.isi _ Hx1 Hx2) as Hx.
  rewrite Heq, (NilZero.isi _ Hy1 Hy2) in Hx. congruence.
Qed.

Lemma newServer_name_inj (x y : Z) (a b : state) :
  created_name (newServer x a) = created_name (newServer y b) -> x = y.
Proof.
  simpl. intros [= Heq]. apply append_inv_tail in Heq. by apply string_of_Z_inj.
Qed.

Lemma newServers_lookup (initials : list state) :
  forall (numServers : Z) (i : nat) (c : created),
    newServers numServers initials !! i = Some c ->
    exists initial,
      initials !! i = Some initial
      /\ c = newServer (numServers + Z.of_nat i) initial.
Proof.
  induction initials as [|initial rest IH]; intros numServers i c; [done|].
  destruct i as [|i]; simpl.
  - intros [= <-]. exists initial. split; [done|]. f_equal. lia.
  - intros Hc. destruct (IH _ _ _ Hc) as (r & Hr & ->).
    exists r. split; [done|]. f_equal. lia.
Qed.

(** X21.  The servers that the loop of [main] creates hold the records of
    [nextState] in order; the server created at the counter value [i] is
    what [newServer] returns for [i], with the port [defaultPort + i] and
    the name made of [i]; no two servers have the same name or the same
    port.  (The queue is nil until [start] sets it.) *)
Theorem newServers_distinct (initials : list state) :
  map created_state (newServers 0 initials) = initials
  /\ (forall i c, newServers 0 initials !! i = Some c ->
        created_port c = defaultPort + Z.of_nat i
        /\ created_name c
           = "[ s" +:+ NilZero.string_of_int (Z.to_int (Z.of_nat i)) +:+ " ] "
        /\ c = newServer (Z.of_nat i) (created_state c))
  /\ NoDup (map created_name (newServers 0 initials))
  /\ NoDup (map created_port (newServers 0 initials)).
Proof.
  split; [|split; [|split]].
  - generalize 0. induction initials as [|initial rest IH]; intros k; [done|].
    simpl. by rewrite IH.
  - intros i c Hc. destruct (newServers_lookup _ _ _ _ Hc) as (r & _ & ->).
    by rewrite Z.add_0_l.
  - apply NoDup_alt. intros i j x Hi Hj.
    rewrite list_lookup_fmap in Hi, Hj.
    destruct (newServers 0 initials !! i) as [si|] eqn:Hsi; [|done].
    destruct (newServers 0 initials !! j) as [sj|] eqn:Hsj; [|done].
    destruct (newServers_lookup _ _ _ _ Hsi) as (ri & _ & ->).
    destruct (newServers_lookup _ _ _ _ Hsj) as (rj & _ & ->).
    change (Some (created_name (newServer (0 + Z.of_nat i) ri)) = Some x) in Hi.
    change (Some (created_name (newServer (0 + Z.of_nat j) rj)) = Some x) in Hj.
    rewrite <- Hi in Hj. apply (inj Some) in Hj.
    apply newServer_name_inj in Hj. lia.
  - apply NoDup_alt. intros i j x Hi Hj.
    rewrite list_lookup_fmap in Hi, Hj.
    destruct (newServers 0 initials !! i) as [si|] eqn:Hsi; [|done].
    destruct (newServers 0 initials !! j) as [sj|] eqn:Hsj; [|done].
    destruct (newServers_lookup _ _ _ _ Hsi) as (ri & _ & ->).
    destruct (newServers_lookup _ _ _ _ Hsj) as (rj & _ & ->).
    change (Some (created_port (newServer (0 + Z.of_nat i) ri)) = Some x) in Hi.
    change (Some (created_port (newServer (0 + Z.of_nat j) rj)) = Some x) in Hj.
    rewrite <- Hi in Hj. apply (inj Some) in Hj. simpl in Hj. lia.
Qed.

(** ** The mutator *)

(** X22.  A tick of [mutate], with a clock after the zero [Time] and after
    the record of every server, leaves every other server as it was, gives
    the chosen server the new record, of which it sends one update, and
    makes the report expect the new colour. *)
Theorem mutateServers_sets_expectation
    (i : nat) (now : time.Time) (n : nat) (servers : list server) (s : server) :
  servers !! i = Some s ->
  (n < length colors)%nat ->
  time.After now time.zero = true ->
  Forall (fun a => time.Before (TS (srv_state a)) now = true) servers ->
  exists servers',
    mutateServers i now n servers = Some servers'
    /\ length servers' = length servers
    /\ (forall j, j <> i -> servers' !! j = servers !! j)
    /\ (exists s', servers' !! i = Some s'
          /\ srv_state s' = nextState now n
          /\ updates s' = S (updates s)
          /\ name s' = name s /\ port s' = port s)
    /\ expect (reportOf servers') = Value (nextState now n)
    /\ In (expect (reportOf servers')) colors.
Proof.
  intros Hi Hn Hzero Hold.
  assert (Hlt : (i < length servers)%nat) by (by eapply lookup_lt_Some).
  assert (Hs : time.Before (TS (srv_state s)) now = true).
  { rewrite Forall_forall in Hold. by eapply Hold, list_elem_of_lookup_2. }
  assert (Hacc : time.Before (TS (nextState now n)) (TS (srv_state s)) = false).
  { apply Before_lt in Hs. apply Before_false_ge. simpl. lia. }
  assert (Hexp : expect (reportOf (<[i := mutate now n s]> servers))
                 = Value (nextState now n)).
  { destruct (reportOf_fields (<[i := mutate now n s]> servers)) as (-> & _).
    rewrite insert_take_drop by done. rewrite scan_first_newest.
    - unfold mutate. by rewrite processStateChange_state, Hacc.
    - unfold mutate. rewrite processStateChange_state, Hacc. simpl.
      rewrite After_Before in Hzero. by apply Before_lt in Hzero.
    - unfold mutate. rewrite processStateChange_state, Hacc. simpl.
      apply Forall_take. eapply Forall_impl; [exact Hold|].
      intros a Ha. by apply Before_lt.
    - unfold mutate. rewrite processStateChange_state, Hacc. simpl.
      apply Forall_drop. eapply Forall_impl; [exact Hold|].
      intros a Ha. simpl in Ha. apply Before_lt in Ha. lia. }
  exists (<[i := mutate now n s]> servers).
  split; [by unfold mutateServers; rewrite Hi|].
  split; [by rewrite length_insert|].
  split; [by intros j Hj; rewrite list_lookup_insert_ne|].
  split; [|split; [exact Hexp|]].
  - exists (mutate now n s). split; [by apply list_lookup_insert_eq|].
    unfold mutate. rewrite (processStateChange_accepted _ _ Hacc). by simpl.
  - rewrite Hexp. cbn [nextState Value]. by apply nth_In.
Qed.

Lemma mutateServers_sets_expectation_witness :
  exists servers',
    mutateServers 2 {| time.abs_ns := 9; time.zone := 0 |} 3 exampleServers
    = Some servers'
    /\ expect (reportOf servers') = "green".
Proof.
  destruct (mutateServers_sets_expectation 2
              {| time.abs_ns := 9; time.zone := 0 |} 3 exampleServers
              (started (newServer 2 (stateAt 3 "blue"))) eq_refl)
    as (servers' & Hm & _ & _ & _ & Hexp & _).
  - simpl. lia.
  - reflexivity.
  - repeat constructor.
  - exists servers'. split; [exact Hm | exact Hexp].
Defined.

(** ** The order of delivery *)

Lemma NoDup_map_inj {A : Type} (f : A -> Z) (l : list A) (x y : A) :
  NoDup (map f l) -> In x l -> In y l -> f x = f y -> x = y.
Proof.
  induction l as [|a l IH]; [done|].
  simpl. intros Hnd [->|Hx] [->|Hy] Heq; try done.
  - apply NoDup_cons in Hnd as [Hnotin _]. destruct Hnotin.
    rewrite Heq. by apply list_elem_of_In, in_map.
  - apply NoDup_cons in Hnd as [Hnotin _]. destruct Hnotin.
    rewrite <- Heq. by apply list_elem_of_In, in_map.
  - apply NoDup_cons in Hnd as [_ Hnd]. by apply IH.
Qed.

(** X23.  The records delivered to a server in two different orders leave
    it with records of the same instant, and with the same record when the
    timestamps of the records, the held one included, are all different. *)
Theorem deliver_order_irrelevant (rs rs' : list state) (s : server) :
  rs ≡ₚ rs' ->
  time.Equal (TS (srv_state (deliver rs s))) (TS (srv_state (deliver rs' s)))
  = true
  /\ (NoDup (map (fun r => time.abs_ns (TS r)) (srv_state s :: rs)) ->
      srv_state (deliver rs s) = srv_state (deliver rs' s)).
Proof.
  intros Hperm.
  destruct (deliver_max rs s) as [Hin Hmax].
  destruct (deliver_max rs' s) as [Hin' Hmax'].
  assert (Hp : forall r, In r (srv_state s :: rs') -> In r (srv_state s :: rs)).
  { intros r [<-|Hr]; [by left|]. right.
    apply list_elem_of_In. rewrite Hperm. by apply list_elem_of_In. }
  assert (Hp' : forall r, In r (srv_state s :: rs) -> In r (srv_state s :: rs')).
  { intros r [<-|Hr]; [by left|]. right.
    apply list_elem_of_In. rewrite <- Hperm. by apply list_elem_of_In. }
  assert (Heq : time.abs_ns (TS (srv_state (deliver rs s)))
                = time.abs_ns (TS (srv_state (deliver rs' s)))).
  { pose proof (Hmax _ (Hp _ Hin')). pose proof (Hmax' _ (Hp' _ Hin)). lia. }
  split.
  - unfold time.Equal. by apply Z.eqb_eq.
  - intros Hnd.
    by apply (NoDup_map_inj (fun r => time.abs_ns (TS r)) (srv_state s :: rs));
      [| |apply Hp|].
Qed.

Lemma deliver_order_irrelevant_witness :
  srv_state (deliver [stateAt 5 "red"; stateAt 9 "blue"; stateAt 7 "green"]
               (started (newServer 0 (stateAt 3 "violet"))))
  = srv_state (deliver [stateAt 9 "blue"; stateAt 7 "green"; stateAt 5 "red"]
                 (started (newServer 0 (stateAt 3 "violet")))).
Proof.
  apply (deliver_order_irrelevant
           [stateAt 5 "red"; stateAt 9 "blue"; stateAt 7 "green"]
           [stateAt 9 "blue"; stateAt 7 "green"; stateAt 5 "red"]
           (started (newServer 0 (stateAt 3 "violet")))).
  - apply (Permutation_cons_append [stateAt 9 "blue"; stateAt 7 "green"]
             (stateAt 5 "red")).
  - apply NoDup_ListNoDup. simpl.
    repeat (constructor; [simpl; lia|]). constructor.
Defined.

(** ** Payloads without a record *)

(** X24.  The empty buffer is not a JSON text: [NotifyMsg] calls
    [logger.Fatal] on it.  The texts [null] and [{}] decode to the zero
    record, which a server that holds a record after the zero [Time]
    ignores. *)
Theorem NotifyMsg_without_record (s : server) :
  NotifyMsg "" s = Exited s
  /\ NotifyMsg "null" s = Returned (processStateChange zeroState s)
  /\ NotifyMsg "{}" s = Returned (processStateChange zeroState s)
  /\ (time.After (TS (srv_state s)) time.zero = true ->
      NotifyMsg "null" s = Returned s /\ NotifyMsg "{}" s = Returned s).
Proof.
  assert (Hnull : NotifyMsg "null" s = Returned (processStateChange zeroState s))
    by reflexivity.
  assert (Hobj : NotifyMsg "{}" s = Returned (processStateChange zeroState s))
    by reflexivity.
  split; [reflexivity|]. split; [exact Hnull|]. split; [exact Hobj|].
  intros Hafter. rewrite Hnull, Hobj.
  unfold processStateChange. rewrite After_Before in Hafter.
  change (TS zeroState) with time.zero. by rewrite Hafter.
Qed.

(** ** One round of gossip *)

Lemma selectBroadcasts_single {B : Type} `{memberlist.Broadcast B}
    (y : memberlist.limitedBroadcast B) (g overhead limit transmitLimit : Z) :
  memberlist.transmits y = 0 ->
  0 < limit - overhead <= memberlist.MaxInt64 ->
  memberlist.msgLen y <= limit - overhead ->
  len (memberlist.Message (memberlist.b y)) <= limit - overhead ->
  memberlist.selectBroadcasts overhead limit transmitLimit
    {| memberlist.tq := [y]; memberlist.idGen := g |}
  = ([y], {| memberlist.tq := omap (resend transmitLimit) [y];
             memberlist.idGen := 0 |}).
Proof.
  intros Htr Hroom Hlen Hmsg.
  unfold memberlist.selectBroadcasts. cbn [memberlist.tq memberlist.idGen].
  unfold memberlist.getTransmitRange. cbn [map fold_right].
  change (memberlist.drainRounds [y]) with
    (1 + Z.to_nat (memberlist.transmits y - memberlist.transmits y + 1))%nat.
  rewrite Z.sub_diag. change (1 + Z.to_nat (0 + 1))%nat with 2%nat.
  cbn [memberlist.drain memberlist.tq]. rewrite Z.ltb_irrefl, Z.sub_0_r.
  assert (Hw : memberlist.wrap (limit - overhead) = limit - overhead).
  { unfold memberlist.wrap, memberlist.MaxInt64 in *.
    Z.div_mod_to_equations. lia. }
  rewrite Hw.
  destruct (limit - overhead <=? 0) eqn:Hfree; [lia|].
  assert (Hpick : memberlist.pick (memberlist.transmits y) (limit - overhead) [y]
                  = Some y).
  { unfold memberlist.pick. rewrite filter_cons.
    destruct (decide _) as [|Hno]; [done|]. destruct Hno.
    apply Is_true_true. rewrite !andb_true_iff. repeat split; lia. }
  rewrite Hpick.
  assert (Hdel : memberlist.deleteItem y
                   {| memberlist.tq := [y]; memberlist.idGen := g |}
                 = {| memberlist.tq := []; memberlist.idGen := 0 |}).
  { unfold memberlist.deleteItem. cbn [memberlist.tq]. rewrite filter_cons.
    destruct (decide (memberlist.same y y = false)) as [Hsame|]; [|done].
    by rewrite same_refl in Hsame. }
  rewrite Hdel. cbn [memberlist.tq].
  set (reinsert := if transmitLimit <=? memberlist.transmits y + 1 then []
                   else _).
  assert (Hre : reinsert = omap (resend transmitLimit) [y]).
  { subst reinsert. cbn [omap list_omap]. unfold resend.
    by destruct (transmitLimit <=? memberlist.transmits y + 1). }
  destruct (memberlist.wrap _ <=? 0).
  - rewrite Hre. cbn [app].
    rewrite fold_addItem by (by apply resend_distinct; repeat constructor).
    cbn [memberlist.tq memberlist.idGen]. by rewrite without_nil_r.
  - change (memberlist.pick (memberlist.transmits y) _ []) with
      (@None (memberlist.limitedBroadcast B)).
    cbn [memberlist.drain]. rewrite Hre. cbn [app].
    rewrite fold_addItem by (by apply resend_distinct; repeat constructor).
    cbn [memberlist.tq memberlist.idGen]. by rewrite without_nil_r.
Qed.

Lemma coherent_newer_sent (n : state) (s : server)
    (overhead limit transmitLimit : Z) :
  coherent s ->
  time.abs_ns (TS (srv_state s)) < time.abs_ns (TS n) ->
  0 < limit - overhead <= memberlist.MaxInt64 ->
  len (Message {| embedded := n |}) <= limit - overhead ->
  fst (GetBroadcasts overhead limit transmitLimit (processStateChange n s))
  = [Message {| embedded := n |}]
  /\ map (fun x => (memberlist.b x, memberlist.transmits x))
       (memberlist.tq
          (queue (snd (GetBroadcasts overhead limit transmitLimit
                         (processStateChange n s)))))
     = if transmitLimit <=? 1 then []
       else [(isStateChange {| embedded := n |}, 1)].
Proof.
  intros Hc Hlt Hroom Hlen.
  destruct (coherent_newer_queue n s Hc Hlt) as [g ->].
  unfold GetBroadcasts, memberlist.GetBroadcasts. cbn [queue].
  rewrite selectBroadcasts_single by done.
  cbn [fst snd map queue memberlist.tq omap memberlist.b
       memberlist.Message anyBroadcast_Broadcast].
  split; [reflexivity|].
  unfold resend. cbn [omap list_omap memberlist.transmits].
  change (0 + 1) with 1. by destruct (transmitLimit <=? 1).
Qed.

(** X25.  A record strictly newer than the held one, once taken, is what
    the next [GetBroadcasts] sends, alone, when the limit leaves room for
    its payload after the overhead; the item stays in the queue, with one
    transmit, unless the transmit limit is reached.  The room, the limit
    less the overhead, is a value of [int], so at most [MaxInt64]. *)
Theorem newer_record_is_sent_next
    (numServers : Z) (initial : state) (evs : list event) (newState : state)
    (overhead limit transmitLimit : Z) :
  let s := finalServer (snd (run evs (started (newServer numServers initial)))) in
  let s1 := processStateChange newState s in
  time.After (TS newState) (TS (srv_state s)) = true ->
  0 < limit - overhead <= memberlist.MaxInt64 ->
  len (Message {| embedded := newState |}) <= limit - overhead ->
  fst (GetBroadcasts overhead limit transmitLimit s1)
  = [Message {| embedded := newState |}]
  /\ map (fun x => (memberlist.b x, memberlist.transmits x))
       (memberlist.tq (queue (snd (GetBroadcasts overhead limit transmitLimit s1))))
     = if transmitLimit <=? 1 then []
       else [(isStateChange {| embedded := newState |}, 1)].
Proof.
  cbv zeta. intros Hafter Hroom Hlen.
  rewrite After_Before in Hafter. apply Before_lt in Hafter.
  apply coherent_newer_sent; try done.
  apply run_coherent, coherent_started.
Qed.

Lemma newer_record_is_sent_next_witness :
  fst (GetBroadcasts 2 1400 2
         (processStateChange (stateAt 30 "blue")
            (finalServer
               (snd (run [callMutate {| time.abs_ns := 20; time.zone := 0 |} 0]
                       (started (newServer 0 (stateAt 10 "green"))))))))
  = [Message {| embedded := stateAt 30 "blue" |}].
Proof.
  apply (newer_record_is_sent_next 0 (stateAt 10 "green")
           [callMutate {| time.abs_ns := 20; time.zone := 0 |} 0]
           (stateAt 30 "blue") 2 1400 2 eq_refl).
  - unfold memberlist.MaxInt64. lia.
  - vm_compute. discriminate.
Defined.

(** X26.  A payload that a server sends from its queue brings the peer that
    receives it up to the timestamp the server holds: [NotifyMsg] returns,
    the peer then holds a record that is not older, and a peer that held
    an older record holds one with the instant of the server's and sends
    one update.  The server was created with a well-formed record, the
    clock of every [mutate] of its run is in the range of RFC 3339, and
    every buffer it received decodes to a zone less than a day away from
    UTC. *)
Theorem gossip_brings_peer_up_to_date
    (numServers : Z) (initial : state) (evs : list event) (peer : server) :
  wellFormed initial = true ->
  Forall wellFormedCall evs ->
  let s := finalServer (snd (run evs (started (newServer numServers initial)))) in
  forall overhead limit transmitLimit payload,
    In payload (fst (GetBroadcasts overhead limit transmitLimit s)) ->
    exists peer',
      NotifyMsg payload peer = Returned peer'
      /\ time.Before (TS (srv_state peer')) (TS (srv_state s)) = false
      /\ (time.Before (TS (srv_state peer)) (TS (srv_state s)) = true ->
          time.Equal (TS (srv_state peer')) (TS (srv_state s)) = true
          /\ updates peer' = S (updates peer)).
Proof.
  intros Hwf Hevs. cbv zeta.
  pose proof (run_relayable evs _ (relayable_started (newServer numServers initial) Hwf)
                Hevs) as [_ Hq].
  pose proof (run_coherent evs _ (coherent_started (newServer numServers initial))) as Hc.
  set (s := finalServer (snd (run evs (started (newServer numServers initial))))) in *.
  intros overhead limit transmitLimit payload.
  rewrite GetBroadcasts_payloads. intros Hp%in_map_iff.
  destruct Hp as (x & <- & Hx).
  assert (Hboth : Forall (fun x => current s (memberlist.b x)
                    /\ exists r, memberlist.b x = isStateChange {| embedded := r |}
                                 /\ wellFormed r = true)
                    (memberlist.tq (queue s))).
  { unfold coherent in Hc. rewrite Forall_forall in *. intros y Hy. split; auto. }
  destruct (selectBroadcasts_holds
              (fun bc => current s bc
                 /\ exists r, bc = isStateChange {| embedded := r |}
                              /\ wellFormed r = true)
              overhead limit transmitLimit (queue s) Hboth) as [Hsent _].
  rewrite Forall_forall in Hsent.
  destruct (Hsent x) as ((r0 & Hr0 & Ht) & r & Hr & Hwfr);
    [by apply list_elem_of_In|].
  rewrite Hr in Hr0. injection Hr0 as ->.
  exists (processStateChange r0 peer). rewrite Hr.
  cbn [memberlist.Message anyBroadcast_Broadcast].
  split; [by apply NotifyMsg_Message|].
  destruct (processStateChange_mono r0 peer) as [_ Hge].
  split.
  - apply Before_false_ge. lia.
  - intros Hold. apply Before_lt in Hold.
    assert (Hacc : time.Before (TS r0) (TS (srv_state peer)) = false).
    { apply Before_false_ge. lia. }
    rewrite processStateChange_state, processStateChange_updates, Hacc.
    split; [|done]. unfold time.Equal. by apply Z.eqb_eq.
Qed.

Lemma gossip_brings_peer_up_to_date_witness :
  exists peer',
    NotifyMsg (Message {| embedded := stateAt 20 "red" |})
      (started (newServer 1 (stateAt 7 "blue"))) = Returned peer'
    /\ time.Before (TS (srv_state peer')) (TS (stateAt 20 "red")) = false.
Proof.
  pose proof (gossip_brings_peer_up_to_date 0 (stateAt 10 "green")
                [callMutate {| time.abs_ns := 20; time.zone := 0 |} 0]
                (started (newServer 1 (stateAt 7 "blue"))) eq_refl) as H.
  destruct (H ltac:(repeat constructor) 2 1400 2
              (Message {| embedded := stateAt 20 "red" |}) (or_introl eq_refl))
    as (peer' & Hret & Hnew & _).
  exists peer'. split; [exact Hret | exact Hnew].
Defined.

(** X27.  A server that takes, from a buffer, a strictly newer record whose
    zone is less than a day away from UTC passes it on: [NotifyMsg]
    returns, the server holds the record, and its next [GetBroadcasts]
    with room for the payload returns one payload, which has on every
    peer the effect of the buffer the server received.  The room, the
    limit less the overhead, is a value of [int], so at most
    [MaxInt64]. *)
Theorem accepted_record_is_passed_on
    (numServers : Z) (initial : state) (evs : list event)
    (buf : string) (r : state) (overhead limit transmitLimit : Z)
    (peer : server) :
  let s := finalServer (snd (run evs (started (newServer numServers initial)))) in
  json.Unmarshal buf = Some r ->
  Z.abs (time.zone (TS r)) < 86400 ->
  time.After (TS r) (TS (srv_state s)) = true ->
  0 < limit - overhead <= memberlist.MaxInt64 ->
  len (Message {| embedded := r |}) <= limit - overhead ->
  exists s' payload,
    NotifyMsg buf s = Returned s'
    /\ srv_state s' = r
    /\ updates s' = S (updates s)
    /\ fst (GetBroadcasts overhead limit transmitLimit s') = [payload]
    /\ NotifyMsg payload peer = NotifyMsg buf peer.
Proof.
  cbv zeta. intros Hr Hz Hafter Hroom Hlen.
  rewrite After_Before in Hafter. apply Before_lt in Hafter.
  pose proof (run_coherent evs _ (coherent_started (newServer numServers initial))) as Hc.
  set (s := finalServer (snd (run evs (started (newServer numServers initial))))) in *.
  destruct (coherent_newer_sent r s overhead limit transmitLimit Hc Hafter
              Hroom Hlen) as [Hsent _].
  assert (Hacc : time.Before (TS r) (TS (srv_state s)) = false).
  { apply Before_false_ge. lia. }
  exists (processStateChange r s), (Message {| embedded := r |}).
  split; [by unfold NotifyMsg; rewrite Hr|].
  split; [by rewrite processStateChange_state, Hacc|].
  split; [by rewrite processStateChange_updates, Hacc|].
  split; [exact Hsent|].
  rewrite NotifyMsg_Message by (by eapply Unmarshal_wellFormed).
  unfold NotifyMsg. by rewrite Hr.
Qed.

Lemma accepted_record_is_passed_on_witness :
  exists s' payload,
    NotifyMsg looseExample (started (newServer 0 (stateAt 10 "green"))) = Returned s'
    /\ fst (GetBroadcasts 2 1400 2 s') = [payload]
    /\ NotifyMsg payload (started (newServer 1 (stateAt 7 "red")))
       = NotifyMsg looseExample (started (newServer 1 (stateAt 7 "red"))).
Proof.
  destruct (accepted_record_is_passed_on 0 (stateAt 10 "green") [] looseExample
              {| TS := {| time.abs_ns := 1500000000; time.zone := 3600 |};
                 Value := "a<b" |}
              2 1400 2 (started (newServer 1 (stateAt 7 "red"))))
    as (s' & payload & Hret & _ & _ & Hsent & Hsame).
  - vm_compute. reflexivity.
  - simpl. lia.
  - reflexivity.
  - unfold memberlist.MaxInt64. lia.
  - vm_compute. discriminate.
  - exists s', payload. split; [exact Hret|]. split; [exact Hsent | exact Hsame].
Defined.
